(** * Cost allocation, quarter roll-up and window paging of the bills dashboard

    A shallow embedding of the data-processing core of
    [frontend/src/components/Dashboard.jsx]: the helpers [toYearMonth],
    [toQuarter], [getMonthsBetween], [aggregateToQuarters], [addMonths] and
    the derivations of the [Dashboard] component ([allMonthly], the window
    bounds, [displayData], the paging callbacks), followed by the properties
    that the design document states about them.  The rest of the component
    (the labels [formatYM], [formatPeriodLabel] and [windowLabel], the
    toolbar, [SummaryCards], [seriesByUtility] and [UtilityCharts]) and the
    pure parts of [frontend/src/components/FileManager.jsx] ([formatSize],
    the file name of a result, the processing handlers) are embedded after
    it, with further properties at the end of the file.

    Conventions of the embedding.
    - Money is a rational ([Q]): the derivations are studied in exact
      arithmetic, floating-point rounding error is not modelled.  Where a
      statement depends on this it says so.  The quarter roll-up is embedded
      a second time on doubles and strings ([aggregateToQuarters_js]), to
      show what the program does where the two differ.
    - Integers that come out of date strings are [Z], exact (JavaScript
      numbers are exact below 2^53); a number that is [NaN], or [undefined]
      used as a number, is [None].
    - [Number] and [parseInt] read runs of decimal digits, which is all that
      a date holds between its hyphens; other numeric literals are not
      modelled.
    - Strings are [string]s of 8-bit characters; text outside ASCII (the
      labels of the configuration, the dash of the window label) stands for
      its UTF-8 bytes.  [<], [>=] on strings and
      [localeCompare] are the code-unit lexicographic order; for
      [localeCompare] this is the collation order on the alphabet the keys
      are made of (decimal digits, the hyphen and the letter Q).
    - A [while] loop is a function with fuel; the fuel that the model gives
      a loop is shown to suffice whenever the loop ends, and [Diverges] is
      the outcome of a loop that does not end.
    - A JavaScript object used as a dictionary is an insertion-ordered
      association list when [Object.values] is taken of it, and a [gmap]
      when only keyed access matters.  A row object is its label ([month] or
      [period]) together with its numeric properties; property names
      inherited from [Object.prototype] are not modelled, so a provider, a
      utility type or a start date that reads "constructor", "toString" and
      the like is outside the model; the statements that depend on it
      exclude these names ([inherited]).
    - [toFixed] is modelled on numbers below 10^21 in absolute value, where
      it prints decimal digits.
    - An exception that the component throws is an explicit outcome
      ([TypeError]); a promise is the answer that it settles with. *)

From Stdlib Require Import ZArith QArith Qround Qabs String Ascii List Lia Lqa Permutation Sorted
  OrderedTypeEx.
From Stdlib Require Import Floats.PrimFloat Floats.FloatOps Floats.SpecFloat.
From stdpp Require Import gmap strings list fin_maps sorting.

Local Open Scope Z_scope.

(** Decimal literals of doubles denote the nearest double, as in the
    program. *)
#[local] Set Warnings "-inexact-float".

(** ** JavaScript primitives used by the component *)

(** A number obtained from text: an integer, or [None] for [NaN]. *)
Definition jsnum := option Z.

Definition digit_of_ascii (c : ascii) : option Z :=
  let n := Z.of_N (N_of_ascii c) in
  if (48 <=? n) && (n <=? 57) then Some (n - 48) else None.

Definition ascii_of_digit (d : Z) : ascii := ascii_of_N (Z.to_N (48 + d)).

Fixpoint digits_value (acc : Z) (s : string) : jsnum :=
  match s with
  | EmptyString => Some acc
  | String c s' =>
      match digit_of_ascii c with
      | Some d => digits_value (10 * acc + d) s'
      | None => None
      end
  end.

(** [Number(s)] on the text found between hyphens of a date: a run of decimal
    digits denotes its value, the empty string denotes 0, and text that is
    not a numeric literal is [NaN].  Signed, fractional, exponent and
    hexadecimal literals and surrounding white space do not occur in dates
    and are not modelled (they read as [NaN] here). *)
Definition Number (s : string) : jsnum := digits_value 0 s.

(** [parseInt(s)]: the value of the leading run of decimal digits, [NaN] when
    there is none. *)
Fixpoint leading_digits (s : string) : string :=
  match s with
  | EmptyString => EmptyString
  | String c s' =>
      match digit_of_ascii c with
      | Some _ => String c (leading_digits s')
      | None => EmptyString
      end
  end.

Definition parseInt (s : string) : jsnum :=
  match leading_digits s with
  | EmptyString => None
  | ds => digits_value 0 ds
  end.

(** Decimal digits of a non-negative integer, most significant first. *)
Fixpoint digits_of (fuel : nat) (n : Z) (acc : string) : string :=
  match fuel with
  | O => acc
  | S fuel' =>
      let acc' := String (ascii_of_digit (n mod 10)) acc in
      if n <? 10 then acc' else digits_of fuel' (n / 10) acc'
  end.

Definition nat_digits (n : Z) : string :=
  digits_of (S (Z.to_nat (Z.log2 n))) n EmptyString.

(** [String(n)], also what a template literal inserts for a number. *)
Definition numToStr (n : jsnum) : string :=
  match n with
  | None => "NaN"
  | Some z => if z <? 0 then "-" +:+ nat_digits (- z) else nat_digits z
  end.

(** [s.padStart(2, '0')]. *)
Definition padStart2 (s : string) : string :=
  match s with
  | EmptyString => "00"
  | String c EmptyString => String "0" s
  | _ => s
  end.

(** [s.split('-')]: never empty; the pieces contain no hyphen. *)
Fixpoint split_hyphen (s : string) : string * list string :=
  match s with
  | EmptyString => (EmptyString, [])
  | String c s' =>
      let '(hd, tl) := split_hyphen s' in
      if Ascii.eqb c "-" then (EmptyString, hd :: tl) else (String c hd, tl)
  end.

Definition split (s : string) : list string :=
  let '(hd, tl) := split_hyphen s in hd :: tl.

(** Arithmetic and comparisons with [NaN]: a sum with [NaN] is [NaN], every
    comparison with [NaN] is false. *)
Definition jsadd (a : jsnum) (n : Z) : jsnum := option_map (fun z => z + n) a.
Definition jslt (a b : jsnum) : bool :=
  match a, b with Some x, Some y => x <? y | _, _ => false end.
Definition jsle (a b : jsnum) : bool :=
  match a, b with Some x, Some y => x <=? y | _, _ => false end.
Definition jseq (a b : jsnum) : bool :=
  match a, b with Some x, Some y => x =? y | _, _ => false end.

(** [Math.ceil(v / 3)] on an integer. *)
Definition ceil_div3 (v : jsnum) : jsnum := option_map (fun z => - ((- z) / 3)) v.

(** Order on strings: [a < b], [a <= b] and [a.localeCompare(b)].  The
    comparison operators are the code-unit order; [localeCompare] collates,
    and is the code-unit order on text made of digits, hyphens and the
    letter Q, which is where the statements use it. *)
Definition str_lt (a b : string) : bool := String.ltb a b.
Definition str_le (a b : string) : bool := String.leb a b.
Definition localeCompare (a b : string) : comparison := String.compare a b.

(** [v || 0] on a property that is a number or absent. *)
Definition or0 (v : option Q) : Q :=
  match v with
  | Some q => if Qeq_bool q 0 then 0%Q else q
  | None => 0%Q
  end.

(** [Math.round(x)]: the nearest integer, ties towards plus infinity. *)
Definition Math_round (x : Q) : Z := Qfloor (x + (1 # 2)).

(** [Math.round(x * 100) / 100]. *)
Definition round2 (x : Q) : Q := (inject_Z (Math_round (x * 100)) / 100)%Q.

(** A loop of the program either returns or runs forever. *)
Inductive outcome (A : Type) : Type :=
  | Returns (a : A)
  | Diverges.
Arguments Returns {A} a.
Arguments Diverges {A}.

Definition bind {A B : Type} (c : outcome A) (k : A -> outcome B) : outcome B :=
  match c with
  | Returns a => k a
  | Diverges => Diverges
  end.

Notation "'do' x <- c ; k" := (bind c (fun x => k))
  (at level 10, x name, c at level 100, k at level 200).

(** Stable sort by a string key, as [arr.sort((a, b) =>
    a.key.localeCompare(b.key))]: an element goes in front of the first
    element whose key is not smaller, so equal keys keep their order. *)
Section Sort.
Context {A : Type} (key : A -> string).

Fixpoint insert_by (x : A) (l : list A) : list A :=
  match l with
  | [] => [x]
  | y :: l' =>
      match localeCompare (key x) (key y) with
      | Gt => y :: insert_by x l'
      | _ => x :: l
      end
  end.

Definition sort_by (l : list A) : list A := foldr insert_by [] l.
End Sort.

(** An object used as a dictionary with string keys, in insertion order
    ([Object.values] lists the values in this order, because no key of the
    program is an array index: every key contains a hyphen). *)
Section Dict.
Context {V : Type}.

Definition dict := list (string * V).

Fixpoint dict_get (d : dict) (k : string) : option V :=
  match d with
  | [] => None
  | (k', v) :: d' => if String.eqb k' k then Some v else dict_get d' k
  end.

(** [d[k] = f(d[k])] for a key that is present. *)
Fixpoint dict_alter (f : V -> V) (k : string) (d : dict) : dict :=
  match d with
  | [] => []
  | (k', v) :: d' =>
      if String.eqb k' k then (k', f v) :: d' else (k', v) :: dict_alter f k d'
  end.

(** [if (!d[k]) d[k] = v] for values that are objects (always truthy). *)
Definition dict_ensure (k : string) (v : V) (d : dict) : dict :=
  match dict_get d k with
  | Some _ => d
  | None => d ++ [(k, v)]
  end.

Definition dict_values (d : dict) : list V := map snd d.
End Dict.
Arguments dict : clear implicits.

(** ** Date helpers *)

(** The piece a destructuring [[y, m] = s.split('-')] binds, as it prints in
    a template literal. *)
Definition piece (parts : list string) (i : nat) : string := nth i parts "undefined".

(** The number a destructuring [[y, m] = s.split('-').map(Number)] binds;
    a missing piece is [undefined], which acts as [NaN] in arithmetic. *)
Definition num_piece (parts : list string) (i : nat) : jsnum :=
  match nth_error parts i with
  | Some p => Number p
  | None => None
  end.

(** [`${y}-${String(m).padStart(2, '0')}`]. *)
Definition ymKey (y m : jsnum) : string :=
  numToStr y +:+ "-" +:+ padStart2 (numToStr m).

(** [toYearMonth(dateStr)]; [None] is JavaScript's [null]. *)
Definition toYearMonth (dateStr : string) : option string :=
  match dateStr with
  | EmptyString => None
  | _ => let parts := split dateStr in Some (piece parts 0 +:+ "-" +:+ piece parts 1)
  end.

(** [toQuarter(ym)]. *)
Definition toQuarter (ym : string) : string :=
  let parts := split ym in
  let q := ceil_div3 (parseInt (piece parts 1)) in
  piece parts 0 +:+ "-Q" +:+ numToStr q.

(** The [while] loop of [getMonthsBetween]; [fuel] bounds the number of
    iterations and [Diverges] is returned when it is used up. *)
Fixpoint months_loop (fuel : nat) (y m ey em : jsnum) (months : list string)
  : outcome (list string) :=
  match fuel with
  | O => Diverges
  | S fuel' =>
      if jslt y ey || (jseq y ey && jsle m em) then
        let months' := months ++ [ymKey y m] in
        let m' := jsadd m 1 in
        if jslt (Some 12) m'
        then months_loop fuel' (jsadd y 1) (Some 1) ey em months'
        else months_loop fuel' y m' ey em months'
      else Returns months
  end.

(** A number of iterations that the loop cannot exceed when it ends: at most
    13 per calendar year from the start year to the end year. *)
Definition months_fuel (sy ey : jsnum) : nat :=
  match sy, ey with
  | Some a, Some b => S (Z.to_nat (13 * (b - a + 1)))
  | _, _ => 1%nat
  end.

(** [getMonthsBetween(startDate, endDate)].  The elements are strings, or
    [null] ([None]) in the fallback for an empty [startDate]. *)
Definition getMonthsBetween (startDate endDate : string) : outcome (list (option string)) :=
  let s := split startDate in
  let e := split endDate in
  let sy := num_piece s 0 in let sm := num_piece s 1 in
  let ey := num_piece e 0 in let em := num_piece e 1 in
  do months <- months_loop (months_fuel sy ey) sy sm ey em [];
  Returns (match months with
           | [] => [toYearMonth startDate]
           | _ => map Some months
           end).

(** The two normalising loops of [addMonths]. *)
Fixpoint carry_years (fuel : nat) (y m : jsnum) : jsnum * jsnum :=
  match fuel with
  | O => (y, m)
  | S fuel' =>
      if jslt (Some 12) m then carry_years fuel' (jsadd y 1) (jsadd m (-12)) else (y, m)
  end.

Fixpoint borrow_years (fuel : nat) (y m : jsnum) : jsnum * jsnum :=
  match fuel with
  | O => (y, m)
  | S fuel' =>
      if jslt m (Some 1) then borrow_years fuel' (jsadd y (-1)) (jsadd m 12) else (y, m)
  end.

(** Iterations that suffice for either loop (each one moves [m] by 12). *)
Definition wrap_fuel (m : jsnum) : nat :=
  match m with
  | Some z => S (Z.to_nat (Z.abs z / 12))
  | None => O
  end.

(** [addMonths(ym, n)]. *)
Definition addMonths (ym : string) (n : Z) : string :=
  let parts := split ym in
  let y := num_piece parts 0 in
  let m := jsadd (num_piece parts 1) n in
  let '(y1, m1) := carry_years (wrap_fuel m) y m in
  let '(y2, m2) := borrow_years (wrap_fuel m1) y1 m1 in
  ymKey y2 m2.

(** ** Data model *)

(** One billing record of a series ([s.data[i]]).  An absent or [null]
    property is [None]. *)
Record DataPoint := {
  period_start : option string;
  period_end : option string;
  cost_gross : option Q;
  is_estimate : bool
}.

Record Series := { provider : string; data : list DataPoint }.

Record ChartData := { series : list Series }.

(** A row object of the monthly timeline: its [month] property and its
    numeric properties, keyed by provider. *)
Record Row := { month : string; vals : gmap string Q }.

(** A row object of the quarterly roll-up and of the chart. *)
Record QRow := { period : string; qvals : gmap string Q }.

Record DisplayRow := {
  d_period : string;
  d_eon : Q;
  d_pgnig : Q;
  d_mpwik : Q;
  d_total : Q
}.

Inductive Aggregation := ByMonth | ByQuarter.

Record Window := {
  windowStart : option string;
  windowEnd : option string;
  canGoBack : bool;
  canGoForward : bool
}.

(** Truthiness of a string property: present and not empty. *)
Definition truthy (o : option string) : option string :=
  match o with
  | Some EmptyString => None
  | _ => o
  end.

(** ** The monthly allocator ([allMonthly]) *)

Section Allocator.
(** [String(x)] of a cost; it is only used when a series names its
    provider "month" and the cost is appended to the month label. *)
Variable numToString : Q -> string.

(** [row[provider] = (row[provider] || 0) + perMonth].  The property
    "month" holds the (non-empty) label of the row, so for that provider
    name [+] concatenates.  It also does for a provider named like a
    property inherited from [Object.prototype], which is not modelled: the
    statements about stored values exclude these names. *)
Definition add_cost (provider : string) (perMonth : Q) (row : Row) : Row :=
  if String.eqb provider "month"
  then {| month := month row +:+ numToString perMonth; vals := vals row |}
  else {| month := month row;
          vals := <[provider := (or0 (vals row !! provider) + perMonth)%Q]> (vals row) |}.

(** The body of [for (const ym of months)]. *)
Definition month_step (provider : string) (perMonth : Q)
    (providerMonths : dict Row) (ym : option string) : dict Row :=
  match ym with
  | Some ym =>
      dict_alter (add_cost provider perMonth) ym
        (dict_ensure ym {| month := ym; vals := ∅ |} providerMonths)
  | None => providerMonths   (* no [null] month when period_start is truthy *)
  end.

(** [cost / months.length]. *)
Definition perMonth (cost : Q) (months : list (option string)) : Q :=
  (cost / inject_Z (Z.of_nat (length months)))%Q.

(** The body of [for (const d of s.data)]. *)
Definition record_step (provider : string) (providerMonths : dict Row) (d : DataPoint)
  : outcome (dict Row) :=
  if is_estimate d then Returns providerMonths else
  let cost := or0 (cost_gross d) in
  match Qeq_bool cost 0, truthy (period_start d) with
  | false, Some start =>
      do months <- getMonthsBetween start (default start (truthy (period_end d)));
      Returns (fold_left (month_step provider (perMonth cost months)) months providerMonths)
  | _, _ => Returns providerMonths
  end.

Fixpoint data_loop (provider : string) (ds : list DataPoint) (providerMonths : dict Row)
  : outcome (dict Row) :=
  match ds with
  | [] => Returns providerMonths
  | d :: ds' =>
      do pm <- record_step provider providerMonths d;
      data_loop provider ds' pm
  end.

Fixpoint series_loop (ss : list Series) (providerMonths : dict Row) : outcome (dict Row) :=
  match ss with
  | [] => Returns providerMonths
  | s :: ss' =>
      do pm <- data_loop (provider s) (data s) providerMonths;
      series_loop ss' pm
  end.

(** The providers of the summary, [['eon', 'pgnig', 'mpwik']]. *)
Definition tracked : list string := ["eon"; "pgnig"; "mpwik"].

(** [row => { month: row.month, eon: …, pgnig: …, mpwik: … }]. *)
Definition project (row : Row) : Row :=
  {| month := month row;
     vals := fold_left (fun out k => <[k := round2 (or0 (vals row !! k))]> out) tracked ∅ |}.

(** The [allMonthly] derivation ([buildMonthlyTimeline] of the design). *)
Definition allMonthly (chartData : option ChartData) : outcome (list Row) :=
  match chartData with
  | None => Returns []
  | Some cd =>
      match series cd with
      | [] => Returns []
      | ss =>
          do providerMonths <- series_loop ss [];
          Returns (map project (sort_by month (dict_values providerMonths)))
      end
  end.
End Allocator.

(** ** Quarter roll-up *)

(** The inner loop of [aggregateToQuarters] over [Object.keys(row)], on
    rows whose properties are numbers, in exact arithmetic. *)
Definition add_row (row : Row) (q : QRow) : QRow :=
  {| period := period q;
     qvals := map_fold (fun key v acc =>
                if String.eqb key "month" || String.eqb key "period" then acc
                else <[key := (or0 (acc !! key) + or0 (Some v))%Q]> acc)
              (qvals q) (vals row) |}.

Definition quarter_step (quarters : dict QRow) (row : Row) : dict QRow :=
  let qKey := toQuarter (month row) in
  dict_alter (add_row row) qKey (dict_ensure qKey {| period := qKey; qvals := ∅ |} quarters).

(** [aggregateToQuarters(monthlyData)]. *)
Definition aggregateToQuarters (monthlyData : list Row) : list QRow :=
  sort_by period (dict_values (fold_left quarter_step monthlyData [])).

(** ** Window bounds, display rows and paging *)

(** The window derivation of the component ([computeWindow] of the design). *)
Definition computeWindow (allMonthly : list Row) (windowMonths offset : Z) : Window :=
  match allMonthly with
  | [] => {| windowStart := None; windowEnd := None; canGoBack := false; canGoForward := false |}
  | first :: _ =>
      let lastMonth := month (List.last allMonthly first) in
      let firstMonth := month first in
      if windowMonths =? 0 then
        {| windowStart := Some firstMonth; windowEnd := Some lastMonth;
           canGoBack := false; canGoForward := false |}
      else
        let end_ := addMonths lastMonth (- offset) in
        let start := addMonths end_ (- (windowMonths - 1)) in
        {| windowStart := Some start; windowEnd := Some end_;
           canGoBack := str_lt firstMonth start; canGoForward := 0 <? offset |}
  end.

(** [{ period: row.month, eon: row.eon, pgnig: row.pgnig, mpwik: row.mpwik }];
    a property read as [undefined] stays absent for the [|| 0] that follows. *)
Definition chart_row (row : Row) : QRow :=
  {| period := month row;
     qvals := fold_left (fun out k =>
                match vals row !! k with Some v => <[k := v]> out | None => out end)
              ["eon"; "pgnig"; "mpwik"]%string ∅ |}.

Definition final_row (r : QRow) : DisplayRow :=
  let eon := or0 (qvals r !! "eon"%string) in
  let pgnig := or0 (qvals r !! "pgnig"%string) in
  let mpwik := or0 (qvals r !! "mpwik"%string) in
  {| d_period := period r;
     d_eon := round2 eon;
     d_pgnig := round2 pgnig;
     d_mpwik := round2 mpwik;
     d_total := round2 (eon + pgnig + mpwik)%Q |}.

(** The rows of [allMonthly] inside the window ([filtered]). *)
Definition filtered (allMonthly : list Row) (windowMonths : Z) (w : Window) : list Row :=
  match 0 <? windowMonths, truthy (windowStart w), truthy (windowEnd w) with
  | true, Some ws, Some we =>
      List.filter (fun row => str_le ws (month row) && str_le (month row) we) allMonthly
  | _, _, _ => allMonthly
  end.

Definition chartRows (allMonthly : list Row) (windowMonths : Z) (w : Window)
    (aggregation : Aggregation) : list QRow :=
  match aggregation with
  | ByQuarter => aggregateToQuarters (filtered allMonthly windowMonths w)
  | ByMonth => map chart_row (filtered allMonthly windowMonths w)
  end.

(** The [displayData] derivation ([filterAndProject] of the design). *)
Definition displayData (allMonthly : list Row) (windowMonths : Z) (w : Window)
    (aggregation : Aggregation) : list DisplayRow :=
  match allMonthly with
  | [] => []
  | _ => map final_row (chartRows allMonthly windowMonths w aggregation)
  end.

(** The component state that the toolbar changes. *)
Record State := { st_windowMonths : Z; st_offset : Z; st_aggregation : Aggregation }.

Definition stepSize (windowMonths : Z) : Z := Z.max 1 (windowMonths / 2).

Definition goBack (st : State) : State :=
  {| st_windowMonths := st_windowMonths st;
     st_offset := st_offset st + stepSize (st_windowMonths st);
     st_aggregation := st_aggregation st |}.

Definition goForward (st : State) : State :=
  {| st_windowMonths := st_windowMonths st;
     st_offset := Z.max 0 (st_offset st - stepSize (st_windowMonths st));
     st_aggregation := st_aggregation st |}.

Definition handleWindowChange (months : Z) (st : State) : State :=
  {| st_windowMonths := months; st_offset := 0; st_aggregation := st_aggregation st |}.

(** * Vocabulary of the statements *)

(** ** Inputs without some records *)

(** The chart data with the records that satisfy [P] removed from every
    series. *)
Definition without (P : DataPoint -> bool) (chartData : option ChartData) : option ChartData :=
  option_map (fun cd =>
    {| series := map (fun s => {| provider := provider s;
                                  data := List.filter (fun d => negb (P d)) (data s) |})
                     (series cd) |}) chartData.

(** A property that is absent ([null], [undefined] or the empty string). *)
Definition absent (o : option string) : bool :=
  match truthy o with None => true | Some _ => false end.

(** Records with [cost_gross <= 0] (an absent cost counting as 0) or without
    [period_start]. *)
Definition nonpositive_or_undated (d : DataPoint) : bool :=
  Qle_bool (or0 (cost_gross d)) 0 || absent (period_start d).

(** Records whose [cost_gross] is zero or absent, or without [period_start]. *)
Definition costless_or_undated (d : DataPoint) : bool :=
  Qeq_bool (or0 (cost_gross d)) 0 || absent (period_start d).

(** ** Sums and cents *)

(** Sum of a list of rationals. *)
Definition Qsum (l : list Q) : Q := fold_right Qplus 0%Q l.

(** A multiple of 0.01. *)
Definition cents (q : Q) : Prop := exists k : Z, (q == inject_Z k / 100)%Q.

Definition all_cents (m : gmap string Q) : Prop :=
  forall k v, m !! k = Some v -> cents v.

(** The value of a numeric property, an absent one counting as 0. *)
Definition val0 (m : gmap string Q) (k : string) : Q :=
  match m !! k with Some v => v | None => 0%Q end.

(** The total of property [k] over month rows, and over quarter rows. *)
Definition column (k : string) (rows : list Row) : Q :=
  Qsum (map (fun r => val0 (vals r) k) rows).

Definition qcolumn (k : string) (qrows : list QRow) : Q :=
  Qsum (map (fun q => val0 (qvals q) k) qrows).

(** The month rows that fall in the quarter with key [qKey]. *)
Definition in_quarter (qKey : string) (rows : list Row) : list Row :=
  List.filter (fun r => String.eqb (toQuarter (month r)) qKey) rows.

(** What the dictionary holds after the rows have been processed. *)
Record quarters_of (rows : list Row) (quarters : dict QRow) : Prop := {
  qo_nodup : List.NoDup (map fst quarters);
  qo_keys : forall qKey,
    dict_get quarters qKey <> None <-> exists r, In r rows /\ toQuarter (month r) = qKey;
  qo_rows : forall qKey q,
    dict_get quarters qKey = Some q ->
    period q = qKey /\
    forall k, k <> "month"%string -> k <> "period"%string ->
      (val0 (qvals q) k == column k (in_quarter qKey rows))%Q
}.

(** ** Dates and month keys *)

(** A run of decimal digits. *)
Fixpoint all_digits (s : string) : bool :=
  match s with
  | EmptyString => true
  | String c s' =>
      match digit_of_ascii c with Some _ => all_digits s' | None => false end
  end.

(** Zero-padded fields of a date. *)
Definition two_digits (m : Z) : string :=
  String (ascii_of_digit (m / 10)) (String (ascii_of_digit (m mod 10)) EmptyString).

Definition four_digits (y : Z) : string :=
  String (ascii_of_digit (y / 1000))
    (String (ascii_of_digit (y / 100 mod 10))
       (String (ascii_of_digit (y / 10 mod 10))
          (String (ascii_of_digit (y mod 10)) EmptyString))).

(** The text "YYYY-MM" of a month, and a date or month text that starts
    with it ("YYYY-MM", "YYYY-MM-DD", …). *)
Definition ym_text (y m : Z) : string := four_digits y +:+ "-" +:+ two_digits m.

Definition date_text (y m : Z) (rest : string) : string := ym_text y m +:+ rest.

Definition date_tail (rest : string) : Prop :=
  rest = EmptyString \/ exists r, rest = String "-" r.

(** One month later, rolling the year after month 12. *)
Definition next_month (ym : Z * Z) : Z * Z :=
  let '(y, m) := ym in if 12 <=? m then (y + 1, 1) else (y, m + 1).

(** [n] consecutive months from [ym] on. *)
Fixpoint months_from (n : nat) (ym : Z * Z) : list (Z * Z) :=
  match n with
  | O => []
  | S n' => ym :: months_from n' (next_month ym)
  end.

(** Months counted from January of year 0. *)
Definition month_index (y m : Z) : Z := 12 * y + (m - 1).

Definition month_of_index (i : Z) : Z * Z := (i / 12, i mod 12 + 1).

(** The key that the program writes for the month with a given index. *)
Definition key_of_index (i : Z) : string := ymKey (Some (i / 12)) (Some (i mod 12 + 1)).

Definition key_of_month (ym : Z * Z) : string := ymKey (Some (fst ym)) (Some (snd ym)).

(** The number of months from a start month to an end month, both included
    (not positive when the end is before the start). *)
Definition month_count (sy sm ey em : Z) : Z := 12 * (ey - sy) + (em - sm) + 1.

(** A timeline of two months, January 2022 and December 2024. *)
Definition two_rows : list Row :=
  [ {| month := "2022-01"; vals := ∅ |}; {| month := "2024-12"; vals := ∅ |} ].

(** ** Contributions *)

(** One per-month contribution of a record: provider, month key, amount. *)
Abbreviation event := (string * string * Q)%type.
Definition ev_provider (e : event) : string := fst (fst e).
Definition ev_key (e : event) : string := snd (fst e).
Definition ev_amount (e : event) : Q := snd e.

(** The contributions of one record, of the records of a series and of all
    series, in the order in which the loops make them. *)
Definition record_events (provider : string) (d : DataPoint) : outcome (list event) :=
  if is_estimate d then Returns [] else
  let cost := or0 (cost_gross d) in
  match Qeq_bool cost 0, truthy (period_start d) with
  | false, Some start =>
      do months <- getMonthsBetween start (default start (truthy (period_end d)));
      Returns (omap (fun ym => option_map (fun k => (provider, k, perMonth cost months)) ym)
                    months)
  | _, _ => Returns []
  end.

Fixpoint data_events (provider : string) (ds : list DataPoint) : outcome (list event) :=
  match ds with
  | [] => Returns []
  | d :: ds' =>
      do es <- record_events provider d;
      do rest <- data_events provider ds';
      Returns (es ++ rest)
  end.

Fixpoint contributions (ss : list Series) : outcome (list event) :=
  match ss with
  | [] => Returns []
  | s :: ss' =>
      do es <- data_events (provider s) (data s);
      do rest <- contributions ss';
      Returns (es ++ rest)
  end.

(** What [k], [p] have received: the amounts, and the value that the
    accumulation [(row[p] || 0) + amount] leaves in the row. *)
Definition matches (k p : string) (e : event) : bool :=
  String.eqb (ev_key e) k && String.eqb (ev_provider e) p.

Definition amounts (E : list event) (k p : string) : list Q :=
  map ev_amount (List.filter (matches k p) E).

Definition slot (E : list event) (k p : string) : option Q :=
  fold_left (fun acc e => if matches k p e then Some (or0 acc + ev_amount e)%Q else acc) E None.

Definition apply_event (numToString : Q -> string) (pm : dict Row) (e : event) : dict Row :=
  month_step numToString (ev_provider e) (ev_amount e) pm (Some (ev_key e)).

(** The table that the loops leave behind: distinct keys, one per month key
    that received a contribution, each row labelled with its key and holding
    per provider the accumulated contributions. *)
Record table_of (E : list event) (pm : dict Row) : Prop := {
  to_nodup : List.NoDup (map fst pm);
  to_keys : forall k, dict_get pm k <> None <-> In k (map ev_key E);
  to_rows : forall k row, dict_get pm k = Some row ->
              month row = k /\ forall p, vals row !! p = slot E k p
}.

(** ** Order of the rows *)

(** Ascending, and strictly ascending, by key. *)
Definition key_le {A : Type} (key : A -> string) (a b : A) : Prop :=
  localeCompare (key a) (key b) <> Gt.

Definition key_lt {A : Type} (key : A -> string) (a b : A) : Prop :=
  str_lt (key a) (key b) = true.

(** The rows that [allMonthly] builds from a table. *)
Definition rows_of_table (pm : dict Row) : list Row :=
  map project (sort_by month (dict_values pm)).

(** ** Well-formed input *)

(** A date text "YYYY-MM…" with a four-digit year from 1000 on. *)
Definition wf_date (s : string) : Prop :=
  exists y m rest,
    s = date_text y m rest /\ 1000 <= y <= 9999 /\ 1 <= m <= 12 /\ date_tail rest.

Definition wf_record (d : DataPoint) : Prop :=
  (forall s, truthy (period_start d) = Some s -> wf_date s) /\
  (forall s, truthy (period_end d) = Some s -> wf_date s).

Definition wf_series (s : Series) : Prop := List.Forall wf_record (data s).

(** A zero-padded month key "YYYY-MM". *)
Definition wf_key (k : string) : Prop :=
  exists y m, 1000 <= y <= 9999 /\ 1 <= m <= 12 /\ k = ym_text y m.

Definition no_month_provider (ss : list Series) : Prop :=
  List.Forall (fun s => provider s <> "month") ss.

(** ** Example inputs *)

(** Two bills of the years 999 and 1000. *)
Definition cd_year_999 : ChartData :=
  {| series :=
       [ {| provider := "eon";
            data := [ {| period_start := Some "0999-12-01"; period_end := Some "0999-12-31";
                         cost_gross := Some 10%Q; is_estimate := false |};
                      {| period_start := Some "1000-01-01"; period_end := Some "1000-01-31";
                         cost_gross := Some 20%Q; is_estimate := false |} ] |} ] |}.

Definition known (p : string) : bool := existsb (String.eqb p) tracked.

(** The chart data without the records of providers other than eon, pgnig
    and mpwik. *)
Definition only_known (cd : ChartData) : ChartData :=
  {| series := map (fun s => {| provider := provider s;
                                data := if known (provider s) then data s else [] |})
                   (series cd) |}.

(** The month keys to which a record of a known provider contributes. *)
Definition known_key (E : list event) (k : string) : bool :=
  existsb (fun e => String.eqb (ev_key e) k && known (ev_provider e)) E.

(** One bill of a provider that the summary does not track. *)
Definition cd_unknown : ChartData :=
  {| series :=
       [ {| provider := "tauron";
            data := [ {| period_start := Some "2024-05-01"; period_end := Some "2024-05-31";
                         cost_gross := Some 100%Q; is_estimate := false |} ] |} ] |}.

(** A credit note: one bill with a negative amount. *)
Definition cd_refund : option ChartData :=
  Some {| series :=
    [ {| provider := "eon";
         data := [ {| period_start := Some "2024-01-01"; period_end := Some "2024-01-31";
                      cost_gross := Some (-50)%Q; is_estimate := false |} ] |} ] |}.

(** The text of an integral amount; it stands for [String(x)] in the
    examples, none of which names a provider "month". *)
Definition integer_text (q : Q) : string := numToStr (Some (Qfloor q)).

Definition bill (ps pe : string) (c : Q) : DataPoint :=
  {| period_start := Some ps; period_end := Some pe; cost_gross := Some c;
     is_estimate := false |}.

(** Gas for mid-January to mid-February, a bill of an untracked provider for
    February and March, and electricity for January. *)
Definition cd_sample : ChartData :=
  {| series :=
       [ {| provider := "pgnig"; data := [ bill "2024-01-15" "2024-02-14" 200 ] |};
         {| provider := "tauron"; data := [ bill "2024-02-01" "2024-03-31" 100 ] |};
         {| provider := "eon"; data := [ bill "2024-01-01" "2024-01-31" 150 ] |} ] |}.

Definition sample_timeline : list Row :=
  Eval vm_compute in
    match allMonthly integer_text (Some cd_sample) with
    | Returns rows => rows
    | Diverges => []
    end.

Definition sample_window : Window := Eval vm_compute in computeWindow sample_timeline 12 0.

Definition sample_display_row : DisplayRow :=
  Eval vm_compute in
    match displayData sample_timeline 12 sample_window ByQuarter with
    | dr :: _ => dr
    | [] => {| d_period := ""; d_eon := 0; d_pgnig := 0; d_mpwik := 0; d_total := 0 |}
    end.

(** An upper bound of the iterations that remain in the loop of
    [getMonthsBetween], plus one for the final test. *)
Definition loop_measure (ey y m : Z) : Z :=
  if ey <? y then 1 else 12 * (ey - y) + Z.max (13 - m) 1 + 1.

(** * The rest of the component *)

(** ** The toolbar *)

(** What the toolbar can do to the state: the two paging buttons, the
    buttons of [TIME_RANGES] and the buttons of [AGGREGATIONS]. *)
Inductive Action :=
  | GoBack
  | GoForward
  | WindowChange (months : Z)
  | SetAggregation (aggregation : Aggregation).

(** The state of a freshly mounted component: [useState(36)],
    [useState(0)], [useState('month')]. *)
Definition initial : State :=
  {| st_windowMonths := 36; st_offset := 0; st_aggregation := ByMonth |}.

Definition setAggregation (aggregation : Aggregation) (st : State) : State :=
  {| st_windowMonths := st_windowMonths st; st_offset := st_offset st;
     st_aggregation := aggregation |}.

Definition act (st : State) (a : Action) : State :=
  match a with
  | GoBack => goBack st
  | GoForward => goForward st
  | WindowChange months => handleWindowChange months st
  | SetAggregation aggregation => setAggregation aggregation st
  end.

(** The state after a sequence of clicks. *)
Definition run (clicks : list Action) : State := fold_left act clicks initial.

(** ** Labels of periods *)

(** [MONTHS_PL]: the short Polish names of the months, at their numbers. *)
Definition MONTHS_PL : list string :=
  [""; "Sty"; "Lut"; "Mar"; "Kwi"; "Maj"; "Cze"; "Lip"; "Sie"; "Wrz"; "Paź"; "Lis"; "Gru"]%string.

(** [arr[i]] as a template literal prints it: the element, or "undefined"
    when [i] is [NaN] or not an index of the array. *)
Definition at_index (arr : list string) (i : jsnum) : string :=
  match i with
  | Some z => if z <? 0 then "undefined" else nth (Z.to_nat z) arr "undefined"
  | None => "undefined"
  end.

(** [formatYM(ym)]. *)
Definition formatYM (ym : option string) : string :=
  match truthy ym with
  | None => ""
  | Some ym =>
      let parts := split ym in
      at_index MONTHS_PL (parseInt (piece parts 1)) +:+ " " +:+ piece parts 0
  end.

(** [formatPeriodLabel(key, aggregation)]. *)
Definition formatPeriodLabel (key : string) (aggregation : Aggregation) : string :=
  match aggregation with
  | ByQuarter => let parts := split key in piece parts 1 +:+ " " +:+ piece parts 0
  | ByMonth => formatYM (Some key)
  end.

(** The [windowLabel] of the toolbar. *)
Definition windowLabel (w : Window) (windowMonths : Z) : string :=
  match truthy (windowStart w), truthy (windowEnd w), Z.ltb 0 windowMonths with
  | Some ws, Some we, true => formatYM (Some ws) +:+ " — " +:+ formatYM (Some we)
  | _, _, _ => "Cały zakres"
  end.

(** ** The summary cards *)

(** The icons of [lucide-react] that the configuration names. *)
Inductive Icon := Zap | Flame | Droplets.

Record ProviderCfg := {
  cfg_color : string;
  cfg_fill : string;
  cfg_label : string;
  cfg_icon : Icon;
  cfg_unit : string
}.

(** [PROVIDER_CONFIG], and its entry [PROVIDER_CONFIG.eon]. *)
Definition PROVIDER_CONFIG_eon : ProviderCfg :=
  {| cfg_color := "#eab308"; cfg_fill := "rgba(234,179,8,0.15)";
     cfg_label := "e.on (prąd)"; cfg_icon := Zap; cfg_unit := "kWh" |}.

Definition PROVIDER_CONFIG : dict ProviderCfg :=
  [ ("eon", PROVIDER_CONFIG_eon);
    ("pgnig", {| cfg_color := "#f97316"; cfg_fill := "rgba(249,115,22,0.15)";
                 cfg_label := "PGNiG (gaz)"; cfg_icon := Flame; cfg_unit := "kWh" |});
    ("mpwik", {| cfg_color := "#3b82f6"; cfg_fill := "rgba(59,130,246,0.15)";
                 cfg_label := "MPWiK (woda)"; cfg_icon := Droplets; cfg_unit := "m³" |}) ]%string.

(** A computation that completes normally or throws a [TypeError]. *)
Inductive completion (A : Type) : Type :=
  | Normal (a : A)
  | TypeError.
Arguments Normal {A} a.
Arguments TypeError {A}.

(** Truthiness of a numeric property: present and not 0. *)
Definition nonzero (c : option Q) : option Q :=
  match c with
  | Some q => if Qeq_bool q 0 then None else Some q
  | None => None
  end.

(** [x.toFixed(0)], for [|x| < 10^21]: the sign of a negative [x], and the
    integer nearest to [|x|], a tie going to the larger one. *)
Definition toFixed0 (x : Q) : string :=
  if Qle_bool 0 x then nat_digits (Math_round x) else "-" +:+ nat_digits (Math_round (- x)).

(** [arr[i]] for an integer [i]: [undefined] ([None]) outside the array. *)
Definition elem {A : Type} (l : list A) (i : Z) : option A :=
  if i <? 0 then None else nth_error l (Z.to_nat i).

(** One card of the summary. *)
Record Summary := {
  s_key : string;
  s_label : string;
  s_icon : Icon;
  s_color : string;
  s_totalCost : Q;
  s_records : nat;
  s_lastCost : option Q;
  s_costTrend : option string
}.

(** [if (!byProvider[p]) byProvider[p] = []; byProvider[p].push(s)], for
    a provider that is not named like a property inherited from
    [Object.prototype]: for such a name the test finds the inherited value
    and [push] throws, which this step does not model. *)
Definition push_series (byProvider : dict (list Series)) (s : Series) : dict (list Series) :=
  let p := provider s in
  dict_alter (fun l => l ++ [s]) p (dict_ensure p [] byProvider).

(** [ym >= windowStart && ym <= windowEnd].  The months of a record with a
    start date are strings; [null] is only listed for an empty start date,
    and compares false here. *)
Definition in_window (ws we : string) (ym : option string) : bool :=
  match ym with
  | Some ym => str_le ws ym && str_le ym we
  | None => false
  end.

(** The window, when both of its bounds are given. *)
Definition bounds (windowStart windowEnd : option string) : option (string * string) :=
  match truthy windowStart, truthy windowEnd with
  | Some ws, Some we => Some (ws, we)
  | _, _ => None
  end.

(** [allData.filter(d => …)]: the records with a month in the window. *)
Fixpoint window_filter (ws we : string) (ds : list DataPoint) : outcome (list DataPoint) :=
  match ds with
  | [] => Returns []
  | d :: ds' =>
      do keep <- match truthy (period_start d) with
                 | None => Returns false
                 | Some start =>
                     do months <- getMonthsBetween start (default start (truthy (period_end d)));
                     Returns (existsb (in_window ws we) months)
                 end;
      do rest <- window_filter ws we ds';
      Returns (if keep then d :: rest else rest)
  end.

(** The body of [for (const d of allData)]. *)
Definition cost_step (win : option (string * string)) (totalCost : Q) (d : DataPoint)
  : outcome Q :=
  let cost := or0 (cost_gross d) in
  match Qeq_bool cost 0, truthy (period_start d) with
  | false, Some start =>
      do months <- getMonthsBetween start (default start (truthy (period_end d)));
      match win with
      | Some (ws, we) =>
          let monthsInWindow := List.filter (in_window ws we) months in
          Returns (totalCost
                   + perMonth cost months * inject_Z (Z.of_nat (length monthsInWindow)))%Q
      | None => Returns (totalCost + cost)%Q
      end
  | _, _ => Returns totalCost
  end.

Fixpoint cost_loop (win : option (string * string)) (ds : list DataPoint) (totalCost : Q)
  : outcome Q :=
  match ds with
  | [] => Returns totalCost
  | d :: ds' => do t <- cost_step win totalCost d; cost_loop win ds' t
  end.

(** The end of the loop body: the last two records by start date, the trend
    and the card.  [lastRecord.cost_gross] throws when [allData] is empty. *)
Definition summarize (provider : string) (cfg : ProviderCfg) (allData : list DataPoint)
    (totalCost : Q) : completion Summary :=
  let sorted := sort_by (fun d => default EmptyString (truthy (period_start d))) allData in
  let len := Z.of_nat (length sorted) in
  let lastRecord := elem sorted (len - 1) in
  let prevRecord := if 1 <? len then elem sorted (len - 2) else None in
  match lastRecord with
  | None => TypeError
  | Some lastRecord =>
      let costTrend :=
        match prevRecord with
        | Some prevRecord =>
            match nonzero (cost_gross lastRecord), nonzero (cost_gross prevRecord) with
            | Some l, Some p => Some (toFixed0 ((l - p) / p * 100)%Q)
            | _, _ => None
            end
        | None => None
        end in
      Normal {| s_key := provider; s_label := cfg_label cfg; s_icon := cfg_icon cfg;
                s_color := cfg_color cfg; s_totalCost := totalCost;
                s_records := length allData; s_lastCost := cost_gross lastRecord;
                s_costTrend := costTrend |}
  end.

(** The body of [for (const [provider, provSeries] of Object.entries(byProvider))];
    [Normal None] is [continue]. *)
Definition card (win : option (string * string)) (provider : string) (provSeries : list Series)
  : outcome (completion (option Summary)) :=
  match dict_get PROVIDER_CONFIG provider with
  | None => Returns (Normal None)
  | Some cfg =>
      match flat_map (fun s => List.filter (fun d => negb (is_estimate d)) (data s)) provSeries with
      | [] => Returns (Normal None)
      | allData =>
          do allData <- match win with
                        | Some (ws, we) => window_filter ws we allData
                        | None => Returns allData
                        end;
          do totalCost <- cost_loop win allData 0%Q;
          Returns (match summarize provider cfg allData totalCost with
                   | Normal s => Normal (Some s)
                   | TypeError => TypeError
                   end)
      end
  end.

Fixpoint cards_loop (win : option (string * string)) (entries : dict (list Series))
    (summaries : list Summary) : outcome (completion (list Summary)) :=
  match entries with
  | [] => Returns (Normal summaries)
  | (provider, provSeries) :: entries' =>
      do c <- card win provider provSeries;
      match c with
      | TypeError => Returns TypeError
      | Normal None => cards_loop win entries' summaries
      | Normal (Some s) => cards_loop win entries' (summaries ++ [s])
      end
  end.

(** [SummaryCards({ series, windowStart, windowEnd })], up to the list of
    cards that it renders: [None] is the [null] that it returns when there
    is no card.  The entries of [byProvider] are visited in insertion order;
    a provider name that is an array index would be visited earlier, but it
    has no configuration and is skipped wherever it stands. *)
Definition SummaryCards (series : list Series) (windowStart windowEnd : option string)
  : outcome (completion (option (list Summary))) :=
  let byProvider := fold_left push_series series [] in
  do r <- cards_loop (bounds windowStart windowEnd) byProvider [];
  Returns (match r with
           | TypeError => TypeError
           | Normal [] => Normal None
           | Normal summaries => Normal (Some summaries)
           end).

(** ** The detail charts *)

(** A record and a series as the detail charts read them. *)
Record Reading := {
  rd_period_start : option string;
  rd_cost_gross : option Q;
  rd_is_estimate : bool;
  rd_consumption_kwh : option Q;
  rd_consumption_value : option Q
}.

Record UtilitySeries := {
  us_provider : string;
  us_location : option string;
  us_utility_type : string;
  us_data : list Reading
}.

(** [if (!seriesByUtility[key]) seriesByUtility[key] = [];
    seriesByUtility[key].push(s)], for a utility type that is not named
    like a property inherited from [Object.prototype]. *)
Definition push_utility (seriesByUtility : dict (list UtilitySeries)) (s : UtilitySeries)
  : dict (list UtilitySeries) :=
  let key := us_utility_type s in
  dict_alter (fun l => l ++ [s]) key (dict_ensure key [] seriesByUtility).

Definition seriesByUtility (series : list UtilitySeries) : dict (list UtilitySeries) :=
  fold_left push_utility series [].

(** [[...new Set(l)]]: the distinct elements, in the order of their first
    occurrence. *)
Definition first_seen (l : list string) : list string :=
  fold_left (fun acc x => if existsb (String.eqb x) acc then acc else acc ++ [x]) l [].

(** The number of bytes of the white-space character (of the class [\s]) at
    the head of a text, 0 when the text starts otherwise.  The class holds
    U+0009 to U+000D, U+0020, U+00A0, U+1680, U+2000 to U+200A, U+2028,
    U+2029, U+202F, U+205F, U+3000 and U+FEFF; a character outside ASCII is
    the sequence of the bytes of its UTF-8 encoding. *)
Definition space_bytes (s : string) : nat :=
  let byte c := Z.of_N (N_of_ascii c) in
  match s with
  | EmptyString => 0%nat
  | String c1 r1 =>
      let b1 := byte c1 in
      if ((9 <=? b1) && (b1 <=? 13)) || (b1 =? 32) then 1%nat
      else match r1 with
           | EmptyString => 0%nat
           | String c2 r2 =>
               let b2 := byte c2 in
               if (b1 =? 194) && (b2 =? 160) then 2%nat
               else match r2 with
                    | EmptyString => 0%nat
                    | String c3 _ =>
                        let b3 := byte c3 in
                        if (b1 =? 225) && (b2 =? 154) && (b3 =? 128) then 3%nat
                        else if (b1 =? 226) && (b2 =? 128)
                                && (((128 <=? b3) && (b3 <=? 138))
                                    || (b3 =? 168) || (b3 =? 169) || (b3 =? 175)) then 3%nat
                        else if (b1 =? 226) && (b2 =? 129) && (b3 =? 159) then 3%nat
                        else if (b1 =? 227) && (b2 =? 128) && (b3 =? 128) then 3%nat
                        else if (b1 =? 239) && (b2 =? 187) && (b3 =? 191) then 3%nat
                        else 0%nat
                    end
           end
  end.

(** [s.replace(/\s+/g, '_')]: every maximal run of white space becomes one
    underscore.  [skip] counts the bytes that remain of the white-space
    character being read, [in_run] tells whether the run already has its
    underscore. *)
Fixpoint underscore_spaces (skip : nat) (in_run : bool) (s : string) : string :=
  match s with
  | EmptyString => EmptyString
  | String c r =>
      match skip with
      | S k => underscore_spaces k in_run r
      | O =>
          match space_bytes s with
          | O => String c (underscore_spaces 0 false r)
          | S k =>
              if in_run then underscore_spaces k true r
              else String "_" (underscore_spaces k true r)
          end
      end
  end.

(** [(s.location || 'unknown').replace(/\s+/g, '_')]. *)
Definition locKey (s : UtilitySeries) : string :=
  underscore_spaces 0 false (default "unknown" (truthy (us_location s))).

(** [a || b] on numeric properties. *)
Definition or_else (a b : option Q) : option Q :=
  match nonzero a with
  | Some _ => a
  | None => b
  end.

(** A point of a detail chart: its [period] and its other properties. *)
Record ChartPoint := { cp_period : string; cp_fields : gmap string (option Q) }.

(** The time-window test on the start month of a record. *)
Definition in_view (windowMonths : Z) (windowStart windowEnd : option string) (key : string)
  : bool :=
  match 0 <? windowMonths, truthy windowStart, truthy windowEnd with
  | true, Some ws, Some we =>
      match toYearMonth key with
      | Some ym => negb (str_lt ym ws || str_lt we ym)
      | None => true
      end
  | _, _, _ => true
  end.

(** The two assignments to the point of a period. *)
Definition set_fields (loc : string) (d : Reading) (pt : ChartPoint) : ChartPoint :=
  {| cp_period := cp_period pt;
     cp_fields :=
       <[ "kwh_" +:+ loc := or_else (rd_consumption_kwh d) (rd_consumption_value d) ]>
         (<[ "cost_" +:+ loc := rd_cost_gross d ]> (cp_fields pt)) |}.

(** The body of [for (const d of s.data)] in [UtilityCharts], for a start
    date that is not named like a property inherited from
    [Object.prototype] (dates are not). *)
Definition reading_step (windowMonths : Z) (windowStart windowEnd : option string)
    (s : UtilitySeries) (periodMap : dict ChartPoint) (d : Reading) : dict ChartPoint :=
  if rd_is_estimate d then periodMap else
  match truthy (rd_period_start d) with
  | None => periodMap
  | Some key =>
      if in_view windowMonths windowStart windowEnd key then
        dict_alter (set_fields (locKey s) d) key
          (dict_ensure key {| cp_period := key; cp_fields := ∅ |} periodMap)
      else periodMap
  end.

Definition periodMap (windowMonths : Z) (windowStart windowEnd : option string)
    (seriesList : list UtilitySeries) : dict ChartPoint :=
  fold_left (fun pm s => fold_left (reading_step windowMonths windowStart windowEnd s)
                           (us_data s) pm)
            seriesList [].

(** [chartPoints]. *)
Definition chartPoints (windowMonths : Z) (windowStart windowEnd : option string)
    (seriesList : list UtilitySeries) : list ChartPoint :=
  sort_by cp_period (dict_values (periodMap windowMonths windowStart windowEnd seriesList)).

(** [allLocations] and [locColors]. *)
Definition allLocations (seriesList : list UtilitySeries) : list string :=
  first_seen (omap (fun s => truthy (us_location s)) seriesList).

Definition chart_cfg (seriesList : list UtilitySeries) : ProviderCfg :=
  match seriesList with
  | s :: _ => default PROVIDER_CONFIG_eon (dict_get PROVIDER_CONFIG (us_provider s))
  | [] => PROVIDER_CONFIG_eon
  end.

Definition locColors (seriesList : list UtilitySeries) : list string :=
  let c := cfg_color (chart_cfg seriesList) in
  if (1 <? length (allLocations seriesList))%nat then [c; c +:+ "99"] else [c].

(** The colour of the bar and of the line of the location at index [i]:
    [locColors[i % locColors.length]]. *)
Definition loc_color (seriesList : list UtilitySeries) (i : nat) : string :=
  let colors := locColors seriesList in
  nth (i mod length colors) colors "undefined".

(** [y.slice(2)] on text whose first two characters are ASCII. *)
Definition slice2 (s : string) : string :=
  match s with
  | String _ (String _ r) => r
  | _ => EmptyString
  end.

(** [formatPeriod(period)] of the detail charts. *)
Definition formatPeriod (period : option string) : string :=
  match truthy period with
  | None => ""
  | Some period =>
      let parts := split period in
      at_index MONTHS_PL (parseInt (piece parts 1)) +:+ " " +:+ slice2 (piece parts 0)
  end.

(** * The file manager *)

(** A model of [frontend/src/components/FileManager.jsx]. *)

(** [x.toFixed(1)], for [|x| < 10^21]: the sign of a negative [x]; the
    integer [n] nearest to [10 |x|], a tie going to the larger one; the
    digits of [n] with a point before the last one. *)
Definition toFixed1 (x : Q) : string :=
  let body (y : Q) :=
    let n := Math_round (y * 10) in
    nat_digits (n / 10) +:+ "." +:+ nat_digits (n mod 10) in
  if Qle_bool 0 x then body x else "-" +:+ body (- x)%Q.

(** [formatSize(bytes)] for a size that is an integer, or absent ([None],
    which divides to [NaN]).  Dividing an integer below 2^53 by 1024 or by
    1024 * 1024 is exact in floating point. *)
Definition formatSize (bytes : jsnum) : string :=
  match bytes with
  | None => "NaN MB"
  | Some b =>
      if b <? 1024 then numToStr (Some b) +:+ " B"
      else if b <? 1024 * 1024 then toFixed1 (inject_Z b / 1024) +:+ " KB"
      else toFixed1 (inject_Z b / (1024 * 1024)) +:+ " MB"
  end.

(** [s.split(sep)] for a separator of one character: never empty. *)
Fixpoint split_at (sep : ascii) (s : string) : string * list string :=
  match s with
  | EmptyString => (EmptyString, [])
  | String c s' =>
      let '(hd, tl) := split_at sep s' in
      if Ascii.eqb c sep then (EmptyString, hd :: tl) else (String c hd, tl)
  end.

Definition split_on (sep : ascii) (s : string) : list string :=
  let '(hd, tl) := split_at sep s in hd :: tl.

(** [path.split('/').pop()], the file name shown for a result. *)
Definition fileName (path : string) : string :=
  List.last (split_on "/" path) "undefined".

(** The status of a file in [processing]. *)
Inductive Status := Loading | Done | Failed.

(** What [processFile] answers: a result, or an error with its message. *)
Inductive Answer (R : Type) : Type :=
  | Result (r : R)
  | Error (message : string).
Arguments Result {R} r.
Arguments Error {R} message.

(** The state that processing changes: [processing], [results], and the
    number of calls of [onDataChanged]. *)
Record Files (R : Type) := {
  processing : gmap string Status;
  results : gmap string (Answer R);
  dataChanged : Z
}.
Arguments processing {R} _.
Arguments results {R} _.
Arguments dataChanged {R} _.

(** [handleProcess(filepath)], from the call to the state it leaves when
    [processFile] has answered. *)
Definition handleProcess {R : Type} (filepath : string) (answer : Answer R) (st : Files R)
  : Files R :=
  let loading := <[filepath := Loading]> (processing st) in
  match answer with
  | Result r =>
      {| processing := <[filepath := Done]> loading;
         results := <[filepath := Result r]> (results st);
         dataChanged := dataChanged st + 1 |}
  | Error message =>
      {| processing := <[filepath := Failed]> loading;
         results := <[filepath := Error message]> (results st);
         dataChanged := dataChanged st |}
  end.

(** [handleProcessAll()].  The test reads the [processing] of the render in
    which the handler was created ([seen]); [processFile n path] is the
    answer to the [n]-th request. *)
Fixpoint processAll {R : Type} (processFile : nat -> string -> Answer R)
    (seen : gmap string Status) (files : list string) (n : nat) (st : Files R)
  : nat * Files R :=
  match files with
  | [] => (n, st)
  | path :: files' =>
      match seen !! path with
      | Some Done => processAll processFile seen files' n st
      | _ =>
          processAll processFile seen files' (S n)
            (handleProcess path (processFile n path) st)
      end
  end.

Definition handleProcessAll {R : Type} (processFile : nat -> string -> Answer R)
    (files : list string) (st : Files R) : nat * Files R :=
  processAll processFile (processing st) files 0 st.


(** * The quarter roll-up on JavaScript values *)

(** [aggregateToQuarters] once more, on the values that the program
    computes with: a property of a row is a number (an IEEE 754 double, with
    the arithmetic of the machine) or a string.  Other values (booleans,
    objects, [null]) and property names inherited from [Object.prototype]
    are not modelled. *)
Inductive jsval :=
  | Num (x : float)
  | Str (s : string).

(** A row object: its label ([month] of a month row, [period] of a quarter
    row) and its other own properties, in insertion order. *)
Record JsRow := { label : string; fields : dict jsval }.

(** [d[k] = v]. *)
Definition dict_set {V : Type} (k : string) (v : V) (d : dict V) : dict V :=
  dict_alter (fun _ => v) k (dict_ensure k v d).

Section Doubles.
(** [String(x)] of a number; it is used when [+] meets a string. *)
Variable numberToString : float -> string.

(** [v || 0]: 0, -0, [NaN], the empty string and [undefined] are falsy. *)
Definition or0_js (v : option jsval) : jsval :=
  match v with
  | Some (Num x) => if PrimFloat.eqb x 0 || PrimFloat.is_nan x then Num 0 else Num x
  | Some (Str EmptyString) => Num 0
  | Some (Str s) => Str s
  | None => Num 0
  end.

(** [a + b]: the sum of two numbers, the concatenation when either operand
    is a string. *)
Definition plus_js (a b : jsval) : jsval :=
  match a, b with
  | Num x, Num y => Num (x + y)
  | Num x, Str t => Str (numberToString x +:+ t)
  | Str s, Num y => Str (s +:+ numberToString y)
  | Str s, Str t => Str (s +:+ t)
  end.

(** The inner loop of [aggregateToQuarters] over [Object.keys(row)]. *)
Definition add_row_js (row : JsRow) (q : JsRow) : JsRow :=
  {| label := label q;
     fields := fold_left (fun acc kv =>
                 let key := fst kv in
                 if String.eqb key "month" || String.eqb key "period" then acc
                 else dict_set key (plus_js (or0_js (dict_get acc key))
                                            (or0_js (Some (snd kv)))) acc)
               (fields row) (fields q) |}.

Definition quarter_step_js (quarters : dict JsRow) (row : JsRow) : dict JsRow :=
  let qKey := toQuarter (label row) in
  dict_alter (add_row_js row) qKey (dict_ensure qKey {| label := qKey; fields := [] |} quarters).

(** [aggregateToQuarters(monthlyData)] on JavaScript values. *)
Definition aggregateToQuarters_js (monthlyData : list JsRow) : list JsRow :=
  sort_by label (dict_values (fold_left quarter_step_js monthlyData [])).
End Doubles.
(** * Vocabulary of the further properties *)

(** ** Billed amounts *)

(** The records that the allocator spreads over months when their cost is
    not 0: not an estimate, with a start date. *)
Definition dated (d : DataPoint) : bool :=
  negb (is_estimate d) && negb (absent (period_start d)).

(** The amount billed by provider [p]: the costs of the dated records of
    its series. *)
Definition billed (p : string) (ss : list Series) : Q :=
  Qsum (map (fun d => or0 (cost_gross d))
            (List.filter dated
               (flat_map data (List.filter (fun s => String.eqb (provider s) p) ss)))).

(** The months of a window, by index: from [lo] to [hi]. *)
Definition between (lo hi i : Z) : bool := (lo <=? i) && (i <=? hi).

(** The contributions made by provider [p]. *)
Definition of_provider (p : string) (e : event) : bool := String.eqb (ev_provider e) p.

(** The index of the month that a key "YYYY-MM" denotes (0 for text that is
    not a key). *)
Definition key_index (k : string) : Z :=
  match num_piece (split k) 0, num_piece (split k) 1 with
  | Some y, Some m => month_index y m
  | _, _ => 0
  end.

(** ** Labels *)

(** The name of month [m] in [MONTHS_PL]. *)
Definition month_name (m : Z) : string := at_index MONTHS_PL (Some m).

(** Text without a blank. *)
Fixpoint no_blank (s : string) : bool :=
  match s with
  | EmptyString => true
  | String c s' => negb (Ascii.eqb c " ") && no_blank s'
  end.

(** ** Summary cards *)

(** The months that the period of a record covers (none without a start
    date). *)
Definition months_of (d : DataPoint) : list (option string) :=
  match truthy (period_start d) with
  | Some start =>
      match getMonthsBetween start (default start (truthy (period_end d))) with
      | Returns months => months
      | Diverges => []
      end
  | None => []
  end.

(** A record with a month in the window. *)
Definition touches (ws we : string) (d : DataPoint) : bool :=
  existsb (in_window ws we) (months_of d).

(** The series of provider [p], and its records that are not estimates, in
    the order of the series. *)
Definition same_provider (p : string) (s : Series) : bool := String.eqb (provider s) p.

Definition records_of (p : string) (ss : list Series) : list DataPoint :=
  flat_map (fun s => List.filter (fun d => negb (is_estimate d)) (data s))
           (List.filter (same_provider p) ss).

(** Those of them that a card counts: all without a window, else the ones
    with a month in it. *)
Definition counted (win : option (string * string)) (p : string) (ss : list Series)
  : list DataPoint :=
  match win with
  | Some (ws, we) => List.filter (touches ws we) (records_of p ss)
  | None => records_of p ss
  end.

(** A contribution to a month of the window (to any month without one). *)
Definition event_in (win : option (string * string)) (e : event) : bool :=
  match win with
  | Some (ws, we) => in_window ws we (Some (ev_key e))
  | None => true
  end.


(** A timeline of three years for two providers, the second one billing
    since November 2024 only. *)
Definition cd_paging : ChartData :=
  {| series :=
       [ {| provider := "eon";
            data := [ bill "2022-01-01" "2022-01-31" 100; bill "2024-12-01" "2024-12-31" 120 ] |};
         {| provider := "mpwik"; data := [ bill "2024-11-01" "2024-12-31" 60 ] |} ] |}.

(** The total that the cost loop of a card computes, and the outcome of the
    loop body for provider [p], when every month list is finite. *)
Definition card_total (win : option (string * string)) (p : string) (ss : list Series) : Q :=
  match cost_loop win (counted win p ss) 0%Q with
  | Returns t => t
  | Diverges => 0%Q
  end.

Definition card_result (win : option (string * string)) (p : string) (ss : list Series)
  : completion (option Summary) :=
  match dict_get PROVIDER_CONFIG p with
  | None => Normal None
  | Some cfg =>
      match records_of p ss with
      | [] => Normal None
      | _ =>
          match summarize p cfg (counted win p ss) (card_total win p ss) with
          | Normal s => Normal (Some s)
          | TypeError => TypeError
          end
      end
  end.

Definition thrown {A : Type} (c : completion A) : bool :=
  match c with TypeError => true | Normal _ => false end.

Definition card_of (c : completion (option Summary)) : option Summary :=
  match c with Normal o => o | TypeError => None end.

Definition sample_paging : list Row :=
  Eval vm_compute in
    match allMonthly integer_text (Some cd_paging) with
    | Returns rows => rows
    | Diverges => []
    end.

(** A provider with a record that is not an estimate. *)
Definition has_records (p : string) (ss : list Series) : bool :=
  match records_of p ss with [] => false | _ :: _ => true end.

(** ** Detail charts *)

(** A reading that the detail chart plots: the period it is plotted at, the
    location key of its series, and the record. *)
Record Plot := { pl_key : string; pl_loc : string; pl_reading : Reading }.

(** The reading of a series, if the loop plots it. *)
Definition plot_of (windowMonths : Z) (windowStart windowEnd : option string)
    (s : UtilitySeries) (d : Reading) : option Plot :=
  if rd_is_estimate d then None else
  match truthy (rd_period_start d) with
  | Some key =>
      if in_view windowMonths windowStart windowEnd key
      then Some {| pl_key := key; pl_loc := locKey s; pl_reading := d |}
      else None
  | None => None
  end.

(** The plotted readings, in the order of the loops. *)
Definition plotted (windowMonths : Z) (windowStart windowEnd : option string)
    (seriesList : list UtilitySeries) : list Plot :=
  flat_map (fun s => omap (plot_of windowMonths windowStart windowEnd s) (us_data s)) seriesList.

Definition plot_step (pm : dict ChartPoint) (e : Plot) : dict ChartPoint :=
  dict_alter (set_fields (pl_loc e) (pl_reading e)) (pl_key e)
    (dict_ensure (pl_key e) {| cp_period := pl_key e; cp_fields := ∅ |} pm).

(** The last element of a list that satisfies a test. *)
Definition last_such {A : Type} (f : A -> bool) (l : list A) : option A :=
  fold_left (fun acc x => if f x then Some x else acc) l None.

Definition plotted_at (k loc : string) (e : Plot) : bool :=
  String.eqb (pl_key e) k && String.eqb (pl_loc e) loc.

(** What the loops leave in [periodMap]. *)
Record points_of (P : list Plot) (pm : dict ChartPoint) : Prop := {
  po_nodup : List.NoDup (map fst pm);
  po_keys : forall k, dict_get pm k <> None <-> In k (map pl_key P);
  po_points : forall k pt, dict_get pm k = Some pt ->
    cp_period pt = k /\
    forall loc,
      cp_fields pt !! ("cost_" +:+ loc)
      = option_map (fun e => rd_cost_gross (pl_reading e)) (last_such (plotted_at k loc) P) /\
      cp_fields pt !! ("kwh_" +:+ loc)
      = option_map (fun e => or_else (rd_consumption_kwh (pl_reading e))
                                     (rd_consumption_value (pl_reading e)))
                   (last_such (plotted_at k loc) P)
}.

(** Two bills of one location for the same period: a bill and the bill that
    corrects it. *)
Definition detail_sample : list UtilitySeries :=
  [ {| us_provider := "eon"; us_location := Some "Płatnicza 65";
       us_utility_type := "electricity";
       us_data :=
         [ {| rd_period_start := Some "2024-03-01"; rd_cost_gross := Some 10%Q;
              rd_is_estimate := false; rd_consumption_kwh := Some 40%Q;
              rd_consumption_value := None |};
           {| rd_period_start := Some "2024-03-01"; rd_cost_gross := Some 25%Q;
              rd_is_estimate := false; rd_consumption_kwh := Some 90%Q;
              rd_consumption_value := None |} ] |} ].


(** ** Grouping *)

(** The grouping step of the two loops that group series, for a key. *)
Definition push_by {A : Type} (key : A -> string) (g : dict (list A)) (x : A) : dict (list A) :=
  dict_alter (fun l => l ++ [x]) (key x) (dict_ensure (key x) [] g).

Definition same_utility (k : string) (s : UtilitySeries) : bool :=
  String.eqb (us_utility_type s) k.

(** ** Files *)

(** Text without a slash. *)
Fixpoint no_slash (s : string) : bool :=
  match s with
  | EmptyString => true
  | String c s' => negb (Ascii.eqb c "/") && no_slash s'
  end.

(** The tenths that [formatSize] shows for [b] bytes in a unit of [unit]
    bytes: the integer nearest to [10 b / unit], a tie going up. *)
Definition tenths (b unit : Z) : Z := (20 * b + unit) / (2 * unit).

(** A file whose status and result agree: done with a result, or failed
    with an error message. *)
Definition settled {R : Type} (st : Files R) (path : string) : Prop :=
  (processing st !! path = Some Done /\ exists r, results st !! path = Some (Result r)) \/
  (processing st !! path = Some Failed /\ exists m, results st !! path = Some (Error m)).

(** The files that [handleProcessAll] sends to the server. *)
Definition pending (seen : gmap string Status) (files : list string) : list string :=
  List.filter (fun path => match seen !! path with Some Done => false | _ => true end) files.

(** ** Quarters *)

(** The key "YYYY-Qn" of a quarter. *)
Definition quarter_text (y q : Z) : string := four_digits y +:+ "-Q" +:+ nat_digits q.


(** ** The table of the allocator *)

(** The value that the table holds for month [k] and provider [p], 0 when
    there is none. *)
Definition stored (providerMonths : dict Row) (k p : string) : Q :=
  match dict_get providerMonths k with
  | Some row => val0 (vals row) p
  | None => 0%Q
  end.

(** How often the month [k] is listed. *)
Definition occurrences (k : string) (months : list (option string)) : nat :=
  length (List.filter (fun ym => match ym with
                                 | Some k' => String.eqb k' k
                                 | None => false
                                 end) months).

(** ** Names and text on which the model is exact *)

(** The property names that every object inherits from [Object.prototype].
    A read of such a property of an object that does not define it finds the
    inherited value, which the dictionaries of the model do not hold. *)
Definition Object_prototype : list string :=
  [ "constructor"; "__proto__"; "hasOwnProperty"; "isPrototypeOf";
    "propertyIsEnumerable"; "toLocaleString"; "toString"; "valueOf";
    "__defineGetter__"; "__defineSetter__"; "__lookupGetter__"; "__lookupSetter__" ].

Definition inherited (k : string) : bool := existsb (String.eqb k) Object_prototype.

(** A run of digits: the keys that [Object.entries] and [Object.values]
    list first, in numeric order, are among these. *)
Definition index_like (k : string) : bool :=
  match k with
  | EmptyString => false
  | _ => all_digits k
  end.

(** A key that a dictionary of the model treats as the program does. *)
Definition plain_key (k : string) : bool := negb (inherited k) && negb (index_like k).

Definition plain_providers (ss : list Series) : bool :=
  forallb (fun s => negb (inherited (provider s))) ss.

(** Text made of decimal digits and hyphens, as the dates "YYYY-MM-DD": on
    such text the collation of [localeCompare] is the code-unit order. *)
Fixpoint digits_and_hyphens (s : string) : bool :=
  match s with
  | EmptyString => true
  | String c s' =>
      (match digit_of_ascii c with Some _ => true | None => Ascii.eqb c "-" end)
      && digits_and_hyphens s'
  end.

Definition plain_date (o : option string) : bool :=
  match o with
  | Some s => digits_and_hyphens s
  | None => true
  end.


(** ** Sums of doubles *)

(** The real number that a finite double denotes. *)
Definition real_value (x : float) : Q :=
  match Prim2SF x with
  | S754_finite s m e =>
      let v := if 0 <=? e then inject_Z (Z.pos m * 2 ^ e) else (Z.pos m # Z.to_pos (2 ^ (- e))) in
      if s then (- v)%Q else v
  | _ => 0%Q
  end.

(** The numbers that the rows hold under key [k]. *)
Definition numbers_of (k : string) (rows : list JsRow) : list float :=
  omap (fun r => match dict_get (fields r) k with
                 | Some (Num x) => Some x
                 | _ => None
                 end) rows.

(** Their sum as real numbers, and as the program would add them up. *)
Definition real_sum (l : list float) : Q := Qsum (map real_value l).

Definition double_sum (l : list float) : float := fold_left PrimFloat.add l 0%float.

(** Three month rows of two quarters, and two month rows of one quarter,
    the first with a text where a number is expected. *)
Definition march_to_may : list JsRow :=
  [ {| label := "2024-03"; fields := [("eon", Num 0.1)] |};
    {| label := "2024-04"; fields := [("eon", Num 0.2)] |};
    {| label := "2024-05"; fields := [("eon", Num 0.7)] |} ]%float.

Definition text_then_number : list JsRow :=
  [ {| label := "2024-01"; fields := [("eon", Str "brak")] |};
    {| label := "2024-02"; fields := [("eon", Num 5)] |} ]%float.

(** The piece [i] of a date text, where there is one, is a run of digits
    that reads as a number of at most 9999. *)
Definition small_piece (s : string) (i : nat) : bool :=
  match nth_error (split s) i with
  | Some t => all_digits t && match Number t with Some z => z <=? 9999 | None => false end
  | None => true
  end.

(** The same conditions on the input of the detail charts and of the two
    grouping loops. *)
Definition plain_readings (seriesList : list UtilitySeries) : bool :=
  forallb (fun s => forallb (fun d => plain_date (rd_period_start d)) (us_data s)) seriesList.

Definition plain_provider_keys (ss : list Series) : bool :=
  forallb (fun s => plain_key (provider s)) ss.

Definition plain_utility_keys (ss : list UtilitySeries) : bool :=
  forallb (fun s => plain_key (us_utility_type s)) ss.

(** Month rows whose month, where the key has one, is a run of digits that
    [parseInt] reads exactly. *)
Definition digit_months (rows : list Row) : bool :=
  forallb (fun r => small_piece (month r) 1) rows.
(** * Lemmas *)

(** ** Records that the allocator skips *)

Section Skipped.

Variable numToString : Q -> string.

Lemma record_step_estimate provider pm d :
  is_estimate d = true -> record_step numToString provider pm d = Returns pm.
Proof. intros H. unfold record_step. now rewrite H. Qed.

Lemma record_step_costless provider pm d :
  costless_or_undated d = true -> record_step numToString provider pm d = Returns pm.
Proof.
  unfold costless_or_undated, absent, record_step. intros H.
  destruct (is_estimate d); [reflexivity|].
  destruct (Qeq_bool (or0 (cost_gross d)) 0); [reflexivity|].
  destruct (truthy (period_start d)); [discriminate|reflexivity].
Qed.

Lemma data_loop_without (P : DataPoint -> bool) provider :
  (forall d pm, P d = true -> record_step numToString provider pm d = Returns pm) ->
  forall ds pm,
    data_loop numToString provider (List.filter (fun d => negb (P d)) ds) pm
    = data_loop numToString provider ds pm.
Proof.
  intros Hskip ds. induction ds as [|d ds IH]; intros pm; [reflexivity|].
  cbn [List.filter data_loop]. destruct (P d) eqn:HP; cbn [negb].
  - rewrite (Hskip d pm HP). cbn [bind]. apply IH.
  - cbn [data_loop]. destruct (record_step numToString provider pm d); cbn [bind]; [apply IH|reflexivity].
Qed.

Lemma series_loop_without (P : DataPoint -> bool) :
  (forall provider d pm, P d = true -> record_step numToString provider pm d = Returns pm) ->
  forall ss pm,
    series_loop numToString
      (map (fun s => {| provider := provider s;
                        data := List.filter (fun d => negb (P d)) (data s) |}) ss) pm
    = series_loop numToString ss pm.
Proof.
  intros Hskip ss. induction ss as [|s ss IH]; intros pm; [reflexivity|].
  cbn [map series_loop provider data].
  rewrite data_loop_without by (intros; now apply Hskip).
  destruct (data_loop numToString (provider s) (data s) pm); cbn [bind]; [apply IH|reflexivity].
Qed.

Lemma allMonthly_without (P : DataPoint -> bool) :
  (forall provider d pm, P d = true -> record_step numToString provider pm d = Returns pm) ->
  forall chartData,
    allMonthly numToString (without P chartData) = allMonthly numToString chartData.
Proof.
  intros Hskip [[ss]|]; [|reflexivity].
  unfold allMonthly, without. cbn [option_map series].
  destruct ss as [|s ss]; [reflexivity|].
  pose proof (series_loop_without P Hskip (s :: ss) []) as H.
  cbn [map] in H |- *. now rewrite H.
Qed.

End Skipped.

(** ** Allocation of one record *)

Lemma getMonthsBetween_nonempty startDate endDate months :
  getMonthsBetween startDate endDate = Returns months -> months <> [].
Proof.
  unfold getMonthsBetween.
  destruct (months_loop _ _ _ _ _ _) as [l|]; cbn [bind]; [|discriminate].
  intros [= <-]. now destruct l.
Qed.

(** The fallback month is [null] only for an empty start date, which the
    allocator never passes on. *)
Lemma getMonthsBetween_no_null startDate endDate months :
  startDate <> EmptyString ->
  getMonthsBetween startDate endDate = Returns months ->
  Forall (fun ym => ym <> None) months.
Proof.
  unfold getMonthsBetween. intros Hne.
  destruct (months_loop _ _ _ _ _ _) as [l|]; cbn [bind]; [|discriminate].
  intros [= <-]. destruct l as [|k l].
  - constructor; [|constructor]. destruct startDate; [contradiction|discriminate].
  - apply List.Forall_forall. intros ym Hin. apply List.in_map_iff in Hin as (x & <- & _). discriminate.
Qed.

Lemma truthy_nonempty o s : truthy o = Some s -> s <> EmptyString.
Proof. destruct o as [[|c t]|]; cbn; congruence. Qed.

Lemma Qsum_repeat {A : Type} (q : Q) (l : list A) :
  (Qsum (map (fun _ => q) l) == inject_Z (Z.of_nat (length l)) * q)%Q.
Proof.
  induction l as [|a l IH]; [cbn; ring|].
  cbn [map Qsum fold_right length]. fold (Qsum (map (fun _ : A => q) l)). rewrite IH.
  rewrite Nat2Z.inj_succ. unfold Z.succ. rewrite inject_Z_plus. ring.
Qed.

Lemma or0_Some_nonzero c : Qeq_bool c 0 = false -> or0 (Some c) = c.
Proof. intros H. cbn. now rewrite H. Qed.

Lemma or0_Qeq c : (or0 (Some c) == c)%Q.
Proof.
  cbn. destruct (Qeq_bool c 0) eqn:H; [|reflexivity].
  apply Qeq_bool_iff in H. now rewrite H.
Qed.

(** ** Sorting and dictionaries *)

Section SortFacts.

Context {A : Type} (key : A -> string).

Lemma insert_by_perm x l : Permutation (insert_by key x l) (x :: l).
Proof.
  induction l as [|y l IH]; [reflexivity|].
  cbn [insert_by]. destruct (localeCompare (key x) (key y)); try reflexivity.
  rewrite IH. apply perm_swap.
Qed.

Lemma sort_by_perm l : Permutation (sort_by key l) l.
Proof.
  induction l as [|x l IH]; [reflexivity|].
  cbn [sort_by foldr]. fold (sort_by key l). rewrite insert_by_perm. now constructor.
Qed.

Lemma sort_by_Forall (P : A -> Prop) l : List.Forall P l -> List.Forall P (sort_by key l).
Proof. intros H. eapply Permutation_Forall; [symmetry; apply sort_by_perm|exact H]. Qed.

Lemma sort_by_In x l : In x (sort_by key l) <-> In x l.
Proof.
  split; apply Permutation_in; [apply sort_by_perm|symmetry; apply sort_by_perm].
Qed.

End SortFacts.

Section DictFacts.

Context {V : Type}.

Implicit Types (d : dict V) (k : string) (v : V).

Lemma dict_get_app d1 d2 k :
  dict_get (d1 ++ d2) k = match dict_get d1 k with Some v => Some v | None => dict_get d2 k end.
Proof.
  induction d1 as [|[k' v'] d1 IH]; [reflexivity|].
  cbn. destruct (String.eqb k' k); [reflexivity|apply IH].
Qed.

Lemma dict_get_ensure d k v k' :
  dict_get (dict_ensure k v d) k'
  = match dict_get d k' with
    | Some x => Some x
    | None => if String.eqb k k' then Some v else None
    end.
Proof.
  unfold dict_ensure. destruct (dict_get d k) as [x|] eqn:Hk.
  - destruct (dict_get d k') eqn:Hk'; [reflexivity|].
    destruct (String.eqb_spec k k'); [congruence|reflexivity].
  - rewrite dict_get_app. destruct (dict_get d k'); [reflexivity|].
    cbn. now destruct (String.eqb k k').
Qed.

Lemma dict_get_alter f d k k' :
  dict_get (dict_alter f k d) k'
  = if String.eqb k k' then option_map f (dict_get d k) else dict_get d k'.
Proof.
  induction d as [|[k0 v0] d IH]; [now destruct (String.eqb k k')|].
  cbn. destruct (String.eqb_spec k0 k) as [->|Hne].
  - cbn. destruct (String.eqb_spec k k'); [reflexivity|reflexivity].
  - cbn. rewrite IH. destruct (String.eqb_spec k k') as [Heq|Hne'].
    + subst k'. destruct (String.eqb_spec k0 k); [contradiction|reflexivity].
    + reflexivity.
Qed.

Lemma dict_alter_keys f k d : map fst (dict_alter f k d) = map fst d.
Proof.
  induction d as [|[k0 v0] d IH]; [reflexivity|].
  cbn. destruct (String.eqb k0 k); cbn; [reflexivity|now rewrite IH].
Qed.

Lemma dict_get_None_keys d k : dict_get d k = None <-> ~ In k (map fst d).
Proof.
  induction d as [|[k0 v0] d IH]; [cbn; tauto|].
  cbn. destruct (String.eqb_spec k0 k) as [->|Hne].
  - split; [discriminate|]. intros H. exfalso. apply H. now left.
  - rewrite IH. tauto.
Qed.

Lemma dict_get_In d k v : dict_get d k = Some v -> In (k, v) d.
Proof.
  induction d as [|[k0 v0] d IH]; [discriminate|].
  cbn. destruct (String.eqb_spec k0 k) as [->|Hne].
  - intros [= ->]. now left.
  - intros H. right. now apply IH.
Qed.

Lemma dict_In_get d k v : List.NoDup (map fst d) -> In (k, v) d -> dict_get d k = Some v.
Proof.
  induction d as [|[k0 v0] d IH]; [intros _ []|].
  cbn. intros Hnd [[= -> ->]|Hin].
  - now rewrite String.eqb_refl.
  - apply List.NoDup_cons_iff in Hnd as [Hnotin Hnd].
    destruct (String.eqb_spec k0 k) as [->|Hne].
    + exfalso. apply Hnotin. apply List.in_map_iff. now exists (k, v).
    + now apply IH.
Qed.

Lemma dict_ensure_keys_NoDup d k v :
  List.NoDup (map fst d) -> List.NoDup (map fst (dict_ensure k v d)).
Proof.
  intros Hnd. unfold dict_ensure. destruct (dict_get d k) eqn:Hk; [exact Hnd|].
  rewrite List.map_app. cbn. apply dict_get_None_keys in Hk.
  apply NoDup_ListNoDup. apply NoDup_app. split; [now apply NoDup_ListNoDup|].
  split; [|apply NoDup_singleton].
  intros x Hx Hx'. apply list_elem_of_singleton in Hx'. subst x.
  apply Hk. now apply list_elem_of_In.
Qed.

Lemma dict_alter_Forall (P : V -> Prop) f k d :
  (forall v, P v -> P (f v)) ->
  List.Forall P (dict_values d) -> List.Forall P (dict_values (dict_alter f k d)).
Proof.
  intros Hf. unfold dict_values. induction d as [|[k0 v0] d IH]; [trivial|].
  cbn. intros H. apply List.Forall_cons_iff in H as [H0 H].
  destruct (String.eqb k0 k); cbn; constructor; auto.
Qed.

Lemma dict_ensure_Forall (P : V -> Prop) k v d :
  P v -> List.Forall P (dict_values d) -> List.Forall P (dict_values (dict_ensure k v d)).
Proof.
  intros Hv H. unfold dict_ensure. destruct (dict_get d k); [exact H|].
  unfold dict_values. rewrite List.map_app. apply List.Forall_app. split; [exact H|].
  cbn. now constructor.
Qed.

End DictFacts.

(** ** Amounts in whole cents *)

Lemma Math_round_int (k : Z) : Math_round (inject_Z k) = k.
Proof.
  unfold Math_round, Qplus, inject_Z, Qfloor. cbn [Qnum Qden].
  change (Z.pos (1 * 2)) with 2. Z.div_mod_to_equations. lia.
Qed.

Lemma round2_comp x y : (x == y)%Q -> round2 x = round2 y.
Proof. intros H. unfold round2, Math_round. now rewrite H. Qed.

Lemma round2_is_cents x : cents (round2 x).
Proof. exists (Math_round (x * 100)). reflexivity. Qed.

Lemma round2_of_cents x : cents x -> (round2 x == x)%Q.
Proof.
  intros [k Hk]. unfold round2.
  assert (Hx : (x * 100 == inject_Z k)%Q) by (rewrite Hk; field).
  assert (Hr : Math_round (x * 100) = k).
  { unfold Math_round. rewrite Hx. apply Math_round_int. }
  rewrite Hr, Hk. reflexivity.
Qed.

Lemma cents_0 : cents 0.
Proof. exists 0. reflexivity. Qed.

Lemma cents_plus x y : cents x -> cents y -> cents (x + y).
Proof.
  intros [a Ha] [b Hb]. exists (a + b). rewrite Ha, Hb, inject_Z_plus. field.
Qed.

Lemma cents_or0 o : (forall v, o = Some v -> cents v) -> cents (or0 o).
Proof.
  intros H. destruct o as [v|]; cbn; [|apply cents_0].
  destruct (Qeq_bool v 0); [apply cents_0|now apply H].
Qed.

Lemma all_cents_lookup m k : all_cents m -> cents (or0 (m !! k)).
Proof. intros H. apply cents_or0. intros v Hv. exact (H k v Hv). Qed.

Lemma all_cents_empty : all_cents ∅.
Proof. intros k v H. now rewrite lookup_empty in H. Qed.

Lemma all_cents_insert m k v : cents v -> all_cents m -> all_cents (<[k:=v]> m).
Proof.
  intros Hv Hm k' v' H. rewrite lookup_insert in H.
  destruct (decide (k = k')); [now inversion H; subst|exact (Hm k' v' H)].
Qed.

Lemma project_cents r : all_cents (vals (project r)).
Proof.
  unfold project, tracked. cbn [vals fold_left].
  repeat apply all_cents_insert; try apply round2_is_cents. apply all_cents_empty.
Qed.

Lemma chart_row_cents r : all_cents (vals r) -> all_cents (qvals (chart_row r)).
Proof.
  intros H. unfold chart_row. cbn.
  destruct (vals r !! "eon"%string) eqn:He, (vals r !! "pgnig"%string) eqn:Hp,
    (vals r !! "mpwik"%string) eqn:Hm;
    repeat apply all_cents_insert; eauto using all_cents_empty.
Qed.

Lemma add_row_cents row q :
  all_cents (vals row) -> all_cents (qvals q) -> all_cents (qvals (add_row row q)).
Proof.
  intros Hrow Hq. unfold add_row. cbn [qvals].
  cut (all_cents (vals row) -> all_cents
         (map_fold (fun key v acc =>
            if String.eqb key "month" || String.eqb key "period" then acc
            else <[key := (or0 (acc !! key) + or0 (Some v))%Q]> acc) (qvals q) (vals row))).
  { intros H. apply H, Hrow. }
  generalize (vals row). clear Hrow. intros m.
  apply (map_fold_weak_ind (fun r m => all_cents m -> all_cents r)).
  - intros _. exact Hq.
  - intros i x m' r Hi IH Hall.
    assert (Hm' : all_cents m').
    { intros k v Hk. apply (Hall k v). rewrite lookup_insert_ne; [exact Hk|congruence]. }
    specialize (IH Hm').
    destruct (String.eqb i "month" || String.eqb i "period"); [exact IH|].
    apply all_cents_insert; [|exact IH].
    apply cents_plus; [now apply all_cents_lookup|].
    apply cents_or0. intros v [= <-]. apply (Hall i x). apply lookup_insert_eq.
Qed.

Lemma quarters_cents rows quarters :
  List.Forall (fun r => all_cents (vals r)) rows ->
  List.Forall (fun q => all_cents (qvals q)) (dict_values quarters) ->
  List.Forall (fun q => all_cents (qvals q)) (dict_values (fold_left quarter_step rows quarters)).
Proof.
  intros Hrows. revert quarters. induction Hrows as [|r rows Hr Hrows IH]; intros quarters Hq.
  - exact Hq.
  - cbn [fold_left]. apply IH. unfold quarter_step.
    apply dict_alter_Forall; [intros q; now apply add_row_cents|].
    apply dict_ensure_Forall; [apply all_cents_empty|exact Hq].
Qed.

Lemma aggregateToQuarters_cents rows :
  List.Forall (fun r => all_cents (vals r)) rows ->
  List.Forall (fun q => all_cents (qvals q)) (aggregateToQuarters rows).
Proof.
  intros H. unfold aggregateToQuarters. apply sort_by_Forall.
  apply quarters_cents; [exact H|constructor].
Qed.

Lemma allMonthly_cents numToString chartData rows :
  allMonthly numToString chartData = Returns rows ->
  List.Forall (fun r => all_cents (vals r)) rows.
Proof.
  unfold allMonthly. destruct chartData as [[ss]|]; [|intros [= <-]; constructor].
  cbn [series]. destruct ss as [|s ss]; [intros [= <-]; constructor|].
  destruct (series_loop numToString (s :: ss) []) as [pm|]; cbn [bind]; [|discriminate].
  intros [= <-]. apply List.Forall_forall. intros r Hin.
  apply List.in_map_iff in Hin as (r0 & <- & _). apply project_cents.
Qed.

Lemma filtered_Forall (P : Row -> Prop) rows windowMonths w :
  List.Forall P rows -> List.Forall P (filtered rows windowMonths w).
Proof.
  intros H. unfold filtered.
  destruct (0 <? windowMonths), (truthy (windowStart w)), (truthy (windowEnd w)); try exact H.
  apply List.Forall_forall. intros r Hin. apply List.filter_In in Hin as [Hin _].
  revert r Hin. now apply List.Forall_forall.
Qed.

Lemma chartRows_cents rows windowMonths w aggregation :
  List.Forall (fun r => all_cents (vals r)) rows ->
  List.Forall (fun q => all_cents (qvals q)) (chartRows rows windowMonths w aggregation).
Proof.
  intros H. unfold chartRows.
  pose proof (filtered_Forall _ rows windowMonths w H) as Hf.
  destruct aggregation.
  - apply List.Forall_forall. intros q Hin. apply List.in_map_iff in Hin as (r & <- & Hr).
    apply chart_row_cents. revert r Hr. now apply List.Forall_forall.
  - now apply aggregateToQuarters_cents.
Qed.

Lemma displayData_chartRows rows windowMonths w aggregation :
  displayData rows windowMonths w aggregation
  = map final_row (chartRows rows windowMonths w aggregation).
Proof.
  destruct rows as [|r rows]; [|reflexivity].
  unfold displayData, chartRows, filtered.
  destruct (0 <? windowMonths), (truthy (windowStart w)), (truthy (windowEnd w)), aggregation;
    reflexivity.
Qed.

(** ** Sums over rows *)

Lemma Qsum_cons x l : Qsum (x :: l) = (x + Qsum l)%Q.
Proof. reflexivity. Qed.

Lemma Qsum_app l1 l2 : (Qsum (l1 ++ l2) == Qsum l1 + Qsum l2)%Q.
Proof.
  induction l1 as [|x l1 IH]; cbn [app].
  - change (Qsum []) with 0%Q. ring.
  - rewrite !Qsum_cons, IH. ring.
Qed.

Lemma Qsum_perm l1 l2 : Permutation l1 l2 -> (Qsum l1 == Qsum l2)%Q.
Proof.
  induction 1 as [|x l l' _ IH|x y l|l l' l'' _ IH1 _ IH2].
  - reflexivity.
  - rewrite !Qsum_cons, IH. reflexivity.
  - rewrite !Qsum_cons. ring.
  - now rewrite IH1.
Qed.

Lemma or0_val0 m k : (or0 (m !! k) == val0 m k)%Q.
Proof.
  unfold val0. destruct (m !! k) as [v|]; [apply or0_Qeq|reflexivity].
Qed.

Lemma column_app k l1 l2 : (column k (l1 ++ l2) == column k l1 + column k l2)%Q.
Proof. unfold column. rewrite List.map_app. apply Qsum_app. Qed.

(** *** One row added to one quarter *)

Lemma add_row_period row q : period (add_row row q) = period q.
Proof. reflexivity. Qed.

Lemma val0_empty k : val0 ∅ k = 0%Q.
Proof. unfold val0. now rewrite lookup_empty. Qed.

Lemma val0_None m k : m !! k = None -> val0 m k = 0%Q.
Proof. unfold val0. now intros ->. Qed.

Lemma val0_insert_eq m k v : val0 (<[k:=v]> m) k = v.
Proof. unfold val0. now rewrite lookup_insert_eq. Qed.

Lemma val0_insert_ne m k k' v : k <> k' -> val0 (<[k:=v]> m) k' = val0 m k'.
Proof. intros H. unfold val0. now rewrite lookup_insert_ne. Qed.

Lemma add_row_val0 row q k :
  k <> "month"%string -> k <> "period"%string ->
  (val0 (qvals (add_row row q)) k == val0 (qvals q) k + val0 (vals row) k)%Q.
Proof.
  intros Hm Hp. unfold add_row. cbn [qvals]. generalize (vals row). intros m.
  apply (map_fold_weak_ind
           (fun r m => (val0 r k == val0 (qvals q) k + val0 m k)%Q)).
  - rewrite val0_empty. ring.
  - intros i x m' r Hi IH.
    destruct (decide (i = k)) as [->|Hne].
    + destruct (String.eqb_spec k "month"); [contradiction|].
      destruct (String.eqb_spec k "period"); [contradiction|]. cbn [orb].
      rewrite !val0_insert_eq, or0_val0, or0_Qeq, IH, (val0_None m' k Hi). ring.
    + rewrite (val0_insert_ne m' i k x Hne).
      destruct (String.eqb i "month" || String.eqb i "period"); [exact IH|].
      now rewrite val0_insert_ne.
Qed.

(** *** The dictionary of quarters *)

Lemma dict_alter_Qsum {V : Type} (g : V -> Q) f k (d : dict V) c :
  (forall v, (g (f v) == g v + c)%Q) ->
  dict_get d k <> None ->
  (Qsum (map g (dict_values (dict_alter f k d))) == Qsum (map g (dict_values d)) + c)%Q.
Proof.
  intros Hf. unfold dict_values. induction d as [|[k0 v0] d IH]; [now intros []|].
  cbn [dict_get dict_alter]. destruct (String.eqb k0 k); intros Hk.
  - cbn [map snd]. rewrite !Qsum_cons, Hf. ring.
  - cbn [map snd]. rewrite !Qsum_cons, IH by exact Hk. ring.
Qed.

Lemma dict_ensure_Qsum {V : Type} (g : V -> Q) k v (d : dict V) :
  (g v == 0)%Q ->
  (Qsum (map g (dict_values (dict_ensure k v d))) == Qsum (map g (dict_values d)))%Q.
Proof.
  intros Hv. unfold dict_ensure. destruct (dict_get d k); [reflexivity|].
  unfold dict_values. rewrite !List.map_app, Qsum_app. cbn [map snd].
  rewrite Qsum_cons. change (Qsum []) with 0%Q. rewrite Hv. ring.
Qed.

Lemma dict_get_ensure_same {V : Type} k v (d : dict V) : dict_get (dict_ensure k v d) k <> None.
Proof.
  rewrite dict_get_ensure. destruct (dict_get d k); [discriminate|].
  now rewrite String.eqb_refl.
Qed.

Lemma quarter_step_qcolumn k quarters row :
  k <> "month"%string -> k <> "period"%string ->
  (qcolumn k (dict_values (quarter_step quarters row))
   == qcolumn k (dict_values quarters) + val0 (vals row) k)%Q.
Proof.
  intros Hm Hp. unfold qcolumn, quarter_step.
  rewrite (dict_alter_Qsum (fun q => val0 (qvals q) k) _ _ _ (val0 (vals row) k)).
  - rewrite dict_ensure_Qsum; [reflexivity|]. cbn [qvals]. now rewrite val0_empty.
  - intros q. now apply add_row_val0.
  - apply dict_get_ensure_same.
Qed.

Lemma quarters_qcolumn k rows quarters :
  k <> "month"%string -> k <> "period"%string ->
  (qcolumn k (dict_values (fold_left quarter_step rows quarters))
   == qcolumn k (dict_values quarters) + column k rows)%Q.
Proof.
  intros Hm Hp. revert quarters. induction rows as [|r rows IH]; intros quarters.
  - cbn [fold_left]. unfold column. cbn [map]. change (Qsum []) with 0%Q. ring.
  - cbn [fold_left]. rewrite IH, quarter_step_qcolumn by assumption.
    unfold column. cbn [map]. rewrite Qsum_cons. ring.
Qed.

Lemma in_quarter_app qKey l1 l2 : in_quarter qKey (l1 ++ l2) = in_quarter qKey l1 ++ in_quarter qKey l2.
Proof. apply List.filter_app. Qed.

Lemma in_quarter_nil qKey rows :
  (forall r, In r rows -> toQuarter (month r) <> qKey) -> in_quarter qKey rows = [].
Proof.
  induction rows as [|r rows IH]; [reflexivity|].
  intros H. cbn. destruct (String.eqb_spec (toQuarter (month r)) qKey) as [Heq|_].
  - exfalso. apply (H r); [now left|exact Heq].
  - apply IH. intros r' Hr'. apply H. now right.
Qed.

Lemma quarters_of_nil : quarters_of [] [].
Proof.
  split.
  - constructor.
  - intros qKey. cbn. split; [congruence|]. intros (r & [] & _).
  - intros qKey q. discriminate.
Qed.

Lemma quarters_of_step rows quarters row :
  quarters_of rows quarters -> quarters_of (rows ++ [row]) (quarter_step quarters row).
Proof.
  intros [Hnd Hkeys Hrows]. unfold quarter_step.
  set (qk0 := toQuarter (month row)).
  set (fresh := {| period := qk0; qvals := ∅ |}).
  assert (Hget : forall qKey,
    dict_get (dict_alter (add_row row) qk0 (dict_ensure qk0 fresh quarters)) qKey
    = if String.eqb qk0 qKey
      then Some (add_row row (default fresh (dict_get quarters qk0)))
      else dict_get quarters qKey).
  { intros qKey. rewrite dict_get_alter, !dict_get_ensure, String.eqb_refl.
    destruct (String.eqb_spec qk0 qKey) as [<-|Hne].
    - now destruct (dict_get quarters qk0).
    - now destruct (dict_get quarters qKey). }
  split.
  - rewrite dict_alter_keys. now apply dict_ensure_keys_NoDup.
  - intros qKey. rewrite Hget. destruct (String.eqb_spec qk0 qKey) as [<-|Hne].
    + split; [|discriminate]. intros _. exists row. split; [|reflexivity].
      apply List.in_or_app. right. now left.
    + rewrite Hkeys. split; intros (r & Hin & Hq).
      * exists r. split; [apply List.in_or_app; now left|exact Hq].
      * apply List.in_app_or in Hin as [Hin|[<-|[]]]; [now exists r|contradiction].
  - intros qKey q. rewrite Hget, in_quarter_app.
    destruct (String.eqb_spec qk0 qKey) as [<-|Hne].
    + intros [= <-]. rewrite add_row_period.
      assert (Hlast : in_quarter qk0 [row] = [row]).
      { unfold in_quarter. cbn. fold qk0. now rewrite String.eqb_refl. }
      rewrite Hlast. destruct (dict_get quarters qk0) as [q0|] eqn:Hq0; cbn [default].
      * destruct (Hrows qk0 q0 Hq0) as [Hper Hval]. split; [exact Hper|].
        intros k Hm Hp. rewrite add_row_val0, column_app, Hval by assumption.
        unfold column at 3. cbn [map]. rewrite Qsum_cons. change (Qsum []) with 0%Q. ring.
      * split; [reflexivity|]. intros k Hm Hp.
        rewrite add_row_val0, column_app by assumption.
        rewrite in_quarter_nil.
        -- unfold fresh at 1. cbn [qvals]. rewrite val0_empty. unfold column.
           cbn [map]. rewrite Qsum_cons. change (Qsum []) with 0%Q. ring.
        -- intros r Hin Hq. apply (proj2 (Hkeys qk0)); [now exists r|exact Hq0].
    + intros Hq. destruct (Hrows qKey q Hq) as [Hper Hval]. split; [exact Hper|].
      intros k Hm Hp. rewrite (Hval k Hm Hp).
      assert (Hlast : in_quarter qKey [row] = []).
      { unfold in_quarter. cbn. fold qk0. now destruct (String.eqb_spec qk0 qKey). }
      rewrite Hlast, List.app_nil_r. reflexivity.
Qed.

Lemma fold_left_snoc_ind {A B : Type} (f : A -> B -> A) (P : list B -> A -> Prop) a :
  P [] a ->
  (forall l x acc, P l acc -> P (l ++ [x]) (f acc x)) ->
  forall l, P l (fold_left f l a).
Proof.
  intros H0 Hstep l. induction l as [|x l IH] using rev_ind; [exact H0|].
  rewrite List.fold_left_app. cbn. now apply Hstep.
Qed.

Lemma quarters_of_fold rows : quarters_of rows (fold_left quarter_step rows []).
Proof.
  apply (fold_left_snoc_ind quarter_step quarters_of).
  - apply quarters_of_nil.
  - intros l x acc. apply quarters_of_step.
Qed.

Lemma dict_values_In {V : Type} (d : dict V) v :
  In v (dict_values d) <-> exists k, In (k, v) d.
Proof.
  unfold dict_values. rewrite List.in_map_iff. split.
  - intros ([k v'] & <- & Hin). now exists k.
  - intros (k & Hin). now exists (k, v).
Qed.

Lemma quarters_periods rows quarters :
  quarters_of rows quarters -> map period (dict_values quarters) = map fst quarters.
Proof.
  intros H. unfold dict_values. rewrite List.map_map. apply List.map_ext_in.
  intros [k q] Hin. cbn. apply (qo_rows _ _ H).
  apply dict_In_get; [apply (qo_nodup _ _ H)|exact Hin].
Qed.

Lemma aggregateToQuarters_In rows q :
  In q (aggregateToQuarters rows) <->
  dict_get (fold_left quarter_step rows []) (period q) = Some q.
Proof.
  pose proof (quarters_of_fold rows) as H.
  unfold aggregateToQuarters. rewrite sort_by_In, dict_values_In. split.
  - intros (k & Hin).
    pose proof (dict_In_get _ _ _ (qo_nodup _ _ H) Hin) as Hget.
    destruct (qo_rows _ _ H k q Hget) as [-> _]. exact Hget.
  - intros Hget. exists (period q). now apply dict_get_In.
Qed.

Lemma aggregateToQuarters_periods rows :
  Permutation (map period (aggregateToQuarters rows))
              (map fst (fold_left quarter_step rows [])).
Proof.
  rewrite <- (quarters_periods rows) by apply quarters_of_fold.
  unfold aggregateToQuarters. apply Permutation_map, sort_by_perm.
Qed.

(** ** Decimal text *)

Lemma digit_cases d : 0 <= d <= 9 ->
  d = 0 \/ d = 1 \/ d = 2 \/ d = 3 \/ d = 4 \/ d = 5 \/ d = 6 \/ d = 7 \/ d = 8 \/ d = 9.
Proof. lia. Qed.

Lemma digit_of_ascii_of_digit d : 0 <= d <= 9 -> digit_of_ascii (ascii_of_digit d) = Some d.
Proof.
  intros H. destruct (digit_cases d H) as [->|[->|[->|[->|[->|[->|[->|[->|[->| ->]]]]]]]]];
    reflexivity.
Qed.

Lemma digit_not_hyphen c d : digit_of_ascii c = Some d -> Ascii.eqb c "-" = false.
Proof.
  intros H. destruct (Ascii.eqb_spec c "-") as [->|]; [discriminate|reflexivity].
Qed.

Lemma append_cons c (a b : string) : String c a +:+ b = String c (a +:+ b).
Proof. reflexivity. Qed.

Lemma append_nil_l (b : string) : EmptyString +:+ b = b.
Proof. reflexivity. Qed.

Lemma append_assoc (a b c : string) : (a +:+ b) +:+ c = a +:+ (b +:+ c).
Proof.
  induction a as [|x a IH]; [reflexivity|]. now rewrite !append_cons, IH.
Qed.

Lemma append_nil_r (a : string) : a +:+ EmptyString = a.
Proof. induction a as [|x a IH]; [reflexivity|]. now rewrite append_cons, IH. Qed.

Lemma all_digits_app a b : all_digits (a +:+ b) = all_digits a && all_digits b.
Proof.
  induction a as [|x a IH]; [reflexivity|]. rewrite append_cons. cbn [all_digits].
  destruct (digit_of_ascii x); [exact IH|reflexivity].
Qed.

(** *** Splitting at hyphens *)

Lemma split_hyphen_digits a t :
  all_digits a = true ->
  split_hyphen (a +:+ t) = (a +:+ fst (split_hyphen t), snd (split_hyphen t)).
Proof.
  induction a as [|x a IH]; cbn [all_digits]; intros H.
  - rewrite !append_nil_l. now destruct (split_hyphen t).
  - destruct (digit_of_ascii x) as [d|] eqn:Hx; [|discriminate].
    rewrite !append_cons. cbn [split_hyphen].
    rewrite (IH H), (digit_not_hyphen x d Hx). reflexivity.
Qed.

Lemma split_digits a : all_digits a = true -> split a = [a].
Proof.
  intros H. unfold split. rewrite <- (append_nil_r a) at 1.
  rewrite split_hyphen_digits by exact H. cbn [split_hyphen fst snd]. now rewrite append_nil_r.
Qed.

Lemma split_digits_hyphen a t :
  all_digits a = true -> split (a +:+ String "-" t) = a :: split t.
Proof.
  intros H. unfold split. rewrite split_hyphen_digits by exact H.
  cbn [split_hyphen]. destruct (split_hyphen t) as [hd tl].
  change (Ascii.eqb "-" "-") with true. cbn [fst snd]. now rewrite append_nil_r.
Qed.

(** *** Reading decimal text *)

Lemma digits_value_snoc s c a :
  digits_value a (s +:+ String c EmptyString)
  = match digits_value a s, digit_of_ascii c with
    | Some v, Some d => Some (10 * v + d)
    | _, _ => None
    end.
Proof.
  revert a. induction s as [|x s IH]; intros a.
  - rewrite append_nil_l. cbn [digits_value]. now destruct (digit_of_ascii c).
  - rewrite append_cons. cbn [digits_value].
    destruct (digit_of_ascii x); [apply IH|now destruct (digit_of_ascii c)].
Qed.

Lemma digits_value_all_digits s a v : digits_value a s = Some v -> all_digits s = true.
Proof.
  revert a. induction s as [|x s IH]; intros a; cbn; [reflexivity|].
  destruct (digit_of_ascii x); [apply IH|discriminate].
Qed.

(** *** Writing decimal text *)

Lemma digits_of_spec fuel : forall n, 0 <= n < 2 ^ Z.of_nat fuel ->
  exists s, (forall acc, digits_of fuel n acc = s +:+ acc) /\ digits_value 0 s = Some n.
Proof.
  induction fuel as [|fuel IH]; intros n Hn.
  - change (2 ^ Z.of_nat 0) with 1 in Hn. assert (n = 0) by lia. subst n.
    exists EmptyString. split; reflexivity.
  - cbn [digits_of]. destruct (Z.ltb_spec n 10) as [Hlt|Hge].
    + exists (String (ascii_of_digit (n mod 10)) EmptyString). split; [reflexivity|].
      cbn. rewrite digit_of_ascii_of_digit by (Z.div_mod_to_equations; lia).
      f_equal. Z.div_mod_to_equations; lia.
    + rewrite Nat2Z.inj_succ, Z.pow_succ_r in Hn by lia.
      destruct (IH (n / 10)) as (s & Hs & Hv).
      { pose proof (Z.pow_pos_nonneg 2 (Z.of_nat fuel)). Z.div_mod_to_equations; lia. }
      exists (s +:+ String (ascii_of_digit (n mod 10)) EmptyString). split.
      * intros acc. rewrite Hs, append_assoc. reflexivity.
      * rewrite digits_value_snoc, Hv.
        rewrite digit_of_ascii_of_digit by (Z.div_mod_to_equations; lia).
        f_equal. Z.div_mod_to_equations; lia.
Qed.

Lemma nat_digits_fuel n : 0 <= n -> 0 <= n < 2 ^ Z.of_nat (S (Z.to_nat (Z.log2 n))).
Proof.
  intros H. split; [exact H|].
  destruct (Z.eq_dec n 0) as [->|Hne]; [reflexivity|].
  rewrite Nat2Z.inj_succ, Z2Nat.id by apply Z.log2_nonneg.
  apply Z.log2_spec. lia.
Qed.

Lemma Number_nat_digits n : 0 <= n -> Number (nat_digits n) = Some n.
Proof.
  intros H. unfold Number, nat_digits.
  destruct (digits_of_spec _ n (nat_digits_fuel n H)) as (s & Hs & Hv).
  now rewrite Hs, append_nil_r.
Qed.

Lemma all_digits_nat_digits n : 0 <= n -> all_digits (nat_digits n) = true.
Proof. intros H. eapply digits_value_all_digits, (Number_nat_digits n H). Qed.

Lemma nat_digits_small n : 0 <= n < 10 -> nat_digits n = String (ascii_of_digit n) EmptyString.
Proof.
  intros H. unfold nat_digits. cbn [digits_of].
  destruct (Z.ltb_spec n 10); [|lia]. now rewrite Z.mod_small by lia.
Qed.

Lemma digits_of_four fuel n :
  1000 <= n <= 9999 -> digits_of (S (S (S (S fuel)))) n EmptyString = four_digits n.
Proof.
  intros H. cbn [digits_of].
  destruct (Z.ltb_spec n 10); [lia|].
  destruct (Z.ltb_spec (n / 10) 10); [Z.div_mod_to_equations; lia|].
  destruct (Z.ltb_spec (n / 10 / 10) 10); [Z.div_mod_to_equations; lia|].
  destruct (Z.ltb_spec (n / 10 / 10 / 10) 10); [|Z.div_mod_to_equations; lia].
  assert (E3 : (n / 10 / 10 / 10) mod 10 = n / 1000) by (Z.div_mod_to_equations; lia).
  assert (E2 : (n / 10 / 10) mod 10 = n / 100 mod 10) by (Z.div_mod_to_equations; lia).
  rewrite E3, E2. reflexivity.
Qed.

Lemma nat_digits_four n : 1000 <= n <= 9999 -> nat_digits n = four_digits n.
Proof.
  intros H. unfold nat_digits.
  assert (Hlog : 9 <= Z.log2 n).
  { change 9 with (Z.log2 512). apply Z.log2_le_mono. lia. }
  destruct (Z.to_nat (Z.log2 n)) as [|[|[|f]]] eqn:E; try lia.
  now apply digits_of_four.
Qed.

Lemma pad_month m : 1 <= m <= 12 -> padStart2 (nat_digits m) = two_digits m.
Proof.
  intros H.
  assert (Hc : m = 1 \/ m = 2 \/ m = 3 \/ m = 4 \/ m = 5 \/ m = 6 \/ m = 7 \/ m = 8 \/ m = 9
               \/ m = 10 \/ m = 11 \/ m = 12) by lia.
  destruct Hc as [->|[->|[->|[->|[->|[->|[->|[->|[->|[->|[->| ->]]]]]]]]]]]; reflexivity.
Qed.

Lemma Number_two_digits m : 0 <= m <= 99 -> Number (two_digits m) = Some m.
Proof.
  intros H. unfold Number, two_digits. cbn [digits_value].
  rewrite !digit_of_ascii_of_digit by (Z.div_mod_to_equations; lia).
  f_equal. Z.div_mod_to_equations; lia.
Qed.

Lemma Number_four_digits y : 0 <= y <= 9999 -> Number (four_digits y) = Some y.
Proof.
  intros H. unfold Number, four_digits. cbn [digits_value].
  rewrite !digit_of_ascii_of_digit by (Z.div_mod_to_equations; lia).
  f_equal. Z.div_mod_to_equations; lia.
Qed.

Lemma all_digits_two_digits m : 0 <= m <= 99 -> all_digits (two_digits m) = true.
Proof. intros H. eapply digits_value_all_digits, (Number_two_digits m H). Qed.

Lemma all_digits_four_digits y : 0 <= y <= 9999 -> all_digits (four_digits y) = true.
Proof. intros H. eapply digits_value_all_digits, (Number_four_digits y H). Qed.

(** The key that the program writes for a month of a four-digit year is the
    zero-padded text "YYYY-MM". *)
Lemma ymKey_text y m :
  1000 <= y <= 9999 -> 1 <= m <= 12 -> ymKey (Some y) (Some m) = ym_text y m.
Proof.
  intros Hy Hm. unfold ymKey, ym_text, numToStr.
  destruct (Z.ltb_spec y 0); [lia|]. destruct (Z.ltb_spec m 0); [lia|].
  now rewrite nat_digits_four, pad_month.
Qed.

(** ** Calendar months *)

Lemma month_of_index_index y m : 1 <= m <= 12 -> month_of_index (month_index y m) = (y, m).
Proof.
  intros H. unfold month_of_index, month_index. f_equal; Z.div_mod_to_equations; lia.
Qed.

Lemma next_month_index i : next_month (month_of_index i) = month_of_index (i + 1).
Proof.
  unfold next_month, month_of_index.
  destruct (Z.leb_spec 12 (i mod 12 + 1)); f_equal; Z.div_mod_to_equations; lia.
Qed.

Lemma months_from_nth n : forall i k d, (k < n)%nat ->
  nth k (months_from n (month_of_index i)) d = month_of_index (i + Z.of_nat k).
Proof.
  induction n as [|n IH]; intros i k d Hk; [lia|].
  cbn [months_from]. destruct k as [|k]; cbn [nth].
  - f_equal. lia.
  - rewrite next_month_index, IH by lia. f_equal. lia.
Qed.

Lemma months_from_length n ym : length (months_from n ym) = n.
Proof. revert ym. induction n as [|n IH]; intros ym; cbn; [reflexivity|now rewrite IH]. Qed.

Lemma last_nth {A : Type} (l : list A) d : List.last l d = nth (length l - 1) l d.
Proof.
  induction l as [|x l IH]; [reflexivity|].
  destruct l as [|y l]; [reflexivity|].
  change (List.last (x :: y :: l) d) with (List.last (y :: l) d). rewrite IH.
  cbn [length Nat.sub]. now rewrite !Nat.sub_0_r.
Qed.


(** *** Reading dates and keys *)

Lemma split_date_text y m rest :
  0 <= y <= 9999 -> 0 <= m <= 99 -> date_tail rest ->
  exists tl, split (date_text y m rest) = four_digits y :: two_digits m :: tl.
Proof.
  intros Hy Hm Hrest. unfold date_text, ym_text.
  rewrite !append_assoc. change ("-" +:+ ?t) with (String "-" t).
  rewrite split_digits_hyphen by now apply all_digits_four_digits.
  destruct Hrest as [->|[r ->]].
  - rewrite append_nil_r, split_digits by now apply all_digits_two_digits. now exists [].
  - rewrite split_digits_hyphen by now apply all_digits_two_digits. now exists (split r).
Qed.

Lemma num_pieces_date_text y m rest :
  0 <= y <= 9999 -> 0 <= m <= 99 -> date_tail rest ->
  num_piece (split (date_text y m rest)) 0 = Some y /\
  num_piece (split (date_text y m rest)) 1 = Some m /\
  piece (split (date_text y m rest)) 0 = four_digits y /\
  piece (split (date_text y m rest)) 1 = two_digits m.
Proof.
  intros Hy Hm Hrest. destruct (split_date_text y m rest Hy Hm Hrest) as [tl ->].
  unfold num_piece, piece. cbn [nth_error nth].
  now rewrite Number_four_digits, Number_two_digits.
Qed.

Lemma date_text_nonempty y m rest : date_text y m rest <> EmptyString.
Proof. discriminate. Qed.

Lemma toYearMonth_date_text y m rest :
  0 <= y <= 9999 -> 0 <= m <= 99 -> date_tail rest ->
  toYearMonth (date_text y m rest) = Some (ym_text y m).
Proof.
  intros Hy Hm Hrest.
  destruct (num_pieces_date_text y m rest Hy Hm Hrest) as (_ & _ & H0 & H1).
  unfold toYearMonth. rewrite H0, H1. reflexivity.
Qed.

Lemma ymKey_nat y m :
  0 <= y -> 1 <= m <= 12 -> ymKey (Some y) (Some m) = nat_digits y +:+ "-" +:+ two_digits m.
Proof.
  intros Hy Hm. unfold ymKey, numToStr.
  destruct (Z.ltb_spec y 0); [lia|]. destruct (Z.ltb_spec m 0); [lia|].
  now rewrite pad_month.
Qed.

Lemma num_pieces_ymKey y m :
  0 <= y -> 1 <= m <= 12 ->
  num_piece (split (ymKey (Some y) (Some m))) 0 = Some y /\
  num_piece (split (ymKey (Some y) (Some m))) 1 = Some m.
Proof.
  intros Hy Hm. rewrite ymKey_nat by assumption.
  change ("-" +:+ ?t) with (String "-" t).
  rewrite split_digits_hyphen by now apply all_digits_nat_digits.
  rewrite split_digits by (apply all_digits_two_digits; lia).
  unfold num_piece. cbn [nth_error].
  rewrite Number_nat_digits by exact Hy. rewrite Number_two_digits by lia. now split.
Qed.

(** *** The loop of [getMonthsBetween] *)

Lemma months_loop_done fuel y m ey em acc :
  1 <= m <= 12 -> 1 <= em <= 12 ->
  12 * (ey - y) + (em - m) + 1 <= 0 ->
  months_loop (S fuel) (Some y) (Some m) (Some ey) (Some em) acc = Returns acc.
Proof.
  intros Hm Hem Hn. cbn [months_loop jslt jseq jsle].
  destruct (Z.ltb_spec y ey); [lia|]. cbn [orb].
  destruct (Z.eqb_spec y ey); [|reflexivity].
  destruct (Z.leb_spec m em); [lia|reflexivity].
Qed.

Lemma months_loop_spec n : forall fuel y m ey em acc,
  1 <= m <= 12 -> 1 <= em <= 12 ->
  Z.of_nat n = 12 * (ey - y) + (em - m) + 1 ->
  (n < fuel)%nat ->
  months_loop fuel (Some y) (Some m) (Some ey) (Some em) acc
  = Returns (acc ++ map key_of_month (months_from n (y, m))).
Proof.
  induction n as [|n IH]; intros fuel y m ey em acc Hm Hem Hn Hfuel.
  - destruct fuel as [|fuel]; [lia|].
    rewrite months_loop_done by lia. cbn. now rewrite List.app_nil_r.
  - destruct fuel as [|fuel]; [lia|].
    cbn [months_loop jslt jseq jsle jsadd option_map months_from map].
    assert (Hcond : (y <? ey) || (y =? ey) && (m <=? em) = true).
    { destruct (Z.ltb_spec y ey); [reflexivity|]. cbn [orb].
      destruct (Z.eqb_spec y ey); [|lia]. destruct (Z.leb_spec m em); [reflexivity|lia]. }
    rewrite Hcond. unfold next_month.
    destruct (Z.ltb_spec 12 (m + 1)); destruct (Z.leb_spec 12 m); try lia.
    + rewrite IH by lia. now rewrite <- List.app_assoc.
    + rewrite IH by lia. now rewrite <- List.app_assoc.
Qed.

Lemma getMonthsBetween_dates sy sm r1 ey em r2 :
  0 <= sy <= 9999 -> 1 <= sm <= 12 -> date_tail r1 ->
  0 <= ey <= 9999 -> 1 <= em <= 12 -> date_tail r2 ->
  getMonthsBetween (date_text sy sm r1) (date_text ey em r2)
  = Returns (if 0 <? month_count sy sm ey em
             then map (fun ym => Some (key_of_month ym))
                      (months_from (Z.to_nat (month_count sy sm ey em)) (sy, sm))
             else [Some (ym_text sy sm)]).
Proof.
  intros Hsy Hsm Hr1 Hey Hem Hr2. unfold month_count.
  destruct (num_pieces_date_text sy sm r1) as (Hs0 & Hs1 & _); [lia|lia|exact Hr1|].
  destruct (num_pieces_date_text ey em r2) as (He0 & He1 & _); [lia|lia|exact Hr2|].
  unfold getMonthsBetween. rewrite Hs0, Hs1, He0, He1.
  set (n := 12 * (ey - sy) + (em - sm) + 1).
  destruct (Z.ltb_spec 0 n) as [Hpos|Hneg].
  - rewrite (months_loop_spec (Z.to_nat n)); [|lia|lia|subst n; lia|unfold months_fuel; subst n; lia].
    cbn [bind app].
    assert (Hrange : exists k, Z.to_nat n = S k) by (exists (Z.to_nat n - 1)%nat; lia).
    destruct Hrange as [k ->]. cbn [months_from map]. now rewrite List.map_map.
  - unfold months_fuel. rewrite months_loop_done by (subst n; lia). cbn [bind].
    now rewrite toYearMonth_date_text by (try lia; assumption).
Qed.

(** ** Month arithmetic of [addMonths] *)

Lemma pair_some_eq (a b c d : Z) : a = c -> b = d -> (Some a, Some b) = (Some c, Some d).
Proof. congruence. Qed.

Lemma carry_years_spec fuel : forall y m,
  m <= 12 \/ (m - 1) / 12 < Z.of_nat fuel ->
  carry_years fuel (Some y) (Some m)
  = if 12 <? m then (Some (y + (m - 1) / 12), Some ((m - 1) mod 12 + 1)) else (Some y, Some m).
Proof.
  induction fuel as [|fuel IH]; intros y m H.
  - cbn [carry_years]. destruct (Z.ltb_spec 12 m); [|reflexivity].
    exfalso. Z.div_mod_to_equations; lia.
  - cbn [carry_years jslt jsadd option_map]. destruct (Z.ltb_spec 12 m); [|reflexivity].
    rewrite IH by (Z.div_mod_to_equations; lia).
    destruct (Z.ltb_spec 12 (m + -12)); apply pair_some_eq; Z.div_mod_to_equations; lia.
Qed.

Lemma borrow_years_spec fuel : forall y m,
  m <= 12 -> 1 <= m \/ - ((m - 1) / 12) <= Z.of_nat fuel ->
  borrow_years fuel (Some y) (Some m)
  = (Some (y + (m - 1) / 12), Some ((m - 1) mod 12 + 1)).
Proof.
  induction fuel as [|fuel IH]; intros y m Hle H.
  - cbn [borrow_years]. apply pair_some_eq; Z.div_mod_to_equations; lia.
  - cbn [borrow_years jslt jsadd option_map]. destruct (Z.ltb_spec m 1).
    + rewrite IH by (Z.div_mod_to_equations; lia).
      apply pair_some_eq; Z.div_mod_to_equations; lia.
    + apply pair_some_eq; Z.div_mod_to_equations; lia.
Qed.

(** On a key that reads as year [y] and month [m], [addMonths] yields the key
    of the month [n] months later (earlier for a negative [n]). *)
Lemma addMonths_spec ym y m n :
  num_piece (split ym) 0 = Some y -> num_piece (split ym) 1 = Some m ->
  addMonths ym n = key_of_index (month_index y m + n).
Proof.
  intros Hy Hm. unfold addMonths. rewrite Hy, Hm. cbn [jsadd option_map].
  rewrite carry_years_spec by (unfold wrap_fuel; Z.div_mod_to_equations; lia).
  assert (Hkey : forall a b, a = (month_index y m + n) / 12 ->
                             b = (month_index y m + n) mod 12 + 1 ->
                             ymKey (Some a) (Some b) = key_of_index (month_index y m + n)).
  { intros a b -> ->. reflexivity. }
  destruct (Z.ltb_spec 12 (m + n)).
  - rewrite borrow_years_spec by (Z.div_mod_to_equations; lia).
    apply Hkey; unfold month_index; Z.div_mod_to_equations; lia.
  - rewrite borrow_years_spec by (unfold wrap_fuel; Z.div_mod_to_equations; lia).
    apply Hkey; unfold month_index; Z.div_mod_to_equations; lia.
Qed.

Lemma addMonths_ym_text y m n :
  0 <= y <= 9999 -> 1 <= m <= 12 ->
  addMonths (ym_text y m) n = key_of_index (month_index y m + n).
Proof.
  intros Hy Hm.
  destruct (num_pieces_date_text y m EmptyString) as (H0 & H1 & _); [lia|lia|now left|].
  unfold date_text in H0, H1. rewrite append_nil_r in H0, H1. now apply addMonths_spec.
Qed.

Lemma addMonths_key_of_index i n :
  0 <= i -> addMonths (key_of_index i) n = key_of_index (i + n).
Proof.
  intros Hi. unfold key_of_index at 1.
  destruct (num_pieces_ymKey (i / 12) (i mod 12 + 1)) as (H0 & H1);
    [Z.div_mod_to_equations; lia|Z.div_mod_to_equations; lia|].
  rewrite (addMonths_spec _ _ _ n H0 H1). f_equal.
  unfold month_index. Z.div_mod_to_equations; lia.
Qed.

Lemma key_of_index_text i :
  month_index 1000 1 <= i <= month_index 9999 12 ->
  key_of_index i = ym_text (i / 12) (i mod 12 + 1).
Proof.
  unfold month_index. intros H. unfold key_of_index.
  apply ymKey_text; Z.div_mod_to_equations; lia.
Qed.

(** ** Order of the keys *)

Lemma ascii_compare_digit a b :
  0 <= a <= 9 -> 0 <= b <= 9 ->
  Ascii.compare (ascii_of_digit a) (ascii_of_digit b) = (a ?= b).
Proof.
  intros Ha Hb.
  destruct (digit_cases a Ha) as [->|[->|[->|[->|[->|[->|[->|[->|[->| ->]]]]]]]]];
  destruct (digit_cases b Hb) as [->|[->|[->|[->|[->|[->|[->|[->|[->| ->]]]]]]]]];
    reflexivity.
Qed.

Lemma compare_cons_digit a b s t :
  0 <= a <= 9 -> 0 <= b <= 9 ->
  String.compare (String (ascii_of_digit a) s) (String (ascii_of_digit b) t)
  = match a ?= b with Eq => String.compare s t | Lt => Lt | Gt => Gt end.
Proof.
  intros Ha Hb. cbn [String.compare]. rewrite ascii_compare_digit by assumption.
  now destruct (a ?= b).
Qed.

(** On zero-padded "YYYY-MM" texts the lexicographic order is the
    chronological order. *)
Lemma compare_ym_text y m y' m' :
  0 <= y <= 9999 -> 1 <= m <= 12 -> 0 <= y' <= 9999 -> 1 <= m' <= 12 ->
  String.compare (ym_text y m) (ym_text y' m') = (month_index y m ?= month_index y' m').
Proof.
  intros Hy Hm Hy' Hm'. unfold ym_text, four_digits, two_digits.
  rewrite !append_cons, !append_nil_l.
  rewrite !compare_cons_digit by (Z.div_mod_to_equations; lia).
  change (String.compare (String "-" ?s) (String "-" ?t)) with (String.compare s t).
  rewrite !compare_cons_digit by (Z.div_mod_to_equations; lia).
  change (String.compare EmptyString EmptyString) with Eq.
  unfold month_index.
  assert (Ey : y = 1000 * (y / 1000) + 100 * (y / 100 mod 10) + 10 * (y / 10 mod 10) + y mod 10)
    by (Z.div_mod_to_equations; lia).
  assert (Ey' : y' = 1000 * (y' / 1000) + 100 * (y' / 100 mod 10) + 10 * (y' / 10 mod 10) + y' mod 10)
    by (Z.div_mod_to_equations; lia).
  assert (Em : m = 10 * (m / 10) + m mod 10) by (Z.div_mod_to_equations; lia).
  assert (Em' : m' = 10 * (m' / 10) + m' mod 10) by (Z.div_mod_to_equations; lia).
  assert (B : 0 <= y / 100 mod 10 <= 9 /\ 0 <= y / 10 mod 10 <= 9 /\ 0 <= y mod 10 <= 9 /\
              0 <= y' / 100 mod 10 <= 9 /\ 0 <= y' / 10 mod 10 <= 9 /\ 0 <= y' mod 10 <= 9 /\
              0 <= m mod 10 <= 9 /\ 0 <= m' mod 10 <= 9)
    by (Z.div_mod_to_equations; lia).
  generalize dependent (y / 1000). generalize dependent (y / 100 mod 10).
  generalize dependent (y / 10 mod 10). generalize dependent (y mod 10).
  generalize dependent (y' / 1000). generalize dependent (y' / 100 mod 10).
  generalize dependent (y' / 10 mod 10). generalize dependent (y' mod 10).
  generalize dependent (m / 10). generalize dependent (m mod 10).
  generalize dependent (m' / 10). generalize dependent (m' mod 10).
  intros.
  repeat match goal with
  | |- context [match ?a ?= ?b with _ => _ end] =>
      destruct (Z.compare_spec a b);
      [subst
      |symmetry; apply Z.compare_lt_iff; lia
      |symmetry; apply Z.compare_gt_iff; lia]
  end.
  symmetry. apply Z.compare_eq_iff. lia.
Qed.

Lemma ym_text_inj y m y' m' :
  0 <= y <= 9999 -> 1 <= m <= 12 -> 0 <= y' <= 9999 -> 1 <= m' <= 12 ->
  ym_text y m = ym_text y' m' -> y = y' /\ m = m'.
Proof.
  intros Hy Hm Hy' Hm' Heq.
  pose proof (compare_ym_text y m y' m' Hy Hm Hy' Hm') as Hc.
  rewrite Heq in Hc.
  assert (Hrefl : String.compare (ym_text y' m') (ym_text y' m') = Eq)
    by now apply String_as_OT.cmp_eq.
  rewrite Hrefl in Hc. symmetry in Hc. apply Z.compare_eq_iff in Hc.
  unfold month_index in Hc. lia.
Qed.

Lemma str_lt_ym_text y m y' m' :
  0 <= y <= 9999 -> 1 <= m <= 12 -> 0 <= y' <= 9999 -> 1 <= m' <= 12 ->
  str_lt (ym_text y m) (ym_text y' m') = (month_index y m <? month_index y' m').
Proof.
  intros. unfold str_lt, String.ltb, Z.ltb. now rewrite compare_ym_text.
Qed.

(** ** Quarter keys *)

Lemma leading_digits_all s : all_digits s = true -> leading_digits s = s.
Proof.
  induction s as [|c s IH]; [reflexivity|]. cbn.
  destruct (digit_of_ascii c); [|discriminate]. intros H. now rewrite IH.
Qed.

Lemma parseInt_two_digits m : 0 <= m <= 99 -> parseInt (two_digits m) = Some m.
Proof.
  intros H. unfold parseInt. rewrite leading_digits_all by now apply all_digits_two_digits.
  exact (Number_two_digits m H).
Qed.

(** The quarter of a well-formed month key: [ceil(month / 3)]. *)
Lemma toQuarter_ym_text y m :
  0 <= y <= 9999 -> 1 <= m <= 12 ->
  toQuarter (ym_text y m) = four_digits y +:+ "-Q" +:+ nat_digits ((m + 2) / 3).
Proof.
  intros Hy Hm.
  destruct (split_date_text y m EmptyString) as [tl Hsplit]; [lia|lia|now left|].
  unfold date_text in Hsplit. rewrite append_nil_r in Hsplit.
  unfold toQuarter. rewrite Hsplit. unfold piece. cbn [nth].
  rewrite parseInt_two_digits by lia.
  cbn [ceil_div3 option_map numToStr].
  replace (- (- m / 3)) with ((m + 2) / 3) by (Z.div_mod_to_equations; lia).
  destruct (Z.ltb_spec ((m + 2) / 3) 0); [Z.div_mod_to_equations; lia|reflexivity].
Qed.

(** ** The contributions behind the table *)

Section Events.

Variable numToString : Q -> string.

Lemma months_fold_events provider q months pm :
  fold_left (month_step numToString provider q) months pm
  = fold_left (apply_event numToString)
      (omap (fun ym => option_map (fun k => (provider, k, q)) ym) months) pm.
Proof.
  revert pm. induction months as [|[k|] months IH]; intros pm; [reflexivity| |].
  - cbn [omap option_map fold_left]. rewrite IH. reflexivity.
  - cbn [omap option_map fold_left month_step]. apply IH.
Qed.

Lemma record_step_events provider pm d :
  record_step numToString provider pm d
  = do es <- record_events provider d; Returns (fold_left (apply_event numToString) es pm).
Proof.
  unfold record_step, record_events.
  destruct (is_estimate d); [reflexivity|].
  destruct (Qeq_bool (or0 (cost_gross d)) 0); [reflexivity|].
  destruct (truthy (period_start d)) as [start|]; [|reflexivity].
  destruct (getMonthsBetween start _) as [months|]; [|reflexivity].
  cbn [bind]. now rewrite months_fold_events.
Qed.

Lemma data_loop_events provider ds : forall pm,
  data_loop numToString provider ds pm
  = do es <- data_events provider ds; Returns (fold_left (apply_event numToString) es pm).
Proof.
  induction ds as [|d ds IH]; intros pm; [reflexivity|].
  cbn [data_loop data_events]. rewrite record_step_events.
  destruct (record_events provider d) as [es|]; [|reflexivity]. cbn [bind].
  rewrite IH. destruct (data_events provider ds) as [rest|]; [|reflexivity].
  cbn [bind]. now rewrite List.fold_left_app.
Qed.

Lemma series_loop_events ss : forall pm,
  series_loop numToString ss pm
  = do es <- contributions ss; Returns (fold_left (apply_event numToString) es pm).
Proof.
  induction ss as [|s ss IH]; intros pm; [reflexivity|].
  cbn [series_loop contributions]. rewrite data_loop_events.
  destruct (data_events (provider s) (data s)) as [es|]; [|reflexivity]. cbn [bind].
  rewrite IH. destruct (contributions ss) as [rest|]; [|reflexivity].
  cbn [bind]. now rewrite List.fold_left_app.
Qed.

Lemma dict_get_upsert {V : Type} (f : V -> V) k0 v0 (d : dict V) k :
  dict_get (dict_alter f k0 (dict_ensure k0 v0 d)) k
  = if String.eqb k0 k then Some (f (default v0 (dict_get d k0))) else dict_get d k.
Proof.
  rewrite dict_get_alter, !dict_get_ensure, String.eqb_refl.
  destruct (String.eqb_spec k0 k) as [<-|Hne].
  - now destruct (dict_get d k0).
  - now destruct (dict_get d k).
Qed.

Lemma slot_snoc E e k p :
  slot (E ++ [e]) k p
  = if matches k p e then Some (or0 (slot E k p) + ev_amount e)%Q else slot E k p.
Proof. unfold slot. now rewrite List.fold_left_app. Qed.

Lemma slot_untouched E k p :
  ~ In k (map ev_key E) -> slot E k p = None.
Proof.
  induction E as [|e E IH] using rev_ind; [reflexivity|].
  intros Hnin. rewrite slot_snoc.
  rewrite List.map_app, List.in_app_iff in Hnin.
  unfold matches. destruct (String.eqb_spec (ev_key e) k) as [Heq|_].
  - exfalso. apply Hnin. right. now left.
  - cbn [andb]. apply IH. tauto.
Qed.

Lemma table_of_nil : table_of [] [].
Proof.
  split.
  - constructor.
  - intros k. cbn. split; [congruence|intros []].
  - intros k row. discriminate.
Qed.

Lemma table_of_step E pm e :
  ev_provider e <> "month" ->
  table_of E pm -> table_of (E ++ [e]) (apply_event numToString pm e).
Proof.
  intros Hprov [Hnd Hkeys Hrows]. unfold apply_event, month_step.
  destruct e as [[p0 k0] q]. cbn [ev_provider ev_key ev_amount fst snd] in *.
  set (fresh := {| month := k0; vals := ∅ |}).
  split.
  - rewrite dict_alter_keys. now apply dict_ensure_keys_NoDup.
  - intros k. rewrite dict_get_upsert, List.map_app, List.in_app_iff. cbn [map ev_key fst snd In].
    destruct (String.eqb_spec k0 k) as [<-|Hne].
    + split; [intros _; right; now left|discriminate].
    + rewrite Hkeys. split; [tauto|]. intros [H|[H|[]]]; [exact H|contradiction].
  - intros k row. rewrite dict_get_upsert.
    destruct (String.eqb_spec k0 k) as [<-|Hne].
    + intros [= <-]. unfold add_cost.
      destruct (String.eqb_spec p0 "month"); [contradiction|]. cbn [month vals].
      assert (Hold : month (default fresh (dict_get pm k0)) = k0 /\
                     forall p, vals (default fresh (dict_get pm k0)) !! p = slot E k0 p).
      { destruct (dict_get pm k0) as [r0|] eqn:Hget; cbn [default].
        - exact (Hrows k0 r0 Hget).
        - split; [reflexivity|]. intros p. cbn [fresh vals]. rewrite lookup_empty.
          symmetry. apply slot_untouched. intros Hin. apply Hkeys in Hin. contradiction. }
      destruct Hold as [Hmonth Hvals]. split; [exact Hmonth|].
      intros p. rewrite slot_snoc. unfold matches. cbn [ev_key ev_provider ev_amount fst snd].
      rewrite String.eqb_refl. cbn [andb].
      destruct (String.eqb_spec p0 p) as [<-|Hp].
      * now rewrite lookup_insert_eq, Hvals.
      * rewrite lookup_insert_ne by exact Hp. apply Hvals.
    + intros Hget. destruct (Hrows k row Hget) as [Hmonth Hvals]. split; [exact Hmonth|].
      intros p. rewrite slot_snoc. unfold matches. cbn [ev_key fst snd].
      destruct (String.eqb_spec k0 k); [contradiction|]. apply Hvals.
Qed.

Lemma table_of_fold E :
  List.Forall (fun e => ev_provider e <> "month") E ->
  table_of E (fold_left (apply_event numToString) E []).
Proof.
  induction E as [|e E IH] using rev_ind; intros H; [apply table_of_nil|].
  rewrite List.fold_left_app. cbn [fold_left].
  apply List.Forall_app in H as [HE He]. apply table_of_step; [|now apply IH].
  now inversion He.
Qed.

End Events.

Lemma slot_amounts E k p : (or0 (slot E k p) == Qsum (amounts E k p))%Q.
Proof.
  induction E as [|e E IH] using rev_ind; [reflexivity|].
  rewrite slot_snoc. unfold amounts. rewrite List.filter_app, List.map_app, Qsum_app.
  fold (amounts E k p). cbn [List.filter]. destruct (matches k p e).
  - rewrite or0_Qeq, IH. cbn [map]. rewrite Qsum_cons. change (Qsum []) with 0%Q. ring.
  - rewrite IH. cbn [map]. change (Qsum []) with 0%Q. ring.
Qed.

(** ** Sorted output *)

Lemma localeCompare_Gt_Lt a b : localeCompare a b = Gt -> localeCompare b a = Lt.
Proof.
  unfold localeCompare. intros H.
  pose proof (String_as_OT.cmp_antisym b a) as Ha. unfold String_as_OT.cmp in Ha.
  rewrite H in Ha. exact Ha.
Qed.

Lemma localeCompare_refl a : localeCompare a a = Eq.
Proof. apply String_as_OT.cmp_eq. reflexivity. Qed.

Lemma localeCompare_Lt_trans a b c :
  localeCompare a b = Lt -> localeCompare b c = Lt -> localeCompare a c = Lt.
Proof.
  unfold localeCompare. intros H1 H2.
  apply String_as_OT.cmp_lt. apply String_as_OT.cmp_lt in H1, H2.
  eapply String_as_OT.lt_trans; eassumption.
Qed.

Lemma localeCompare_le_trans a b c :
  localeCompare a b <> Gt -> localeCompare b c <> Gt -> localeCompare a c <> Gt.
Proof.
  intros H1 H2.
  destruct (localeCompare a b) eqn:Hab; [| |contradiction];
  destruct (localeCompare b c) eqn:Hbc; try contradiction.
  - apply String_as_OT.cmp_eq in Hab, Hbc. subst. now rewrite localeCompare_refl.
  - apply String_as_OT.cmp_eq in Hab. subst. now rewrite Hbc.
  - apply String_as_OT.cmp_eq in Hbc. subst. now rewrite Hab.
  - now rewrite (localeCompare_Lt_trans a b c Hab Hbc).
Qed.

Section SortedFacts.

Context {A : Type} (key : A -> string).

Lemma insert_by_sorted x l :
  StronglySorted (key_le key) l -> StronglySorted (key_le key) (insert_by key x l).
Proof.
  induction l as [|y l IH]; intros Hl.
  - cbn. constructor; constructor.
  - cbn [insert_by]. apply StronglySorted_inv in Hl as [Hl Hy].
    destruct (localeCompare (key x) (key y)) eqn:Hxy.
    + constructor; [now constructor|]. constructor.
      * unfold key_le. now rewrite Hxy.
      * eapply List.Forall_impl; [|exact Hy]. intros z Hz.
        eapply localeCompare_le_trans; [|exact Hz]. now rewrite Hxy.
    + constructor; [now constructor|]. constructor.
      * unfold key_le. now rewrite Hxy.
      * eapply List.Forall_impl; [|exact Hy]. intros z Hz.
        eapply localeCompare_le_trans; [|exact Hz]. now rewrite Hxy.
    + constructor; [now apply IH|].
      eapply Permutation_Forall; [symmetry; apply insert_by_perm|].
      constructor; [|exact Hy].
      unfold key_le. now rewrite (localeCompare_Gt_Lt _ _ Hxy).
Qed.

Lemma sort_by_sorted l : StronglySorted (key_le key) (sort_by key l).
Proof.
  induction l as [|x l IH]; [constructor|].
  cbn [sort_by foldr]. now apply insert_by_sorted.
Qed.

Lemma sorted_strict l :
  StronglySorted (key_le key) l -> List.NoDup (map key l) -> StronglySorted (key_lt key) l.
Proof.
  induction 1 as [|x l Hl IH Hx]; intros Hnd; [constructor|].
  cbn [map] in Hnd. apply List.NoDup_cons_iff in Hnd as [Hnin Hnd].
  constructor; [now apply IH|].
  apply List.Forall_forall. intros z Hz.
  pose proof (proj1 (List.Forall_forall _ _) Hx z Hz) as Hle.
  unfold key_le in Hle. unfold key_lt, str_lt, String.ltb.
  fold (localeCompare (key x) (key z)).
  destruct (localeCompare (key x) (key z)) eqn:Hc; [|reflexivity|contradiction].
  exfalso. apply String_as_OT.cmp_eq in Hc. apply Hnin. rewrite Hc. now apply List.in_map.
Qed.

Lemma sort_by_strict l :
  List.NoDup (map key l) -> StronglySorted (key_lt key) (sort_by key l).
Proof.
  intros Hnd. apply sorted_strict; [apply sort_by_sorted|].
  eapply Permutation_NoDup; [|exact Hnd].
  apply Permutation_map. symmetry. apply sort_by_perm.
Qed.

Lemma key_lt_irrefl a : ~ (key_lt key) a a.
Proof.
  unfold key_lt, str_lt, String.ltb. fold (localeCompare (key a) (key a)).
  now rewrite localeCompare_refl.
Qed.

Lemma key_lt_asym a b : (key_lt key) a b -> (key_lt key) b a -> False.
Proof.
  unfold key_lt, str_lt, String.ltb. fold (localeCompare (key a) (key b)).
  fold (localeCompare (key b) (key a)).
  destruct (localeCompare (key a) (key b)) eqn:H1; try discriminate.
  destruct (localeCompare (key b) (key a)) eqn:H2; try discriminate.
  intros _ _. pose proof (localeCompare_Lt_trans _ _ _ H1 H2) as H.
  now rewrite localeCompare_refl in H.
Qed.

Lemma strict_NoDup l : StronglySorted (key_lt key) l -> List.NoDup l.
Proof.
  induction 1 as [|x l Hl IH Hx]; constructor; [|exact IH].
  intros Hin. apply (key_lt_irrefl x).
  exact (proj1 (List.Forall_forall _ _) Hx x Hin).
Qed.

(** Two strictly ascending lists with the same elements are equal. *)
Lemma strict_sorted_eq l1 l2 :
  StronglySorted (key_lt key) l1 -> StronglySorted (key_lt key) l2 ->
  (forall x, In x l1 <-> In x l2) -> l1 = l2.
Proof.
  intros H1 H2 Hiff.
  apply (StronglySorted_unique_strong (key_lt key)); [|exact H1|exact H2|].
  - intros x1 x2 _ _ Ha Hb. exfalso. exact (key_lt_asym _ _ Ha Hb).
  - apply NoDup_Permutation.
    + apply NoDup_ListNoDup. now apply strict_NoDup.
    + apply NoDup_ListNoDup. now apply strict_NoDup.
    + intros x. rewrite !list_elem_of_In. apply Hiff.
Qed.

Lemma strict_filter (P : A -> bool) l :
  StronglySorted (key_lt key) l -> StronglySorted (key_lt key) (List.filter P l).
Proof.
  induction 1 as [|x l Hl IH Hx]; [constructor|].
  cbn [List.filter]. destruct (P x); [|exact IH].
  constructor; [exact IH|].
  apply List.Forall_forall. intros z Hz. apply List.filter_In in Hz as [Hz _].
  exact (proj1 (List.Forall_forall _ _) Hx z Hz).
Qed.

End SortedFacts.

Lemma strict_map {A B : Type} (f : A -> B) (keyA : A -> string) (keyB : B -> string) l :
  (forall a, keyB (f a) = keyA a) ->
  StronglySorted (key_lt keyA) l -> StronglySorted (key_lt keyB) (map f l).
Proof.
  intros Hkey. induction 1 as [|x l Hl IH Hx]; [constructor|].
  cbn [map]. constructor; [exact IH|].
  apply List.Forall_forall. intros z Hz. apply List.in_map_iff in Hz as (a & <- & Ha).
  unfold key_lt. rewrite !Hkey. exact (proj1 (List.Forall_forall _ _) Hx a Ha).
Qed.

(** ** The timeline as a function of the contributions *)

Section Timeline.

Variable numToString : Q -> string.

Lemma allMonthly_events cd :
  allMonthly numToString (Some cd)
  = do E <- contributions (series cd);
    Returns (rows_of_table (fold_left (apply_event numToString) E [])).
Proof.
  unfold allMonthly. destruct (series cd) as [|s ss] eqn:Hss; [reflexivity|].
  rewrite series_loop_events.
  destruct (contributions (s :: ss)); reflexivity.
Qed.

Lemma project_month r : month (project r) = month r.
Proof. reflexivity. Qed.

Lemma project_vals r p :
  vals (project r) !! p
  = if existsb (String.eqb p) tracked then Some (round2 (or0 (vals r !! p))) else None.
Proof.
  unfold project, tracked. cbn [vals fold_left existsb].
  destruct (String.eqb_spec p "eon") as [->|He];
    [now rewrite lookup_insert_ne, lookup_insert_ne, lookup_insert_eq by discriminate|].
  destruct (String.eqb_spec p "pgnig") as [->|Hp];
    [now rewrite lookup_insert_ne, lookup_insert_eq by discriminate|].
  destruct (String.eqb_spec p "mpwik") as [->|Hm]; [now rewrite lookup_insert_eq|].
  cbn [orb]. rewrite !lookup_insert_ne by congruence. apply lookup_empty.
Qed.

Lemma project_ext r r' :
  month r = month r' ->
  (forall p, existsb (String.eqb p) tracked = true -> vals r !! p = vals r' !! p) ->
  project r = project r'.
Proof.
  intros Hm Hv. unfold project, tracked. cbn [fold_left]. rewrite Hm.
  rewrite !Hv by reflexivity. reflexivity.
Qed.

Section Table.

Variables (E : list event) (pm : dict Row).

Hypothesis Htable : table_of E pm.

Lemma table_months : map month (dict_values pm) = map fst pm.
Proof.
  unfold dict_values. rewrite List.map_map. apply List.map_ext_in.
  intros [k r] Hin. cbn. apply (to_rows _ _ Htable).
  apply dict_In_get; [apply (to_nodup _ _ Htable)|exact Hin].
Qed.

Lemma rows_of_table_sorted : StronglySorted (key_lt month) (rows_of_table pm).
Proof.
  unfold rows_of_table. apply (strict_map project month month); [apply project_month|].
  apply sort_by_strict. rewrite table_months. apply (to_nodup _ _ Htable).
Qed.

Lemma rows_of_table_In row :
  In row (rows_of_table pm) <->
  exists r, dict_get pm (month row) = Some r /\ row = project r.
Proof.
  unfold rows_of_table. rewrite List.in_map_iff. split.
  - intros (r & <- & Hin). apply sort_by_In, dict_values_In in Hin as (k & Hin).
    apply (dict_In_get _ _ _ (to_nodup _ _ Htable)) in Hin.
    destruct (to_rows _ _ Htable k r Hin) as [Hm _].
    exists r. rewrite project_month, Hm. now split.
  - intros (r & Hget & ->). exists r. split; [reflexivity|].
    apply sort_by_In, dict_values_In. exists (month (project r)). now apply dict_get_In.
Qed.

Lemma rows_of_table_keys k :
  In k (map month (rows_of_table pm)) <-> In k (map ev_key E).
Proof.
  rewrite <- (to_keys _ _ Htable). rewrite List.in_map_iff. split.
  - intros (row & <- & Hin). apply rows_of_table_In in Hin as (r & Hget & _). congruence.
  - intros Hget. destruct (dict_get pm k) as [r|] eqn:Hr; [|contradiction].
    destruct (to_rows _ _ Htable k r Hr) as [Hm _].
    exists (project r). split; [exact Hm|].
    apply rows_of_table_In. exists r. rewrite project_month, Hm. now split.
Qed.

Lemma rows_of_table_vals row p :
  In row (rows_of_table pm) ->
  vals row !! p
  = if existsb (String.eqb p) tracked
    then Some (round2 (Qsum (amounts E (month row) p))) else None.
Proof.
  intros Hin. apply rows_of_table_In in Hin as (r & Hget & ->).
  rewrite project_vals. destruct (existsb (String.eqb p) tracked); [|reflexivity].
  rewrite project_month in *.
  destruct (to_rows _ _ Htable _ r Hget) as [_ Hv].
  f_equal. apply round2_comp. rewrite Hv. apply slot_amounts.
Qed.

End Table.

End Timeline.

(** ** Well-formed input *)

Lemma months_from_In n i ym :
  In ym (months_from n (month_of_index i)) ->
  exists j, i <= j < i + Z.of_nat n /\ ym = month_of_index j.
Proof.
  intros Hin. apply (List.In_nth _ _ (0, 0)) in Hin as (k & Hk & Hnth).
  rewrite months_from_length in Hk. rewrite months_from_nth in Hnth by exact Hk.
  exists (i + Z.of_nat k). split; [lia|now symmetry].
Qed.

Lemma getMonthsBetween_wf s e :
  wf_date s -> wf_date e ->
  exists months,
    getMonthsBetween s e = Returns months /\
    List.Forall (fun ym => exists k, ym = Some k /\ wf_key k) months.
Proof.
  intros (sy & sm & r1 & -> & Hsy & Hsm & Hr1) (ey & em & r2 & -> & Hey & Hem & Hr2).
  rewrite getMonthsBetween_dates by (try assumption; lia).
  eexists. split; [reflexivity|].
  destruct (Z.ltb_spec 0 (month_count sy sm ey em)) as [Hn|Hn].
  - apply List.Forall_forall. intros ym Hin.
    apply List.in_map_iff in Hin as ([y m] & <- & Hin).
    rewrite <- (month_of_index_index sy sm) in Hin by lia.
    apply months_from_In in Hin as (j & Hj & Heq).
    unfold month_of_index in Heq. injection Heq as -> ->.
    unfold month_index, month_count in Hj, Hn.
    exists (key_of_month (j / 12, j mod 12 + 1)). split; [reflexivity|].
    exists (j / 12), (j mod 12 + 1).
    assert (Hy : 1000 <= j / 12 <= 9999) by (Z.div_mod_to_equations; lia).
    assert (Hm : 1 <= j mod 12 + 1 <= 12) by (Z.div_mod_to_equations; lia).
    split; [exact Hy|]. split; [exact Hm|].
    unfold key_of_month. cbn [fst snd]. now apply ymKey_text.
  - constructor; [|constructor].
    exists (ym_text sy sm). split; [reflexivity|]. now exists sy, sm.
Qed.

Lemma record_events_provider p d es :
  record_events p d = Returns es -> List.Forall (fun e => ev_provider e = p) es.
Proof.
  unfold record_events.
  destruct (is_estimate d); [intros [= <-]; constructor|].
  destruct (Qeq_bool (or0 (cost_gross d)) 0); [intros [= <-]; constructor|].
  destruct (truthy (period_start d)) as [start|]; [|intros [= <-]; constructor].
  destruct (getMonthsBetween start _) as [months|]; [|discriminate]. cbn [bind].
  intros [= <-]. generalize (perMonth (or0 (cost_gross d)) months). intros q.
  induction months as [|[k|] months IH]; cbn [omap option_map]; [constructor| |exact IH].
  constructor; [reflexivity|exact IH].
Qed.

Lemma record_events_wf p d :
  wf_record d ->
  exists es, record_events p d = Returns es /\ List.Forall (fun e => wf_key (ev_key e)) es.
Proof.
  intros [Hstart Hend]. unfold record_events.
  destruct (is_estimate d); [exists []; split; [reflexivity|constructor]|].
  destruct (Qeq_bool (or0 (cost_gross d)) 0); [exists []; split; [reflexivity|constructor]|].
  destruct (truthy (period_start d)) as [start|] eqn:Hs;
    [|exists []; split; [reflexivity|constructor]].
  assert (Hwe : wf_date (default start (truthy (period_end d)))).
  { destruct (truthy (period_end d)) as [e|] eqn:He; cbn [default]; [now apply Hend|now apply Hstart]. }
  destruct (getMonthsBetween_wf start _ (Hstart start eq_refl) Hwe) as (months & -> & Hall).
  cbn [bind]. eexists. split; [reflexivity|].
  generalize (perMonth (or0 (cost_gross d)) months). intros q.
  induction Hall as [|ym months (k & -> & Hk) Hall IH]; cbn [omap option_map]; [constructor|].
  constructor; [exact Hk|exact IH].
Qed.

Lemma data_events_wf p ds :
  List.Forall wf_record ds ->
  exists E, data_events p ds = Returns E /\ List.Forall (fun e => wf_key (ev_key e)) E.
Proof.
  induction 1 as [|d ds Hd Hds (rest & Hrest & Hwf)]; [exists []; split; [reflexivity|constructor]|].
  destruct (record_events_wf p d Hd) as (es & Hes & Hwf').
  exists (es ++ rest). cbn [data_events]. rewrite Hes, Hrest. cbn [bind].
  split; [reflexivity|]. apply List.Forall_app. now split.
Qed.

Lemma contributions_wf ss :
  List.Forall wf_series ss ->
  exists E, contributions ss = Returns E /\ List.Forall (fun e => wf_key (ev_key e)) E.
Proof.
  induction 1 as [|s ss Hs Hss (rest & Hrest & Hwf)]; [exists []; split; [reflexivity|constructor]|].
  destruct (data_events_wf (provider s) (data s) Hs) as (es & Hes & Hwf').
  exists (es ++ rest). cbn [contributions]. rewrite Hes, Hrest. cbn [bind].
  split; [reflexivity|]. apply List.Forall_app. now split.
Qed.

Lemma data_events_provider p ds : forall E,
  data_events p ds = Returns E -> List.Forall (fun e => ev_provider e = p) E.
Proof.
  induction ds as [|d ds IH]; intros E; cbn [data_events]; [intros [= <-]; constructor|].
  destruct (record_events p d) as [es|] eqn:Hes; [|discriminate]. cbn [bind].
  destruct (data_events p ds) as [rest|]; [|discriminate]. cbn [bind].
  intros [= <-]. apply List.Forall_app. split; [now apply record_events_provider in Hes|now apply IH].
Qed.

Lemma contributions_no_month ss : forall E,
  no_month_provider ss -> contributions ss = Returns E ->
  List.Forall (fun e => ev_provider e <> "month") E.
Proof.
  induction ss as [|s ss IH]; intros E Hno; cbn [contributions]; [intros [= <-]; constructor|].
  apply List.Forall_cons_iff in Hno as [Hs Hno].
  destruct (data_events (provider s) (data s)) as [es|] eqn:Hes; [|discriminate]. cbn [bind].
  destruct (contributions ss) as [rest|]; [|discriminate]. cbn [bind].
  intros [= <-]. apply List.Forall_app. split; [|now apply IH].
  apply data_events_provider in Hes. eapply List.Forall_impl; [|exact Hes].
  intros e He. now rewrite He.
Qed.

(** ** Rounding to cents *)

(** [round2 x] is the multiple [n / 100] of 0.01 nearest to [x], the tie
    [x = (n - 1/2) / 100] going up. *)
Lemma round2_half_up (x : Q) :
  exists n : Z,
    round2 x = (inject_Z n / 100)%Q /\
    (inject_Z n - (1 # 2) <= x * 100 < inject_Z n + (1 # 2))%Q.
Proof.
  exists (Math_round (x * 100)). split; [reflexivity|].
  unfold Math_round.
  pose proof (Qfloor_le (x * 100 + (1 # 2))) as Hlo.
  pose proof (Qlt_floor (x * 100 + (1 # 2))) as Hhi.
  rewrite inject_Z_plus in Hhi. change (inject_Z 1) with 1%Q in Hhi.
  split; lra.
Qed.

Lemma strict_keys_NoDup {A : Type} (key : A -> string) l :
  StronglySorted (key_lt key) l -> List.NoDup (map key l).
Proof.
  induction 1 as [|x l Hl IH Hx]; cbn [map]; constructor; [|exact IH].
  intros Hin. apply List.in_map_iff in Hin as (z & Hz & Hin).
  pose proof (proj1 (List.Forall_forall _ _) Hx z Hin) as Hlt.
  unfold key_lt in Hlt. rewrite Hz in Hlt. exact (key_lt_irrefl key x Hlt).
Qed.

(** ** Unknown providers *)

Lemma filter_all {A : Type} (P : A -> bool) l :
  List.Forall (fun x => P x = true) l -> List.filter P l = l.
Proof.
  induction 1 as [|x l Hx Hl IH]; [reflexivity|]. cbn. now rewrite Hx, IH.
Qed.

Lemma filter_none {A : Type} (P : A -> bool) l :
  List.Forall (fun x => P x = false) l -> List.filter P l = [].
Proof.
  induction 1 as [|x l Hx Hl IH]; [reflexivity|]. cbn. now rewrite Hx, IH.
Qed.

Lemma contributions_only_known ss : forall E,
  contributions ss = Returns E ->
  contributions
    (map (fun s => {| provider := provider s;
                      data := if known (provider s) then data s else [] |}) ss)
  = Returns (List.filter (fun e => known (ev_provider e)) E).
Proof.
  induction ss as [|s ss IH]; intros E; cbn [contributions map provider data];
    [intros [= <-]; reflexivity|].
  destruct (data_events (provider s) (data s)) as [es|] eqn:Hes_eq; [|discriminate]. cbn [bind].
  destruct (contributions ss) as [rest|]; [|discriminate]. cbn [bind].
  intros [= <-]. rewrite (IH rest eq_refl), List.filter_app.
  pose proof (data_events_provider _ _ _ Hes_eq) as Hes.
  assert (Hall : List.Forall (fun e => known (ev_provider e) = known (provider s)) es).
  { eapply List.Forall_impl; [|exact Hes]. intros e He. now rewrite He. }
  destruct (known (provider s)) eqn:Hk.
  - rewrite Hes_eq, (filter_all _ es Hall). reflexivity.
  - cbn [data_events bind]. now rewrite (filter_none _ es Hall).
Qed.

Lemma slot_filter_known E k p :
  known p = true ->
  slot (List.filter (fun e => known (ev_provider e)) E) k p = slot E k p.
Proof.
  intros Hp. induction E as [|e E IH] using rev_ind; [reflexivity|].
  rewrite List.filter_app, slot_snoc. cbn [List.filter].
  destruct (known (ev_provider e)) eqn:He.
  - now rewrite slot_snoc, IH.
  - rewrite List.app_nil_r, IH. unfold matches.
    destruct (String.eqb_spec (ev_provider e) p) as [Heq|_];
      [congruence|now rewrite andb_false_r].
Qed.

Lemma known_key_In E k :
  known_key E k = true <-> In k (map ev_key (List.filter (fun e => known (ev_provider e)) E)).
Proof.
  unfold known_key. rewrite List.existsb_exists, List.in_map_iff. split.
  - intros (e & He & Hm). apply andb_true_iff in Hm as [Hk Hp].
    apply String.eqb_eq in Hk. exists e. split; [exact Hk|]. now apply List.filter_In.
  - intros (e & Hk & He). apply List.filter_In in He as [He Hp].
    exists e. split; [exact He|]. now rewrite Hk, String.eqb_refl, Hp.
Qed.

Lemma amounts_unknown_key E k p :
  known_key E k = false -> known p = true -> amounts E k p = [].
Proof.
  intros Hk Hp. unfold amounts. rewrite filter_none; [reflexivity|].
  apply List.Forall_forall. intros e He. unfold matches.
  destruct (String.eqb_spec (ev_key e) k) as [Hkey|_]; [|reflexivity].
  destruct (String.eqb_spec (ev_provider e) p) as [Hprov|_]; [|reflexivity].
  exfalso. assert (Ht : known_key E k = true); [|congruence].
  unfold known_key. apply List.existsb_exists. exists e. split; [exact He|].
  now rewrite Hkey, String.eqb_refl, Hprov, Hp.
Qed.

(** *** The months of a record are among the contributions *)

Lemma record_events_In p d es start months k :
  record_events p d = Returns es ->
  is_estimate d = false -> Qeq_bool (or0 (cost_gross d)) 0 = false ->
  truthy (period_start d) = Some start ->
  getMonthsBetween start (default start (truthy (period_end d))) = Returns months ->
  In (Some k) months -> In k (map ev_key es).
Proof.
  unfold record_events. intros Hes Hest Hc Hs Hm Hk.
  rewrite Hest, Hc, Hs, Hm in Hes. cbn [bind] in Hes. injection Hes as <-.
  apply List.in_map_iff. exists (p, k, perMonth (or0 (cost_gross d)) months).
  split; [reflexivity|].
  apply list_elem_of_In, list_elem_of_omap. exists (Some k).
  split; [now apply list_elem_of_In|reflexivity].
Qed.

Lemma data_events_In p ds : forall E d start months k,
  data_events p ds = Returns E -> In d ds ->
  is_estimate d = false -> Qeq_bool (or0 (cost_gross d)) 0 = false ->
  truthy (period_start d) = Some start ->
  getMonthsBetween start (default start (truthy (period_end d))) = Returns months ->
  In (Some k) months -> In k (map ev_key E).
Proof.
  induction ds as [|d0 ds IH]; intros E d start months k HE Hd Hest Hc Hs Hm Hk; [contradiction|].
  cbn [data_events] in HE.
  destruct (record_events p d0) as [es|] eqn:Hes; [|discriminate]. cbn [bind] in HE.
  destruct (data_events p ds) as [rest|] eqn:Hrest; [|discriminate]. cbn [bind] in HE.
  injection HE as <-. rewrite List.map_app. apply List.in_or_app.
  destruct Hd as [->|Hd].
  - left. exact (record_events_In _ _ _ _ _ _ Hes Hest Hc Hs Hm Hk).
  - right. exact (IH rest d start months k eq_refl Hd Hest Hc Hs Hm Hk).
Qed.

Lemma contributions_In ss : forall E s d start months k,
  contributions ss = Returns E -> In s ss -> In d (data s) ->
  is_estimate d = false -> Qeq_bool (or0 (cost_gross d)) 0 = false ->
  truthy (period_start d) = Some start ->
  getMonthsBetween start (default start (truthy (period_end d))) = Returns months ->
  In (Some k) months -> In k (map ev_key E).
Proof.
  induction ss as [|s0 ss IH]; intros E s d start months k HE Hs Hd Hest Hc Hst Hm Hk;
    [contradiction|].
  cbn [contributions] in HE.
  destruct (data_events (provider s0) (data s0)) as [es|] eqn:Hes; [|discriminate].
  cbn [bind] in HE.
  destruct (contributions ss) as [rest|] eqn:Hrest; [|discriminate]. cbn [bind] in HE.
  injection HE as <-. rewrite List.map_app. apply List.in_or_app.
  destruct Hs as [->|Hs].
  - left. exact (data_events_In _ _ _ _ _ _ _ Hes Hd Hest Hc Hst Hm Hk).
  - right. exact (IH rest s d start months k eq_refl Hs Hd Hest Hc Hst Hm Hk).
Qed.

(** ** Allocation conservation *)

Lemma events_of_months p q months :
  List.Forall (fun ym : option string => ym <> None) months ->
  length (omap (fun ym => option_map (fun k => (p, k, q)) ym) months) = length months /\
  List.Forall (fun e : event => ev_amount e = q)
    (omap (fun ym => option_map (fun k => (p, k, q)) ym) months).
Proof.
  induction 1 as [|[k|] months Hk Hall [IHlen IHall]].
  - split; [reflexivity|constructor].
  - split; [exact (f_equal S IHlen)|].
    exact (@List.Forall_cons event (fun e => ev_amount e = q) (p, k, q) _ eq_refl IHall).
  - contradiction.
Qed.

Lemma Qsum_constant (q : Q) (es : list event) :
  List.Forall (fun e => ev_amount e = q) es ->
  (Qsum (map ev_amount es) == inject_Z (Z.of_nat (length es)) * q)%Q.
Proof.
  intros H. rewrite <- (Qsum_repeat q es).
  assert (Heq : map ev_amount es = map (fun _ => q) es).
  { apply List.map_ext_in. intros e He. exact (proj1 (List.Forall_forall _ _) H e He). }
  now rewrite Heq.
Qed.

Lemma add_cost_val0 numToString prov amt row p :
  prov <> "month"%string ->
  (val0 (vals (add_cost numToString prov amt row)) p
   == val0 (vals row) p + if String.eqb prov p then amt else 0)%Q.
Proof.
  intros Hm. unfold add_cost. destruct (String.eqb_spec prov "month"); [contradiction|].
  cbn [vals]. destruct (String.eqb_spec prov p) as [->|Hne].
  - rewrite val0_insert_eq, or0_val0. reflexivity.
  - rewrite val0_insert_ne by exact Hne. ring.
Qed.

Lemma apply_event_column numToString p e pm :
  ev_provider e <> "month"%string ->
  (column p (dict_values (apply_event numToString pm e))
   == column p (dict_values pm) + if of_provider p e then ev_amount e else 0)%Q.
Proof.
  intros Hm. unfold apply_event, month_step, column.
  rewrite (dict_alter_Qsum (fun r => val0 (vals r) p) _ _ _
             (if of_provider p e then ev_amount e else 0)%Q).
  - rewrite dict_ensure_Qsum; [reflexivity|]. cbn [vals]. now rewrite val0_empty.
  - intros v. now apply add_cost_val0.
  - apply dict_get_ensure_same.
Qed.

(** *** The table after one record *)

Lemma stored_month_step numToString prov amt pm k' k p :
  prov <> "month"%string ->
  (stored (month_step numToString prov amt pm (Some k')) k p
   == stored pm k p + if String.eqb k' k && String.eqb prov p then amt else 0)%Q.
Proof.
  intros Hm. unfold stored, month_step. rewrite dict_get_alter, !dict_get_ensure.
  destruct (String.eqb_spec k' k) as [->|Hne]; cbn [andb].
  - rewrite String.eqb_refl.
    destruct (dict_get pm k) as [row|]; cbn [option_map].
    + apply add_cost_val0. exact Hm.
    + rewrite add_cost_val0 by exact Hm. cbn [vals]. rewrite val0_empty. reflexivity.
  - cbv iota. destruct (dict_get pm k) as [row|]; [ring|].
    destruct (String.eqb_spec k' k); [contradiction|ring].
Qed.

Lemma stored_month_step_other numToString prov amt pm ym k p :
  prov <> "month"%string -> p <> prov ->
  stored (month_step numToString prov amt pm ym) k p = stored pm k p.
Proof.
  intros Hm Hp. destruct ym as [k'|]; [|reflexivity].
  unfold stored, month_step. rewrite dict_get_alter, !dict_get_ensure.
  assert (Hadd : forall row, val0 (vals (add_cost numToString prov amt row)) p = val0 (vals row) p).
  { intros row. unfold add_cost. destruct (String.eqb_spec prov "month"); [contradiction|].
    cbn [vals]. apply val0_insert_ne. congruence. }
  destruct (String.eqb_spec k' k) as [->|Hne].
  - rewrite String.eqb_refl. destruct (dict_get pm k) as [row|]; cbn [option_map].
    + apply Hadd.
    + rewrite Hadd. cbn [vals]. apply val0_empty.
  - cbv iota. destruct (dict_get pm k) as [row|]; [reflexivity|].
    destruct (String.eqb_spec k' k); [contradiction|reflexivity].
Qed.

Lemma month_step_keeps numToString prov amt pm ym k :
  dict_get pm k <> None -> dict_get (month_step numToString prov amt pm ym) k <> None.
Proof.
  intros Hk. destruct ym as [k'|]; [|exact Hk].
  unfold month_step. rewrite dict_get_alter, !dict_get_ensure.
  destruct (String.eqb_spec k' k) as [->|Hne].
  - rewrite String.eqb_refl. destruct (dict_get pm k); cbn; discriminate.
  - destruct (dict_get pm k) as [row|]; [discriminate|contradiction].
Qed.

Lemma month_step_makes numToString prov amt pm k :
  dict_get (month_step numToString prov amt pm (Some k)) k <> None.
Proof.
  unfold month_step. rewrite dict_get_alter, String.eqb_refl.
  pose proof (dict_get_ensure_same k {| month := k; vals := ∅ |} pm) as H.
  destruct (dict_get (dict_ensure k {| month := k; vals := ∅ |} pm) k); [discriminate|contradiction].
Qed.

Lemma month_steps_keep numToString prov amt months : forall pm k,
  dict_get pm k <> None ->
  dict_get (fold_left (month_step numToString prov amt) months pm) k <> None.
Proof.
  induction months as [|ym months IH]; intros pm k Hk; [exact Hk|].
  cbn [fold_left]. apply IH. now apply month_step_keeps.
Qed.

Lemma month_steps_rows numToString prov amt months : forall pm k,
  In (Some k) months ->
  dict_get (fold_left (month_step numToString prov amt) months pm) k <> None.
Proof.
  induction months as [|ym months IH]; intros pm k; [intros []|].
  cbn [fold_left]. intros [->|Hin].
  - apply month_steps_keep. apply month_step_makes.
  - now apply IH.
Qed.

Lemma month_steps_stored numToString prov amt months : forall pm k,
  prov <> "month"%string ->
  (stored (fold_left (month_step numToString prov amt) months pm) k prov
   == stored pm k prov + amt * inject_Z (Z.of_nat (occurrences k months)))%Q.
Proof.
  induction months as [|ym months IH]; intros pm k Hm.
  { cbn. ring. }
  cbn [fold_left]. rewrite (IH _ k Hm). unfold occurrences. cbn [List.filter].
  destruct ym as [k'|].
  - rewrite stored_month_step by exact Hm. rewrite String.eqb_refl, andb_true_r.
    destruct (String.eqb k' k); cbn [length]; [|ring].
    rewrite Nat2Z.inj_succ, <- Z.add_1_r, inject_Z_plus. ring.
  - cbn [month_step]. ring.
Qed.

Lemma month_steps_stored_other numToString prov amt months : forall pm k p,
  prov <> "month"%string -> p <> prov ->
  stored (fold_left (month_step numToString prov amt) months pm) k p = stored pm k p.
Proof.
  induction months as [|ym months IH]; intros pm k p Hm Hp; [reflexivity|].
  cbn [fold_left]. rewrite (IH _ k p Hm Hp). now apply stored_month_step_other.
Qed.

Lemma month_steps_column numToString prov amt months : forall pm,
  prov <> "month"%string ->
  List.Forall (fun ym : option string => ym <> None) months ->
  (column prov (dict_values (fold_left (month_step numToString prov amt) months pm))
   == column prov (dict_values pm) + amt * inject_Z (Z.of_nat (length months)))%Q.
Proof.
  induction months as [|ym months IH]; intros pm Hm Hall.
  { cbn [fold_left length]. change (inject_Z (Z.of_nat 0)) with 0%Q. ring. }
  inversion Hall as [|? ? Hym Hall']; subst. destruct ym as [k|]; [|contradiction].
  cbn [fold_left length]. rewrite (IH _ Hm Hall').
  pose proof (apply_event_column numToString prov (prov, k, amt) pm Hm) as Hstep.
  unfold apply_event, of_provider, ev_provider, ev_key, ev_amount in Hstep. cbn in Hstep.
  rewrite String.eqb_refl in Hstep. rewrite Hstep.
  rewrite Nat2Z.inj_succ, <- Z.add_1_r, inject_Z_plus. ring.
Qed.

(** ** Worked examples *)

Lemma wf_date_intro y m rest s :
  s = date_text y m rest -> 1000 <= y <= 9999 -> 1 <= m <= 12 -> date_tail rest -> wf_date s.
Proof. intros. now exists y, m, rest. Qed.

Lemma wf_bill ps pe c : wf_date ps -> wf_date pe -> wf_record (bill ps pe c).
Proof.
  intros Hs He. split; intros s H.
  - cbn [bill period_start] in H. destruct ps; [discriminate|]. now injection H as <-.
  - cbn [bill period_end] in H. destruct pe; [discriminate|]. now injection H as <-.
Qed.

Lemma date_tail_day r : date_tail (String "-" r).
Proof. right. now exists r. Qed.

Lemma wf_series_single p d : wf_record d -> wf_series {| provider := p; data := [d] |}.
Proof.
  intros H. unfold wf_series. cbn [data].
  apply List.Forall_cons; [exact H|apply List.Forall_nil].
Qed.

Lemma cd_sample_wf : List.Forall wf_series (series cd_sample).
Proof.
  unfold cd_sample. cbn [series].
  apply List.Forall_cons; [|apply List.Forall_cons; [|apply List.Forall_cons; [|apply List.Forall_nil]]];
    apply wf_series_single, wf_bill.
  - apply (wf_date_intro 2024 1 "-15"); [reflexivity|lia|lia|apply date_tail_day].
  - apply (wf_date_intro 2024 2 "-14"); [reflexivity|lia|lia|apply date_tail_day].
  - apply (wf_date_intro 2024 2 "-01"); [reflexivity|lia|lia|apply date_tail_day].
  - apply (wf_date_intro 2024 3 "-31"); [reflexivity|lia|lia|apply date_tail_day].
  - apply (wf_date_intro 2024 1 "-01"); [reflexivity|lia|lia|apply date_tail_day].
  - apply (wf_date_intro 2024 1 "-31"); [reflexivity|lia|lia|apply date_tail_day].
Defined.

Lemma cd_sample_no_month : no_month_provider (series cd_sample).
Proof.
  unfold no_month_provider, cd_sample. cbn [series].
  repeat (apply List.Forall_cons; [discriminate|]). apply List.Forall_nil.
Defined.

(** ** The loops and their fuel *)

Lemma months_loop_more_fuel fuel : forall y m ey em acc r,
  months_loop fuel y m ey em acc = Returns r ->
  months_loop (S fuel) y m ey em acc = Returns r.
Proof.
  induction fuel as [|fuel IH]; intros y m ey em acc r; [discriminate|].
  intros H. cbn [months_loop] in H. change (months_loop (S (S fuel)) y m ey em acc) with
    (if jslt y ey || (jseq y ey && jsle m em)
     then if jslt (Some 12) (jsadd m 1)
          then months_loop (S fuel) (jsadd y 1) (Some 1) ey em (acc ++ [ymKey y m])
          else months_loop (S fuel) y (jsadd m 1) ey em (acc ++ [ymKey y m])
     else Returns acc).
  destruct (jslt y ey || (jseq y ey && jsle m em)); [|exact H].
  destruct (jslt (Some 12) (jsadd m 1)); now apply IH.
Qed.

Lemma months_loop_returns ey em fuel : forall y m acc,
  0 <= m -> loop_measure ey y m <= Z.of_nat fuel ->
  exists r, months_loop fuel (Some y) (Some m) (Some ey) em acc = Returns r.
Proof.
  induction fuel as [|fuel IH]; intros y m acc Hm Hfuel.
  - exfalso. unfold loop_measure in Hfuel. destruct (Z.ltb_spec ey y); lia.
  - cbn [months_loop]. destruct (jslt (Some y) (Some ey) || (jseq (Some y) (Some ey) && jsle (Some m) em)) eqn:Hcond;
      [|now exists acc].
    assert (Hy : y <= ey).
    { cbn [jslt jseq] in Hcond. destruct (Z.ltb_spec y ey); [lia|].
      destruct (Z.eqb_spec y ey); [lia|discriminate]. }
    unfold loop_measure in Hfuel. destruct (Z.ltb_spec ey y); [lia|].
    cbn [jsadd option_map jslt]. destruct (Z.ltb_spec 12 (m + 1)).
    + apply IH; [lia|]. unfold loop_measure. destruct (Z.ltb_spec ey (y + 1)); lia.
    + apply IH; [lia|]. unfold loop_measure. destruct (Z.ltb_spec ey y); lia.
Qed.

(** With a month that is not a number and a start year before the end year
    the loop never ends. *)
Lemma months_loop_nan_month fuel : forall y ey em acc,
  y < ey -> months_loop fuel (Some y) None (Some ey) em acc = Diverges.
Proof.
  induction fuel as [|fuel IH]; intros y ey em acc Hy; [reflexivity|].
  cbn [months_loop jslt jseq jsle jsadd option_map].
  destruct (Z.ltb_spec y ey); [|lia]. cbn [orb]. now apply IH.
Qed.

Lemma digits_value_nonneg s : forall a v, 0 <= a -> digits_value a s = Some v -> 0 <= v.
Proof.
  induction s as [|c s IH]; intros a v Ha; cbn [digits_value]; [intros [= <-]; exact Ha|].
  unfold digit_of_ascii at 1.
  destruct ((48 <=? Z.of_N (N_of_ascii c)) && (Z.of_N (N_of_ascii c) <=? 57)) eqn:Hd;
    [|discriminate].
  apply IH. lia.
Qed.

Lemma num_piece_nonneg parts i v : num_piece parts i = Some v -> 0 <= v.
Proof.
  unfold num_piece. destruct (nth_error parts i); [|discriminate].
  apply digits_value_nonneg. lia.
Qed.

(** [Diverges] is genuine: when the model of [getMonthsBetween] runs out of
    its fuel, the loop does not end with any amount of fuel. *)
Lemma getMonthsBetween_diverges startDate endDate :
  getMonthsBetween startDate endDate = Diverges ->
  forall fuel,
    months_loop fuel (num_piece (split startDate) 0) (num_piece (split startDate) 1)
      (num_piece (split endDate) 0) (num_piece (split endDate) 1) [] = Diverges.
Proof.
  unfold getMonthsBetween.
  destruct (num_piece (split startDate) 0) as [sy|] eqn:Hsy;
    [|now destruct (num_piece (split endDate) 0)].
  destruct (num_piece (split endDate) 0) as [ey|] eqn:Hey; [|discriminate].
  destruct (num_piece (split startDate) 1) as [sm|] eqn:Hsm.
  - destruct (months_loop_returns ey (num_piece (split endDate) 1)
                (months_fuel (Some sy) (Some ey)) sy sm []) as [r Hr].
    + exact (num_piece_nonneg _ _ _ Hsm).
    + pose proof (num_piece_nonneg _ _ _ Hsm).
      unfold loop_measure, months_fuel. destruct (Z.ltb_spec ey sy); lia.
    + rewrite Hr. discriminate.
  - destruct (Z.ltb_spec sy ey) as [Hlt|Hge].
    + intros _ fuel. now apply months_loop_nan_month.
    + unfold months_fuel. cbn [months_loop jslt jseq jsle].
      destruct (Z.ltb_spec sy ey); [lia|]. cbn [orb].
      rewrite andb_false_r. discriminate.
Qed.

(** The loops of [addMonths] leave with their conditions false: the fuel
    that the model gives them is never used up. *)
Lemma carry_years_exit fuel : forall y m,
  m <= 12 \/ (m - 1) / 12 < Z.of_nat fuel ->
  jslt (Some 12) (snd (carry_years fuel y (Some m))) = false.
Proof.
  induction fuel as [|fuel IH]; intros y m H; cbn [carry_years jslt].
  - destruct (Z.ltb_spec 12 m) as [Hm|Hm]; cbn [snd jslt].
    + exfalso. Z.div_mod_to_equations; lia.
    + destruct (Z.ltb_spec 12 m); [lia|reflexivity].
  - destruct (Z.ltb_spec 12 m) as [Hm|Hm]; cbn [snd jslt jsadd option_map].
    + apply IH. Z.div_mod_to_equations; lia.
    + destruct (Z.ltb_spec 12 m); [lia|reflexivity].
Qed.

Lemma borrow_years_exit fuel : forall y m,
  1 <= m \/ - ((m - 1) / 12) <= Z.of_nat fuel ->
  jslt (snd (borrow_years fuel y (Some m))) (Some 1) = false.
Proof.
  induction fuel as [|fuel IH]; intros y m H; cbn [borrow_years jslt].
  - cbn [snd jslt]. destruct (Z.ltb_spec m 1); [|reflexivity].
    exfalso. Z.div_mod_to_equations; lia.
  - destruct (Z.ltb_spec m 1) as [Hm|Hm]; cbn [snd jslt jsadd option_map].
    + apply IH. Z.div_mod_to_equations; lia.
    + destruct (Z.ltb_spec m 1); [lia|reflexivity].
Qed.

Lemma wrap_fuel_carry m : m <= 12 \/ (m - 1) / 12 < Z.of_nat (wrap_fuel (Some m)).
Proof. unfold wrap_fuel. Z.div_mod_to_equations; lia. Qed.

Lemma wrap_fuel_borrow m : 1 <= m \/ - ((m - 1) / 12) <= Z.of_nat (wrap_fuel (Some m)).
Proof. unfold wrap_fuel. Z.div_mod_to_equations; lia. Qed.

Lemma addMonths_loops_exit (y m : jsnum) :
  let '(y1, m1) := carry_years (wrap_fuel m) y m in
  let '(y2, m2) := borrow_years (wrap_fuel m1) y1 m1 in
  jslt (Some 12) m1 = false /\ jslt m2 (Some 1) = false.
Proof.
  destruct m as [m|]; [|cbn; now split].
  pose proof (carry_years_exit (wrap_fuel (Some m)) y m (wrap_fuel_carry m)) as H1.
  destruct (carry_years (wrap_fuel (Some m)) y (Some m)) as [y1 m1]. cbn [snd] in H1.
  destruct m1 as [m1|]; [|cbn; now split].
  pose proof (borrow_years_exit (wrap_fuel (Some m1)) y1 m1 (wrap_fuel_borrow m1)) as H2.
  destruct (borrow_years (wrap_fuel (Some m1)) y1 (Some m1)) as [y2 m2]. cbn [snd] in H2.
  now split.
Qed.

(** * The claims *)

(** C1 (as amended). For every input, the records whose [cost_gross] is zero
    or absent, or whose [period_start] is absent, contribute nothing: the
    outcome of [allMonthly] is the same with and without them. *)
Theorem costless_or_undated_excluded (numToString : Q -> string) (chartData : option ChartData) :
  allMonthly numToString (without costless_or_undated chartData)
  = allMonthly numToString chartData.
Proof.
  apply allMonthly_without. intros provider d pm Hd.
  now apply record_step_costless.
Qed.

(** C1, the claim as stated fails for a strictly negative [cost_gross]: such
    a record is not excluded, its amount is allocated like any other. *)
Lemma negative_cost_allocated :
  (forall numToString,
     allMonthly numToString cd_refund
     = Returns [ {| month := "2024-01";
                    vals := {[ "eon" := round2 (-50); "pgnig" := round2 0; "mpwik" := round2 0 ]}
                 |} ]) /\
  (forall numToString,
     allMonthly numToString (without nonpositive_or_undated cd_refund) = Returns []).
Proof. split; intros numToString; vm_compute; reflexivity. Qed.

(** C2. Allocation conservation, in exact arithmetic: for every record
    that survives the filter (not an estimate, a cost [c] other than 0, a
    start date) and whose period yields the month list [months], of length
    N >= 1, the allocator makes N contributions, each of
    [perMonth = c / N], and their sum is [c] exactly.  The contributions
    reach the table: when the dates of the record are well-formed and the
    provider is an ordinary name (not "month", the label of a row, and not
    a name inherited from [Object.prototype]), every month of the list has
    a row after the record; the value stored
    for the provider in the row of a month grows by [perMonth] for each
    occurrence of the month in the list; the values of other providers are
    left alone; and the total stored for the provider over all rows grows
    by [c]. *)
Theorem allocation_conserved (numToString : Q -> string) (provider : string) (pm : dict Row)
    (d : DataPoint) (c : Q) (start : string) (months : list (option string)) :
  is_estimate d = false -> cost_gross d = Some c -> ~ (c == 0)%Q ->
  truthy (period_start d) = Some start ->
  getMonthsBetween start (default start (truthy (period_end d))) = Returns months ->
  exists es pm',
    (1 <= length months)%nat /\
    perMonth c months = (c / inject_Z (Z.of_nat (length months)))%Q /\
    record_events provider d = Returns es /\
    record_step numToString provider pm d = Returns pm' /\
    pm' = fold_left (apply_event numToString) es pm /\
    length es = length months /\
    List.Forall (fun e => ev_amount e = perMonth c months) es /\
    (Qsum (map ev_amount es) == c)%Q /\
    (wf_record d -> provider <> "month"%string -> inherited provider = false ->
     (forall k, In (Some k) months -> dict_get pm' k <> None) /\
     (forall k, (stored pm' k provider
                 == stored pm k provider
                    + perMonth c months * inject_Z (Z.of_nat (occurrences k months)))%Q) /\
     (forall k p, p <> provider -> stored pm' k p = stored pm k p) /\
     (column provider (dict_values pm') == column provider (dict_values pm) + c)%Q).
Proof.
  intros Hest Hcost Hc Hstart Hmonths.
  assert (Hnz : Qeq_bool c 0 = false).
  { destruct (Qeq_bool c 0) eqn:E; [|reflexivity]. apply Qeq_bool_iff in E. contradiction. }
  assert (Hor : or0 (cost_gross d) = c) by (rewrite Hcost; now apply or0_Some_nonzero).
  pose proof (getMonthsBetween_nonempty _ _ _ Hmonths) as Hne.
  pose proof (getMonthsBetween_no_null _ _ _ (truthy_nonempty _ _ Hstart) Hmonths) as Hsome.
  destruct (events_of_months provider (perMonth c months) months Hsome) as [Hlen Hall].
  set (es := omap (fun ym => option_map (fun k => (provider, k, perMonth c months)) ym) months)
    in Hlen, Hall.
  assert (Hev : record_events provider d = Returns es).
  { unfold record_events. rewrite Hest, Hor, Hnz, Hstart, Hmonths. reflexivity. }
  assert (Hstep : record_step numToString provider pm d
                  = Returns (fold_left (month_step numToString provider (perMonth c months))
                               months pm)).
  { unfold record_step. rewrite Hest, Hor, Hnz, Hstart, Hmonths. reflexivity. }
  assert (Hpos : ~ (inject_Z (Z.of_nat (length months)) == 0)%Q).
  { destruct months; [contradiction|]. cbn [length]. rewrite Nat2Z.inj_succ.
    unfold Qeq, inject_Z. cbn. lia. }
  exists es, (fold_left (month_step numToString provider (perMonth c months)) months pm).
  split; [destruct months; [contradiction|cbn; lia]|].
  split; [reflexivity|]. split; [exact Hev|]. split; [exact Hstep|].
  split.
  { pose proof (record_step_events numToString provider pm d) as Hre.
    rewrite Hev, Hstep in Hre. cbn [bind] in Hre. now injection Hre. }
  split; [exact Hlen|]. split; [exact Hall|].
  split.
  { rewrite (Qsum_constant _ _ Hall), Hlen. unfold perMonth. field. exact Hpos. }
  intros _ Hmonth _.
  split; [intros k Hk; now apply month_steps_rows|].
  split; [intros k; now apply month_steps_stored|].
  split; [intros k p Hp; now apply month_steps_stored_other|].
  rewrite month_steps_column by assumption. unfold perMonth. field. exact Hpos.
Qed.

Lemma allocation_conserved_witness :
  exists pm',
    record_step integer_text "pgnig" [] (bill "2024-01-15" "2024-02-14" 200) = Returns pm' /\
    (stored pm' "2024-01" "pgnig" == 100)%Q /\
    (stored pm' "2024-02" "pgnig" == 100)%Q /\
    (column "pgnig" (dict_values pm') == 200)%Q.
Proof.
  destruct (allocation_conserved integer_text "pgnig" [] (bill "2024-01-15" "2024-02-14" 200)
              200 "2024-01-15" [Some "2024-01"; Some "2024-02"]%string)
    as (es & pm' & _ & _ & _ & Hstep & _ & _ & _ & _ & Htable).
  - reflexivity.
  - reflexivity.
  - discriminate.
  - reflexivity.
  - vm_compute. reflexivity.
  - assert (Hwf : wf_record (bill "2024-01-15" "2024-02-14" 200)).
    { apply wf_bill.
      - apply (wf_date_intro 2024 1 "-15"); [reflexivity|lia|lia|apply date_tail_day].
      - apply (wf_date_intro 2024 2 "-14"); [reflexivity|lia|lia|apply date_tail_day]. }
    destruct (Htable Hwf ltac:(discriminate) eq_refl) as (_ & Hstored & _ & Hcolumn).
    exists pm'. split; [exact Hstep|].
    split; [rewrite (Hstored "2024-01"%string); vm_compute; reflexivity|].
    split; [rewrite (Hstored "2024-02"%string); vm_compute; reflexivity|].
    rewrite Hcolumn. vm_compute. reflexivity.
Defined.



(** C4 (as amended). For a non-empty timeline whose first and last keys are
    well-formed "YYYY-MM" texts, a width above 0 and an offset of at least 0:
    the window ends [offsetMonths] calendar months before the last month;
    [canGoForward] holds exactly when [offsetMonths > 0]; as long as the end
    does not fall before year 0 the window starts [widthMonths - 1] months
    before its end; and as long as the start does not fall before year 1000
    (its key still has a four-digit year) [canGoBack] holds exactly when the
    start is strictly after the first month of the timeline.  With width 12
    and offset 0 on a timeline from 2022-01 to 2024-12 the window is
    2024-01 to 2024-12, [canGoBack] is true and [canGoForward] is false. *)
Theorem window_bounds (first : Row) (rest : list Row)
    (y1 m1 y2 m2 widthMonths offsetMonths : Z) :
  month first = ym_text y1 m1 ->
  month (List.last (first :: rest) first) = ym_text y2 m2 ->
  0 <= y1 <= 9999 -> 1 <= m1 <= 12 -> 0 <= y2 <= 9999 -> 1 <= m2 <= 12 ->
  0 < widthMonths -> 0 <= offsetMonths ->
  let e := month_index y2 m2 - offsetMonths in
  let s := e - (widthMonths - 1) in
  let w := computeWindow (first :: rest) widthMonths offsetMonths in
  windowEnd w = Some (key_of_index e) /\
  canGoForward w = (0 <? offsetMonths) /\
  (0 <= e -> windowStart w = Some (key_of_index s)) /\
  (month_index 1000 1 <= s -> canGoBack w = (month_index y1 m1 <? s)) /\
  (y1 = 2022 -> m1 = 1 -> y2 = 2024 -> m2 = 12 -> widthMonths = 12 -> offsetMonths = 0 ->
   w = {| windowStart := Some "2024-01"; windowEnd := Some "2024-12";
          canGoBack := true; canGoForward := false |}).
Proof.
  intros Hfirst Hlast Hy1 Hm1 Hy2 Hm2 Hw Ho e s w.
  assert (Hwin : w = {| windowStart := Some (addMonths (key_of_index e) (- (widthMonths - 1)));
                        windowEnd := Some (key_of_index e);
                        canGoBack := str_lt (ym_text y1 m1)
                                       (addMonths (key_of_index e) (- (widthMonths - 1)));
                        canGoForward := 0 <? offsetMonths |}).
  { unfold w, computeWindow. destruct (Z.eqb_spec widthMonths 0); [lia|].
    rewrite Hfirst, Hlast, addMonths_ym_text by assumption. reflexivity. }
  rewrite Hwin. cbn [windowStart windowEnd canGoBack canGoForward].
  split; [reflexivity|]. split; [reflexivity|]. split; [|split].
  - intros He. rewrite addMonths_key_of_index by exact He. reflexivity.
  - intros Hs.
    assert (Hr : 12000 <= s <= 119999 /\ 0 <= e /\ e + - (widthMonths - 1) = s)
      by (unfold s, e, month_index in *; lia).
    clearbody s e. destruct Hr as (Hr & He & Hse).
    rewrite addMonths_key_of_index by exact He. rewrite Hse.
    rewrite key_of_index_text by (unfold month_index; lia).
    rewrite str_lt_ym_text by (try assumption; Z.div_mod_to_equations; lia).
    f_equal. unfold month_index. Z.div_mod_to_equations; lia.
  - intros -> -> -> -> -> ->. rewrite <- Hwin. unfold w, computeWindow.
    rewrite Hfirst, Hlast. vm_compute. reflexivity.
Qed.

Lemma window_bounds_witness :
  computeWindow two_rows 12 0
  = {| windowStart := Some "2024-01"; windowEnd := Some "2024-12";
       canGoBack := true; canGoForward := false |}.
Proof.
  refine (proj2 (proj2 (proj2 (proj2
    (window_bounds {| month := "2022-01"; vals := ∅ |} [ {| month := "2024-12"; vals := ∅ |} ]
       2022 1 2024 12 12 0 _ _ _ _ _ _ _ _)))) _ _ _ _ _ _);
    try reflexivity; lia.
Defined.

(** C4, the claim as stated fails: with the timeline 2022-01, 2024-12, width
    12 and offset 12300 the window starts at "999-01", in the year 999, long
    before the first month, yet [canGoBack] is true, because the keys are
    compared as text and "999-01" sorts after "2022-01". *)
Lemma canGoBack_text_order :
  computeWindow two_rows 12 12300
  = {| windowStart := Some "999-01"; windowEnd := Some "999-12";
       canGoBack := true; canGoForward := true |} /\
  "999-01" = key_of_index (month_index 2024 12 - 12300 - (12 - 1)) /\
  (month_index 2022 1 <? month_index 2024 12 - 12300 - (12 - 1)) = false.
Proof. repeat split; vm_compute; reflexivity. Qed.

(** C5 (as amended). In exact (rational) arithmetic and for rows whose
    properties other than the label are numbers, quarter aggregation
    conserves sums: for every list of month rows whose keys have a run of
    digits for a month, and every provider key (so not the labels "month"
    and "period", and not a name inherited from [Object.prototype]), the
    total of that key over the quarter rows equals its total over the month
    rows, absent values counting as 0; every quarter row holds the sum of
    exactly the month rows whose quarter key [toQuarter] is its own; there
    is one quarter row per quarter that occurs; and the quarter of a month
    "YYYY-MM" is "YYYY-Qn" with n = ceil(MM / 3). *)
Theorem quarter_sums_conserved (rows : list Row) (k : string) :
  digit_months rows = true ->
  k <> "month"%string -> k <> "period"%string -> inherited k = false ->
  (qcolumn k (aggregateToQuarters rows) == column k rows)%Q /\
  (forall q, In q (aggregateToQuarters rows) ->
     (val0 (qvals q) k == column k (in_quarter (period q) rows))%Q) /\
  List.NoDup (map period (aggregateToQuarters rows)) /\
  (forall qKey, In qKey (map period (aggregateToQuarters rows)) <->
     exists r, In r rows /\ toQuarter (month r) = qKey) /\
  (forall y m, 0 <= y <= 9999 -> 1 <= m <= 12 ->
     toQuarter (ym_text y m) = four_digits y +:+ "-Q" +:+ nat_digits ((m + 2) / 3)).
Proof.
  intros _ Hm Hp _. pose proof (quarters_of_fold rows) as H.
  split; [|split; [|split; [|split; [split|]]]]; [| | | | |exact toQuarter_ym_text].
  - unfold qcolumn, aggregateToQuarters.
    rewrite (Qsum_perm _ (map (fun q => val0 (qvals q) k)
                            (dict_values (fold_left quarter_step rows [])))).
    + fold (qcolumn k (dict_values (fold_left quarter_step rows []))).
      rewrite quarters_qcolumn by assumption.
      unfold qcolumn. cbn [dict_values map]. change (Qsum []) with 0%Q. ring.
    + apply Permutation_map, sort_by_perm.
  - intros q Hq. apply aggregateToQuarters_In in Hq.
    now apply (qo_rows _ _ H (period q) q Hq).
  - eapply Permutation_NoDup; [symmetry; apply aggregateToQuarters_periods|].
    apply (qo_nodup _ _ H).
  - intros Hin. apply (Permutation_in _ (aggregateToQuarters_periods rows)) in Hin.
    apply (qo_keys _ _ H). intros Hnone. apply dict_get_None_keys in Hnone. contradiction.
  - intros Hex. apply (Permutation_in _ (Permutation_sym (aggregateToQuarters_periods rows))).
    apply (qo_keys _ _ H) in Hex.
    destruct (List.in_dec string_dec qKey (map fst (fold_left quarter_step rows []))) as [Hin|Hnin];
      [exact Hin|]. now apply dict_get_None_keys in Hnin.
Qed.

Lemma quarter_sums_witness :
  (qcolumn "pgnig" (aggregateToQuarters sample_timeline) == column "pgnig" sample_timeline)%Q.
Proof.
  refine (proj1 (quarter_sums_conserved sample_timeline "pgnig" eq_refl _ _ eq_refl));
    discriminate.
Defined.

(** C5, the claim as stated fails of the program, which adds doubles and
    concatenates strings.  The month rows 2024-03, 2024-04 and 2024-05 with
    eon 0.1, 0.2 and 0.7 give the quarter rows 2024-Q1 with eon 0.1 and
    2024-Q2 with eon 0.8999999999999999: the values of the quarter rows and
    the values of the month rows have different sums, as real numbers and
    also when each list is added up in doubles (0.9999999999999999 and 1).
    And a property that holds a text does not count as 0: the quarter row
    of the month rows 2024-01 with eon "brak" and 2024-02 with eon 5 holds
    the text "0brak5" (the two numbers as [String] prints them, around the
    text), so the 5 is lost to the total. *)
Lemma quarter_sums_in_doubles :
  (forall numberToString,
     aggregateToQuarters_js numberToString march_to_may
     = [ {| label := "2024-Q1"; fields := [("eon", Num 0.1)] |};
         {| label := "2024-Q2"; fields := [("eon", Num 0.8999999999999999)] |} ]%float) /\
  (forall numberToString,
     ~ (real_sum (numbers_of "eon" (aggregateToQuarters_js numberToString march_to_may))
        == real_sum (numbers_of "eon" march_to_may))%Q) /\
  (forall numberToString,
     double_sum (numbers_of "eon" (aggregateToQuarters_js numberToString march_to_may))
     = 0.9999999999999999%float /\
     double_sum (numbers_of "eon" march_to_may) = 1%float /\
     PrimFloat.eqb 0.9999999999999999 1 = false) /\
  (forall numberToString,
     aggregateToQuarters_js numberToString text_then_number
     = [ {| label := "2024-Q1";
            fields := [("eon", Str ((numberToString 0%float +:+ "brak")
                                    +:+ numberToString 5%float))] |} ] /\
     (real_sum (numbers_of "eon" (aggregateToQuarters_js numberToString text_then_number))
      == 0)%Q /\
     (real_sum (numbers_of "eon" text_then_number) == 5)%Q).
Proof.
  split; [intros f; vm_compute; reflexivity|].
  split; [intros f; vm_compute; discriminate|].
  split; [intros f; repeat split; vm_compute; reflexivity|].
  intros f.
  assert (Hrows : aggregateToQuarters_js f text_then_number
                  = [ {| label := "2024-Q1";
                         fields := [("eon", Str ((f 0%float +:+ "brak") +:+ f 5%float))] |} ]).
  { vm_compute. destruct (f 0%float); reflexivity. }
  rewrite Hrows. repeat split; vm_compute; reflexivity.
Qed.

(** C6. Pan round-trip: for every width above 0 and offset of at least 0,
    stepping back adds the stride [max(1, floor(widthMonths / 2))] to the
    offset and stepping forward then subtracts it again (clamped at 0), which
    restores the state; and at offset 0 [canGoForward] is false. *)
Theorem pan_round_trip (st : State) (timeline : list Row) :
  0 < st_windowMonths st -> 0 <= st_offset st ->
  stepSize (st_windowMonths st) = Z.max 1 (st_windowMonths st / 2) /\
  st_offset (goBack st) = st_offset st + stepSize (st_windowMonths st) /\
  st_offset (goForward (goBack st)) = st_offset st /\
  goForward (goBack st) = st /\
  canGoForward (computeWindow timeline (st_windowMonths st) 0) = false.
Proof.
  intros Hw Ho. destruct st as [w o a]. cbn [st_windowMonths st_offset] in *.
  assert (Hs : 1 <= stepSize w) by (unfold stepSize; lia).
  split; [reflexivity|]. split; [reflexivity|].
  unfold goForward, goBack. cbn [st_windowMonths st_offset st_aggregation].
  split; [lia|]. split.
  - f_equal. lia.
  - unfold computeWindow. destruct timeline; [reflexivity|].
    destruct (w =? 0); reflexivity.
Qed.

Lemma pan_round_trip_witness :
  goForward (goBack {| st_windowMonths := 12; st_offset := 6; st_aggregation := ByMonth |})
  = {| st_windowMonths := 12; st_offset := 6; st_aggregation := ByMonth |}.
Proof.
  refine (proj1 (proj2 (proj2 (proj2
    (pan_round_trip {| st_windowMonths := 12; st_offset := 6; st_aggregation := ByMonth |}
       two_rows _ _))))); cbn; lia.
Defined.

(** C7. Estimate exclusion: a record with [is_estimate = true] leaves the
    table unchanged whatever its cost and period are, so the outcome of
    [allMonthly] is the same with and without the estimate records; an input
    that consists of one estimate record with cost 100 yields the empty
    timeline. *)
Theorem estimates_excluded (numToString : Q -> string) (chartData : option ChartData) :
  allMonthly numToString (without is_estimate chartData) = allMonthly numToString chartData /\
  (forall provider pm ps pe c,
     record_step numToString provider pm
       {| period_start := ps; period_end := pe; cost_gross := c; is_estimate := true |}
     = Returns pm) /\
  (forall provider,
     allMonthly numToString
       (Some {| series :=
          [ {| provider := provider;
               data := [ {| period_start := Some "2024-01"; period_end := None;
                            cost_gross := Some 100%Q; is_estimate := true |} ] |} ] |})
     = Returns []).
Proof.
  split; [|split].
  - apply allMonthly_without. intros provider d pm Hd. now apply record_step_estimate.
  - intros. now apply record_step_estimate.
  - intros provider. reflexivity.
Qed.

(** C8 (as amended). For every input with well-formed dates in which no
    series names its provider "month": the timeline of the input without the records of unknown
    providers consists of exactly the rows of the full timeline whose month
    received a contribution of a known provider, unchanged and in the same
    order.  The records of unknown providers do surface as rows: every
    month of every record that survives the filter, whatever its provider,
    is the month of a row of the full timeline, the months of the timeline
    being exactly the months that received a contribution; and the rows of
    the months that only unknown providers contributed to have eon, pgnig
    and mpwik all 0. *)
Theorem unknown_providers (numToString : Q -> string) (cd : ChartData) (out : list Row) :
  no_month_provider (series cd) -> List.Forall wf_series (series cd) ->
  allMonthly numToString (Some cd) = Returns out ->
  exists E,
    contributions (series cd) = Returns E /\
    allMonthly numToString (Some (only_known cd))
    = Returns (List.filter (fun row => known_key E (month row)) out) /\
    (forall row p, In row out -> known_key E (month row) = false -> In p tracked ->
       vals row !! p = Some (round2 0)) /\
    (forall k, In k (map month out) <-> In k (map ev_key E)) /\
    (forall s d start months k,
       In s (series cd) -> In d (data s) ->
       is_estimate d = false -> Qeq_bool (or0 (cost_gross d)) 0 = false ->
       truthy (period_start d) = Some start ->
       getMonthsBetween start (default start (truthy (period_end d))) = Returns months ->
       In (Some k) months ->
       exists row, In row out /\ month row = k /\
         (known (provider s) = false -> known_key E k = false ->
          forall p, In p tracked -> vals row !! p = Some (round2 0))).
Proof.
  intros Hno _ Hout. rewrite allMonthly_events in Hout.
  destruct (contributions (series cd)) as [E|] eqn:HE; [|discriminate].
  cbn [bind] in Hout. injection Hout as <-.
  pose proof (contributions_no_month _ _ Hno HE) as Hprov.
  pose proof (table_of_fold numToString E Hprov) as Htable.
  set (E' := List.filter (fun e => known (ev_provider e)) E).
  assert (Hprov' : List.Forall (fun e => ev_provider e <> "month") E').
  { apply List.Forall_forall. intros e He. apply List.filter_In in He as [He _].
    exact (proj1 (List.Forall_forall _ _) Hprov e He). }
  pose proof (table_of_fold numToString E' Hprov') as Htable'.
  set (pm := fold_left (apply_event numToString) E []) in *.
  set (pm' := fold_left (apply_event numToString) E' []) in *.
  assert (Hzero : forall row p, In row (rows_of_table pm) ->
                    known_key E (month row) = false -> In p tracked ->
                    vals row !! p = Some (round2 0)).
  { intros row p Hin Hk Hp.
    rewrite (rows_of_table_vals E pm Htable row p Hin).
    assert (Hkn : existsb (String.eqb p) tracked = true).
    { apply List.existsb_exists. exists p. split; [exact Hp|apply String.eqb_refl]. }
    rewrite Hkn, amounts_unknown_key by assumption. reflexivity. }
  exists E. split; [reflexivity|]. split; [|split; [exact Hzero|split]].
  2:{ intros k. exact (rows_of_table_keys E pm Htable k). }
  2:{ intros s d start months k Hs Hd Hest Hc Hst Hm Hk.
      pose proof (contributions_In _ _ _ _ _ _ _ HE Hs Hd Hest Hc Hst Hm Hk) as Hkey.
      apply (rows_of_table_keys E pm Htable) in Hkey.
      apply List.in_map_iff in Hkey as (row & Hrow & Hin).
      exists row. split; [exact Hin|]. split; [exact Hrow|].
      intros _ Hunk p Hp. apply Hzero; [exact Hin| |exact Hp]. now rewrite Hrow. }
  - rewrite allMonthly_events. unfold only_known. cbn [series].
    rewrite (contributions_only_known _ _ HE). cbn [bind]. fold E'. fold pm'. f_equal.
    apply (strict_sorted_eq month).
    + exact (rows_of_table_sorted E' pm' Htable').
    + apply strict_filter. exact (rows_of_table_sorted E pm Htable).
    + assert (Hsame : forall k r r', dict_get pm k = Some r -> dict_get pm' k = Some r' ->
                                     project r' = project r).
      { intros k r r' Hr Hr'.
        destruct (to_rows _ _ Htable k r Hr) as [Hm Hv].
        destruct (to_rows _ _ Htable' k r' Hr') as [Hm' Hv'].
        apply project_ext; [congruence|]. intros p Hp.
        rewrite Hv, Hv'. now apply slot_filter_known. }
      intros row. rewrite List.filter_In, !rows_of_table_In by eassumption. split.
      * intros (r' & Hget' & ->). rewrite project_month in *.
        assert (Hk : In (month r') (map ev_key E')).
        { apply (to_keys _ _ Htable'). congruence. }
        assert (HkE : dict_get pm (month r') <> None).
        { apply (to_keys _ _ Htable). apply List.in_map_iff in Hk as (e & He & Hin).
          apply List.filter_In in Hin as [Hin _]. apply List.in_map_iff. now exists e. }
        destruct (dict_get pm (month r')) as [r|] eqn:Hget; [|contradiction].
        split; [|now apply known_key_In].
        exists r. split; [reflexivity|]. exact (Hsame _ _ _ Hget Hget').
      * intros [(r & Hget & ->) Hk]. rewrite project_month in *.
        apply known_key_In in Hk. fold E' in Hk. apply (to_keys _ _ Htable') in Hk.
        destruct (dict_get pm' (month r)) as [r'|] eqn:Hget'; [|contradiction].
        exists r'. split; [reflexivity|]. symmetry. exact (Hsame _ _ _ Hget Hget').
Qed.

Lemma unknown_providers_witness :
  exists E,
    contributions (series cd_sample) = Returns E /\
    allMonthly integer_text (Some (only_known cd_sample))
    = Returns (List.filter (fun row => known_key E (month row)) sample_timeline) /\
    exists row, In row sample_timeline /\ month row = "2024-03"%string /\
                forall p, In p tracked -> vals row !! p = Some (round2 0).
Proof.
  destruct (unknown_providers integer_text cd_sample sample_timeline cd_sample_no_month
              cd_sample_wf)
    as (E & HE & Hout & _ & _ & Hrows).
  - vm_compute. reflexivity.
  - exists E. split; [exact HE|]. split; [exact Hout|].
    destruct (Hrows {| provider := "tauron"; data := [ bill "2024-02-01" "2024-03-31" 100 ] |}
                (bill "2024-02-01" "2024-03-31" 100) "2024-02-01"%string
                [Some "2024-02"; Some "2024-03"]%string "2024-03"%string)
      as (row & Hin & Hmonth & Hzero).
    + right. left. reflexivity.
    + left. reflexivity.
    + reflexivity.
    + reflexivity.
    + reflexivity.
    + vm_compute. reflexivity.
    + right. left. reflexivity.
    + exists row. split; [exact Hin|]. split; [exact Hmonth|].
      apply Hzero; [reflexivity|].
      vm_compute in HE. injection HE as <-. vm_compute. reflexivity.
Defined.

(** C8, the claim as stated fails: a bill of an unknown provider puts a row
    for its month on the timeline, with eon, pgnig and mpwik all 0; without
    the bill the timeline is empty. *)
Lemma unknown_provider_row :
  (forall numToString,
     allMonthly numToString (Some cd_unknown)
     = Returns [ {| month := "2024-05";
                    vals := {[ "eon" := round2 0; "pgnig" := round2 0; "mpwik" := round2 0 ]}
                 |} ]) /\
  (forall numToString, allMonthly numToString (Some (only_known cd_unknown)) = Returns []).
Proof. split; intros numToString; vm_compute; reflexivity. Qed.

(** C9 (as amended). In exact (rational) arithmetic: for every input whose
    dates are well-formed with a four-digit year from 1000 on and in which
    no series names its provider "month", [allMonthly] returns, and its rows
    are strictly ascending in the lexicographic order of their keys, hence
    one per key; the keys are exactly the month keys that received a
    contribution and are zero-padded "YYYY-MM" texts, distinct for distinct
    calendar months, on which the lexicographic order is the chronological
    one; every row has exactly the fields eon, pgnig and mpwik, each the
    exact sum of the contributions of that provider to that month (0 without
    any) rounded to the nearest multiple of 0.01, ties going up.  (The
    program computes in doubles, where a sum can fall just below a tie that
    the exact sum reaches; the values are stated for rational arithmetic.) *)
Theorem timeline_rows (numToString : Q -> string) (cd : ChartData) :
  no_month_provider (series cd) -> List.Forall wf_series (series cd) ->
  exists out E,
    allMonthly numToString (Some cd) = Returns out /\
    contributions (series cd) = Returns E /\
    StronglySorted (key_lt month) out /\
    List.NoDup (map month out) /\
    (forall k, In k (map month out) <-> In k (map ev_key E)) /\
    (forall k, In k (map month out) -> wf_key k) /\
    (forall row p, In row out ->
       vals row !! p = if existsb (String.eqb p) tracked
                       then Some (round2 (Qsum (amounts E (month row) p))) else None) /\
    (forall x, exists n : Z,
       round2 x = (inject_Z n / 100)%Q /\
       (inject_Z n - (1 # 2) <= x * 100 < inject_Z n + (1 # 2))%Q) /\
    (forall y m y' m',
       0 <= y <= 9999 -> 1 <= m <= 12 -> 0 <= y' <= 9999 -> 1 <= m' <= 12 ->
       str_lt (ym_text y m) (ym_text y' m') = (month_index y m <? month_index y' m') /\
       (ym_text y m = ym_text y' m' -> y = y' /\ m = m')).
Proof.
  intros Hno Hwf.
  destruct (contributions_wf (series cd) Hwf) as (E & HE & Hkeys).
  pose proof (contributions_no_month _ _ Hno HE) as Hprov.
  pose proof (table_of_fold numToString E Hprov) as Htable.
  set (pm := fold_left (apply_event numToString) E []) in *.
  exists (rows_of_table pm), E.
  assert (Hsorted : StronglySorted (key_lt month) (rows_of_table pm))
    by exact (rows_of_table_sorted E pm Htable).
  split; [|split; [|split; [|split; [|split; [|split; [|split; [|split]]]]]]].
  - rewrite allMonthly_events, HE. reflexivity.
  - exact HE.
  - exact Hsorted.
  - now apply strict_keys_NoDup.
  - intros k. exact (rows_of_table_keys E pm Htable k).
  - intros k Hk. apply (rows_of_table_keys E pm Htable) in Hk.
    apply List.in_map_iff in Hk as (e & <- & He).
    exact (proj1 (List.Forall_forall _ _) Hkeys e He).
  - intros row p Hin. exact (rows_of_table_vals E pm Htable row p Hin).
  - exact round2_half_up.
  - intros y m y' m' Hy Hm Hy' Hm'. split; [now apply str_lt_ym_text|].
    now apply ym_text_inj.
Qed.

Lemma timeline_rows_witness :
  exists out,
    allMonthly integer_text (Some cd_sample) = Returns out /\
    StronglySorted (key_lt month) out /\
    (forall k, In k (map month out) -> wf_key k).
Proof.
  destruct (timeline_rows integer_text cd_sample cd_sample_no_month cd_sample_wf)
    as (out & E & Hout & _ & Hsorted & _ & _ & Hkeys & _).
  exists out. auto.
Defined.

(** C9, the claim as stated fails for years before 1000: the key of
    December 999 is "999-12", not zero-padded, and it sorts after the key of
    January 1000. *)
Lemma timeline_year_999 :
  (forall numToString,
     allMonthly numToString (Some cd_year_999)
     = Returns [ {| month := "1000-01";
                    vals := {[ "eon" := round2 20; "pgnig" := round2 0; "mpwik" := round2 0 ]} |};
                 {| month := "999-12";
                    vals := {[ "eon" := round2 10; "pgnig" := round2 0; "mpwik" := round2 0 ]} |} ]) /\
  (month_index 999 12 <? month_index 1000 1) = true.
Proof. split; [intros numToString|]; vm_compute; reflexivity. Qed.

(** C10. In exact arithmetic every display row has [total] equal to the sum
    of its eon, pgnig and mpwik: the chart row it is made from holds
    multiples of 0.01, so none of the four fields is changed by the final
    rounding. *)
Theorem display_total_is_sum (numToString : Q -> string) (chartData : option ChartData)
    (rows : list Row) (windowMonths : Z) (w : Window) (aggregation : Aggregation)
    (dr : DisplayRow) :
  allMonthly numToString chartData = Returns rows ->
  In dr (displayData rows windowMonths w aggregation) ->
  exists r,
    In r (chartRows rows windowMonths w aggregation) /\ dr = final_row r /\
    (d_eon dr == or0 (qvals r !! "eon"))%Q /\
    (d_pgnig dr == or0 (qvals r !! "pgnig"))%Q /\
    (d_mpwik dr == or0 (qvals r !! "mpwik"))%Q /\
    (d_total dr == or0 (qvals r !! "eon") + or0 (qvals r !! "pgnig") + or0 (qvals r !! "mpwik"))%Q /\
    (d_total dr == d_eon dr + d_pgnig dr + d_mpwik dr)%Q.
Proof.
  intros Hrows Hin. rewrite displayData_chartRows in Hin.
  apply List.in_map_iff in Hin as (r & <- & Hr). exists r.
  pose proof (chartRows_cents rows windowMonths w aggregation
                (allMonthly_cents _ _ _ Hrows)) as Hcents.
  pose proof (proj1 (List.Forall_forall _ _) Hcents r Hr) as Hc.
  pose proof (all_cents_lookup (qvals r) "eon" Hc) as He.
  pose proof (all_cents_lookup (qvals r) "pgnig" Hc) as Hp.
  pose proof (all_cents_lookup (qvals r) "mpwik" Hc) as Hm.
  unfold final_row. cbn [d_eon d_pgnig d_mpwik d_total].
  split; [exact Hr|]. split; [reflexivity|].
  rewrite !round2_of_cents by (repeat apply cents_plus; assumption).
  repeat split; reflexivity.
Qed.

Lemma display_total_witness :
  (d_total sample_display_row
   == d_eon sample_display_row + d_pgnig sample_display_row + d_mpwik sample_display_row)%Q.
Proof.
  destruct (display_total_is_sum integer_text (Some cd_sample) sample_timeline 12 sample_window
              ByQuarter sample_display_row) as (r & _ & _ & _ & _ & _ & _ & Hsum).
  - vm_compute. reflexivity.
  - vm_compute. left. reflexivity.
  - exact Hsum.
Defined.

(** * Further properties of the code *)

(** ** Termination of [getMonthsBetween] *)

Lemma small_piece_number s i :
  small_piece s i = true -> (num_piece (split s) i = None <-> nth_error (split s) i = None).
Proof.
  unfold small_piece, num_piece. destruct (nth_error (split s) i) as [t|]; [|tauto].
  intros H. apply andb_true_iff in H as [_ H].
  destruct (Number t); [split; discriminate|discriminate].
Qed.

(** X1. On date texts whose year and month, where present, are runs of
    digits that read as numbers of at most 9999, [getMonthsBetween] fails
    to return in exactly one situation: the start date has no month (it
    holds no hyphen) and its year is smaller than the year of the end date.
    Then the loop never leaves, whatever number of iterations it is given:
    the month stays [NaN], so the year is never advanced. *)
Theorem getMonthsBetween_termination (startDate endDate : string) :
  small_piece startDate 0 = true -> small_piece startDate 1 = true ->
  small_piece endDate 0 = true -> small_piece endDate 1 = true ->
  (getMonthsBetween startDate endDate = Diverges <->
   jslt (num_piece (split startDate) 0) (num_piece (split endDate) 0) = true /\
   nth_error (split startDate) 1 = None) /\
  (getMonthsBetween startDate endDate = Diverges ->
   forall fuel acc,
     months_loop fuel (num_piece (split startDate) 0) (num_piece (split startDate) 1)
       (num_piece (split endDate) 0) (num_piece (split endDate) 1) acc = Diverges).
Proof.
  intros _ Hs1 _ _.
  assert (Hiff : getMonthsBetween startDate endDate = Diverges <->
                 jslt (num_piece (split startDate) 0) (num_piece (split endDate) 0) = true /\
                 num_piece (split startDate) 1 = None).
  { unfold getMonthsBetween.
    destruct (num_piece (split startDate) 0) as [sy|] eqn:Hsy.
    2:{ cbn. split; [discriminate|intros [H _]; discriminate]. }
    destruct (num_piece (split endDate) 0) as [ey|] eqn:Hey.
    2:{ cbn. split; [discriminate|intros [H _]; discriminate]. }
    destruct (num_piece (split startDate) 1) as [sm|] eqn:Hsm.
    - destruct (months_loop_returns ey (num_piece (split endDate) 1)
                  (months_fuel (Some sy) (Some ey)) sy sm []) as [r Hr].
      + exact (num_piece_nonneg _ _ _ Hsm).
      + pose proof (num_piece_nonneg _ _ _ Hsm).
        unfold loop_measure, months_fuel. destruct (Z.ltb_spec ey sy); lia.
      + rewrite Hr. cbn [bind]. split; [discriminate|intros [_ Hn]; discriminate].
    - cbn [jslt]. destruct (Z.ltb_spec sy ey) as [Hlt|Hge].
      + rewrite months_loop_nan_month by exact Hlt. cbn [bind]. split; auto.
      + unfold months_fuel. cbn [months_loop jslt jseq jsle].
        destruct (Z.ltb_spec sy ey); [lia|]. cbn [orb]. rewrite andb_false_r.
        cbn [bind]. split; [discriminate|intros [Hn _]; discriminate]. }
  split.
  { rewrite Hiff, (small_piece_number _ _ Hs1). reflexivity. }
  intros Hd fuel acc. apply Hiff in Hd as [Hlt Hsm]. rewrite Hsm.
  destruct (num_piece (split startDate) 0) as [sy|]; [|discriminate].
  destruct (num_piece (split endDate) 0) as [ey|]; [|discriminate].
  cbn [jslt] in Hlt. apply months_loop_nan_month. lia.
Qed.

Lemma getMonthsBetween_termination_witness :
  getMonthsBetween "2023" "2024-01-31" = Diverges /\
  getMonthsBetween "2024" "2024-01-31" <> Diverges.
Proof.
  split.
  - apply (proj1 (getMonthsBetween_termination "2023" "2024-01-31"
                    eq_refl eq_refl eq_refl eq_refl)).
    split; reflexivity.
  - intros H.
    apply (proj1 (getMonthsBetween_termination "2024" "2024-01-31"
                    eq_refl eq_refl eq_refl eq_refl)) in H as [H _].
    discriminate.
Defined.

(** ** Month lists and month arithmetic *)

Lemma months_from_seq n : forall i,
  months_from n (month_of_index i)
  = map (fun k => month_of_index (i + Z.of_nat k)) (seq 0 n).
Proof.
  induction n as [|n IH]; intros i; [reflexivity|].
  cbn [months_from seq map]. f_equal; [f_equal; lia|].
  rewrite next_month_index, IH, <- seq_shift, map_map.
  apply map_ext. intros k. f_equal. lia.
Qed.

Lemma key_of_month_index i : key_of_month (month_of_index i) = key_of_index i.
Proof. reflexivity. Qed.

(** X2. The months that [getMonthsBetween] lists for a period that does not
    end before it starts are the start month advanced by 0, 1, 2, … months
    with [addMonths]: the two helpers count calendar months in the same way,
    and the last month listed is the month of the end date. *)
Theorem months_are_addMonths (sy sm : Z) (r1 : string) (ey em : Z) (r2 : string) :
  0 <= sy <= 9999 -> 1 <= sm <= 12 -> date_tail r1 ->
  0 <= ey <= 9999 -> 1 <= em <= 12 -> date_tail r2 ->
  0 < month_count sy sm ey em ->
  getMonthsBetween (date_text sy sm r1) (date_text ey em r2)
  = Returns (map (fun i => Some (addMonths (ym_text sy sm) (Z.of_nat i)))
                 (seq 0 (Z.to_nat (month_count sy sm ey em)))) /\
  addMonths (ym_text sy sm) (month_count sy sm ey em - 1) = key_of_month (ey, em).
Proof.
  intros Hsy Hsm Hr1 Hey Hem Hr2 Hn. split.
  - rewrite getMonthsBetween_dates by assumption.
    destruct (Z.ltb_spec 0 (month_count sy sm ey em)); [|lia]. f_equal.
    rewrite <- (month_of_index_index sy sm) by lia.
    rewrite months_from_seq, map_map. apply map_ext. intros k.
    rewrite key_of_month_index, addMonths_ym_text by assumption. reflexivity.
  - rewrite addMonths_ym_text by assumption.
    rewrite <- key_of_month_index. f_equal.
    rewrite <- (month_of_index_index ey em) by lia. f_equal.
    unfold month_count, month_index. lia.
Qed.

Lemma months_are_addMonths_witness :
  getMonthsBetween "2023-11-01" "2024-02-14"
  = Returns [Some (addMonths "2023-11" 0); Some (addMonths "2023-11" 1);
             Some (addMonths "2023-11" 2); Some (addMonths "2023-11" 3)].
Proof.
  exact (proj1 (months_are_addMonths 2023 11 "-01" 2024 2 "-14"
                  ltac:(lia) ltac:(lia) (date_tail_day "01")
                  ltac:(lia) ltac:(lia) (date_tail_day "14") ltac:(reflexivity))).
Defined.

(** X3. [addMonths] is additive on every key whose year and month are
    runs of digits that read as numbers below 2^31, for offsets between
    -2^31 and 2^31 (where the program counts exactly), as long as the
    intermediate month is not before January of year 0: advancing by [a]
    and then by [b] is advancing by [a + b].  In particular, on a
    zero-padded key (year 1000 to 9999) advancing by [a] and then by [-a]
    gives the key back. *)
Theorem addMonths_additive (ym : string) (y m a b : Z) :
  num_piece (split ym) 0 = Some y -> num_piece (split ym) 1 = Some m ->
  y < 2 ^ 31 -> m < 2 ^ 31 -> - 2 ^ 31 < a < 2 ^ 31 -> - 2 ^ 31 < b < 2 ^ 31 ->
  0 <= month_index y m + a ->
  addMonths (addMonths ym a) b = addMonths ym (a + b) /\
  (forall y' m', 1000 <= y' <= 9999 -> 1 <= m' <= 12 -> ym = ym_text y' m' ->
     addMonths (addMonths ym a) (- a) = ym).
Proof.
  intros Hy Hm _ _ _ _ Hi.
  assert (Hadd : forall c, addMonths (addMonths ym a) c = addMonths ym (a + c)).
  { intros c. rewrite !(addMonths_spec ym y m) by assumption.
    rewrite addMonths_key_of_index by exact Hi. f_equal. lia. }
  split; [apply Hadd|].
  intros y' m' Hy' Hm' ->. rewrite Hadd, Z.add_opp_diag_r.
  rewrite addMonths_ym_text by lia. rewrite Z.add_0_r.
  rewrite key_of_index_text by (unfold month_index; lia).
  f_equal; unfold month_index; Z.div_mod_to_equations; lia.
Qed.

Lemma addMonths_additive_witness :
  addMonths (addMonths "2024-03" (-5)) 17 = addMonths "2024-03" (-5 + 17).
Proof.
  exact (proj1 (addMonths_additive "2024-03" 2024 3 (-5) 17
                  ltac:(reflexivity) ltac:(reflexivity) ltac:(lia) ltac:(lia) ltac:(lia)
                  ltac:(lia) ltac:(vm_compute; discriminate))).
Defined.

(** ** The billed amounts and the table *)

Lemma dated_truthy d :
  dated d = true <-> is_estimate d = false /\ exists s, truthy (period_start d) = Some s.
Proof.
  unfold dated, absent. destruct (is_estimate d); cbn.
  - split; [discriminate|intros [H _]; discriminate].
  - destruct (truthy (period_start d)) as [s|]; cbn.
    + split; [intros _; split; [reflexivity|now exists s]|reflexivity].
    + split; [discriminate|intros [_ [s H]]; discriminate].
Qed.

Lemma record_events_total p d es :
  record_events p d = Returns es ->
  (Qsum (map ev_amount es) == if dated d then or0 (cost_gross d) else 0)%Q.
Proof.
  unfold record_events, dated, absent. destruct (is_estimate d); cbn [negb andb].
  { intros [= <-]. reflexivity. }
  destruct (Qeq_bool (or0 (cost_gross d)) 0) eqn:Hc.
  { intros [= <-]. apply Qeq_bool_iff in Hc.
    destruct (truthy (period_start d)); cbn [negb map Qsum fold_right]; [now rewrite Hc|reflexivity]. }
  destruct (truthy (period_start d)) as [start|] eqn:Hs; cbn [negb].
  2:{ intros [= <-]. reflexivity. }
  destruct (getMonthsBetween start (default start (truthy (period_end d)))) as [months|] eqn:Hm;
    [|discriminate].
  cbn [bind]. intros [= <-].
  pose proof (getMonthsBetween_nonempty _ _ _ Hm) as Hne.
  pose proof (getMonthsBetween_no_null _ _ _ (truthy_nonempty _ _ Hs) Hm) as Hsome.
  destruct (events_of_months p (perMonth (or0 (cost_gross d)) months) months Hsome) as [Hlen Hall].
  rewrite (Qsum_constant _ _ Hall), Hlen. unfold perMonth.
  assert (Hpos : ~ (inject_Z (Z.of_nat (length months)) == 0)%Q).
  { destruct months; [contradiction|]. cbn [length]. rewrite Nat2Z.inj_succ.
    unfold Qeq, inject_Z. cbn. lia. }
  field. exact Hpos.
Qed.

Lemma data_events_total p ds : forall E,
  data_events p ds = Returns E ->
  (Qsum (map ev_amount E)
   == Qsum (map (fun d => or0 (cost_gross d)) (List.filter dated ds)))%Q.
Proof.
  induction ds as [|d ds IH]; intros E; cbn [data_events].
  { intros [= <-]. reflexivity. }
  destruct (record_events p d) as [es|] eqn:Hes; [|discriminate]. cbn [bind].
  destruct (data_events p ds) as [rest|] eqn:Hrest; [|discriminate]. cbn [bind].
  intros [= <-]. rewrite map_app, Qsum_app, (IH rest eq_refl), (record_events_total _ _ _ Hes).
  cbn [List.filter]. destruct (dated d); [rewrite map_cons, Qsum_cons; reflexivity|ring].
Qed.

Lemma filter_of_provider_same p E :
  List.Forall (fun e => ev_provider e = p) E -> List.filter (of_provider p) E = E.
Proof.
  intros H. apply filter_all. apply List.Forall_forall. intros e He.
  unfold of_provider. rewrite (proj1 (List.Forall_forall _ _) H e He). apply String.eqb_refl.
Qed.

Lemma filter_of_provider_other p q E :
  p <> q -> List.Forall (fun e => ev_provider e = q) E -> List.filter (of_provider p) E = [].
Proof.
  intros Hne H. apply filter_none. apply List.Forall_forall. intros e He.
  unfold of_provider. rewrite (proj1 (List.Forall_forall _ _) H e He).
  apply String.eqb_neq. congruence.
Qed.

Lemma contributions_total p ss : forall E,
  contributions ss = Returns E ->
  (Qsum (map ev_amount (List.filter (of_provider p) E)) == billed p ss)%Q.
Proof.
  induction ss as [|s ss IH]; intros E; cbn [contributions].
  { intros [= <-]. reflexivity. }
  destruct (data_events (provider s) (data s)) as [es|] eqn:Hes; [|discriminate]. cbn [bind].
  destruct (contributions ss) as [rest|] eqn:Hrest; [|discriminate]. cbn [bind].
  intros [= <-]. rewrite List.filter_app, map_app, Qsum_app, (IH rest eq_refl).
  pose proof (data_events_provider _ _ _ Hes) as Hprov.
  unfold billed. cbn [List.filter]. destruct (String.eqb_spec (provider s) p) as [Heq|Hne].
  - rewrite filter_of_provider_same by (now rewrite <- Heq).
    cbn [flat_map]. rewrite List.filter_app, map_app, Qsum_app.
    now rewrite (data_events_total _ _ _ Hes).
  - rewrite (filter_of_provider_other p (provider s)) by (auto; congruence).
    cbn [map]. change (Qsum []) with 0%Q. ring.
Qed.

Lemma table_column numToString p E : forall pm,
  List.Forall (fun e => ev_provider e <> "month") E ->
  (column p (dict_values (fold_left (apply_event numToString) E pm))
   == column p (dict_values pm) + Qsum (map ev_amount (List.filter (of_provider p) E)))%Q.
Proof.
  induction E as [|e E IH]; intros pm HE; cbn [fold_left List.filter].
  { cbn [map]. change (Qsum []) with 0%Q. ring. }
  inversion HE as [|? ? He HE']; subst.
  rewrite (IH _ HE'), (apply_event_column _ _ _ _ He).
  destruct (of_provider p e); [rewrite map_cons, Qsum_cons|]; ring.
Qed.

(** X4. Nothing is lost or counted twice by the allocation loops: when the
    providers have ordinary names (none is "month", the label of a row, and
    none is a name inherited from [Object.prototype]), in the table that the
    loops leave, the values stored for a provider add up, over all months,
    to the amount that the provider billed (the costs of its records that
    are not estimates and have a start date), in exact arithmetic and before
    the rounding of the output rows. *)
Theorem table_conserves_billed (numToString : Q -> string) (ss : list Series)
    (providerMonths : dict Row) (p : string) :
  no_month_provider ss -> plain_providers ss = true -> inherited p = false ->
  series_loop numToString ss [] = Returns providerMonths ->
  (column p (dict_values providerMonths) == billed p ss)%Q.
Proof.
  intros Hno _ _ Hloop. rewrite series_loop_events in Hloop.
  destruct (contributions ss) as [E|] eqn:HE; [|discriminate].
  cbn [bind] in Hloop. injection Hloop as <-.
  rewrite table_column by exact (contributions_no_month _ _ Hno HE).
  rewrite (contributions_total p ss E HE).
  unfold column. cbn [dict_values map]. change (Qsum []) with 0%Q. ring.
Qed.

Lemma table_conserves_billed_witness :
  exists providerMonths,
    series_loop integer_text (series cd_sample) [] = Returns providerMonths /\
    (column "pgnig" (dict_values providerMonths) == 200)%Q.
Proof.
  eexists. split; [vm_compute; reflexivity|].
  rewrite (table_conserves_billed integer_text (series cd_sample) _ "pgnig" cd_sample_no_month
             eq_refl eq_refl)
    by (vm_compute; reflexivity).
  vm_compute. reflexivity.
Defined.

(** ** Rounding of the rows *)

Lemma round2_error x : (- (1 # 200) <= round2 x - x <= 1 # 200)%Q.
Proof.
  destruct (round2_half_up x) as (n & -> & Hlo & Hhi).
  generalize dependent (inject_Z n). intros q Hlo Hhi.
  assert (E : (q / 100 == q * (1 # 100))%Q) by (field; discriminate).
  rewrite E. split; lra.
Qed.

Lemma project_val0 r p :
  In p tracked -> val0 (vals (project r)) p = round2 (val0 (vals r) p).
Proof.
  intros Hp. unfold val0 at 1. rewrite project_vals.
  assert (Hkn : existsb (String.eqb p) tracked = true).
  { apply List.existsb_exists. exists p. split; [exact Hp|apply String.eqb_refl]. }
  rewrite Hkn. apply round2_comp, or0_val0.
Qed.

Lemma column_project_error p l :
  In p tracked ->
  (- (inject_Z (Z.of_nat (length l)) * (1 # 200))
   <= column p (map project l) - column p l
   <= inject_Z (Z.of_nat (length l)) * (1 # 200))%Q.
Proof.
  intros Hp. induction l as [|r l IH].
  - unfold column. cbn. split; discriminate.
  - unfold column in *. cbn [map length]. rewrite !Qsum_cons, Nat2Z.inj_succ.
    rewrite (project_val0 r p Hp).
    pose proof (round2_error (val0 (vals r) p)) as Hr.
    unfold Z.succ. rewrite inject_Z_plus. cbn [inject_Z] in *.
    change (inject_Z 1) with 1%Q. lra.
Qed.

(** X5. In exact arithmetic, the rounding of the rows costs at most half a
    cent per row: for each of eon, pgnig and mpwik, the values of the
    timeline add up to the amount billed by that provider, up to 0.005 times
    the number of rows.  (The program allocates and rounds in doubles, whose
    own error comes on top and is not modelled.) *)
Theorem timeline_total_error (numToString : Q -> string) (cd : ChartData)
    (out : list Row) (p : string) :
  no_month_provider (series cd) ->
  allMonthly numToString (Some cd) = Returns out ->
  In p tracked ->
  (Qabs (column p out - billed p (series cd))
   <= inject_Z (Z.of_nat (length out)) * (1 # 200))%Q.
Proof.
  intros Hno Hout Hp. rewrite allMonthly_events in Hout.
  destruct (contributions (series cd)) as [E|] eqn:HE; [|discriminate].
  cbn [bind] in Hout. injection Hout as <-.
  set (pm := fold_left (apply_event numToString) E []).
  unfold rows_of_table. fold pm.
  set (l := sort_by month (dict_values pm)).
  assert (Hperm : Permutation l (dict_values pm)) by apply sort_by_perm.
  assert (Hexact : (column p l == billed p (series cd))%Q).
  { unfold column. rewrite (Qsum_perm _ _ (Permutation_map _ Hperm)).
    fold (column p (dict_values pm)). unfold pm.
    rewrite table_column by exact (contributions_no_month _ _ Hno HE).
    rewrite (contributions_total p _ E HE).
    unfold column. cbn [dict_values map]. change (Qsum []) with 0%Q. ring. }
  rewrite length_map. pose proof (column_project_error p l Hp) as Herr.
  apply Qabs_Qle_condition. rewrite <- Hexact. exact Herr.
Qed.

Lemma timeline_total_error_witness :
  (Qabs (column "pgnig" sample_timeline - billed "pgnig" (series cd_sample))
   <= inject_Z (Z.of_nat (length sample_timeline)) * (1 # 200))%Q.
Proof.
  apply (timeline_total_error integer_text cd_sample sample_timeline "pgnig" cd_sample_no_month).
  - vm_compute. reflexivity.
  - right. left. reflexivity.
Defined.

(** ** The window as a range of months *)

Lemma ym_text_date y m : ym_text y m = date_text y m EmptyString.
Proof. unfold date_text. now rewrite append_nil_r. Qed.

Lemma key_index_ym_text y m :
  0 <= y <= 9999 -> 1 <= m <= 12 -> key_index (ym_text y m) = month_index y m.
Proof.
  intros Hy Hm. unfold key_index. rewrite ym_text_date.
  destruct (num_pieces_date_text y m EmptyString) as (-> & -> & _); [lia|lia|now left|reflexivity].
Qed.

Lemma str_le_ym_text y m y' m' :
  0 <= y <= 9999 -> 1 <= m <= 12 -> 0 <= y' <= 9999 -> 1 <= m' <= 12 ->
  str_le (ym_text y m) (ym_text y' m') = (month_index y m <=? month_index y' m').
Proof.
  intros Hy Hm Hy' Hm'. unfold str_le, String.leb.
  rewrite compare_ym_text by assumption. unfold Z.leb.
  destruct (month_index y m ?= month_index y' m'); reflexivity.
Qed.

Lemma wf_key_index k :
  wf_key k ->
  exists y m, 1000 <= y <= 9999 /\ 1 <= m <= 12 /\ k = ym_text y m /\ key_index k = month_index y m.
Proof.
  intros (y & m & Hy & Hm & ->). exists y, m. repeat split; try lia.
  apply key_index_ym_text; lia.
Qed.

Lemma ym_text_nonempty y m : truthy (Some (ym_text y m)) = Some (ym_text y m).
Proof. reflexivity. Qed.

(** A strictly increasing list of integers within [lo, hi] has at most
    [hi - lo + 1] elements. *)
Lemma increasing_length (l : list Z) : forall lo hi,
  StronglySorted Z.lt l -> List.Forall (fun i => lo <= i <= hi) l ->
  lo <= hi + 1 -> Z.of_nat (length l) <= hi - lo + 1.
Proof.
  induction l as [|x l IH]; intros lo hi Hs Hin Hle; [cbn; lia|].
  inversion Hs as [|? ? Hs' Hx]; subst. inversion Hin as [|? ? Hx0 Hin']; subst.
  cbn [length]. rewrite Nat2Z.inj_succ.
  assert (Z.of_nat (length l) <= hi - (x + 1) + 1); [|lia].
  apply IH; [exact Hs'| |lia].
  apply List.Forall_forall. intros i Hi.
  pose proof (proj1 (List.Forall_forall _ _) Hx i Hi) as H1.
  pose proof (proj1 (List.Forall_forall _ _) Hin' i Hi) as H2. cbv beta in H1, H2. lia.
Qed.

Lemma sorted_key_index (rows : list Row) :
  StronglySorted (key_lt month) rows -> List.Forall (fun r => wf_key (month r)) rows ->
  StronglySorted Z.lt (map (fun r => key_index (month r)) rows).
Proof.
  induction 1 as [|r rows Hs IH Hr]; intros Hwf; [constructor|].
  inversion Hwf as [|? ? Hr0 Hwf']; subst. cbn [map]. constructor; [now apply IH|].
  apply List.Forall_forall. intros i Hi. apply List.in_map_iff in Hi as (r' & <- & Hr').
  pose proof (proj1 (List.Forall_forall _ _) Hr r' Hr') as Hlt.
  pose proof (proj1 (List.Forall_forall _ _) Hwf' r' Hr') as Hk'.
  destruct (wf_key_index _ Hr0) as (y & m & Hy & Hm & Hk & ->).
  destruct (wf_key_index _ Hk') as (y' & m' & Hy' & Hm' & Hk2 & ->).
  unfold key_lt in Hlt. unfold key_lt in Hlt. rewrite Hk, Hk2 in Hlt. rewrite str_lt_ym_text in Hlt by lia.
  now apply Z.ltb_lt in Hlt.
Qed.

Lemma allMonthly_sorted_wf numToString cd rows :
  no_month_provider (series cd) -> List.Forall wf_series (series cd) ->
  allMonthly numToString (Some cd) = Returns rows ->
  StronglySorted (key_lt month) rows /\ List.Forall (fun r => wf_key (month r)) rows.
Proof.
  intros Hno Hwf Hout. rewrite allMonthly_events in Hout.
  destruct (contributions_wf (series cd) Hwf) as (E & HE & Hkeys).
  rewrite HE in Hout. cbn [bind] in Hout. injection Hout as <-.
  pose proof (contributions_no_month _ _ Hno HE) as Hprov.
  pose proof (table_of_fold numToString E Hprov) as Htable.
  split; [exact (rows_of_table_sorted E _ Htable)|].
  apply List.Forall_forall. intros r Hr.
  assert (Hk : In (month r) (map ev_key E)).
  { apply (rows_of_table_keys E _ Htable). apply List.in_map_iff. now exists r. }
  apply List.in_map_iff in Hk as (e & <- & He).
  exact (proj1 (List.Forall_forall _ _) Hkeys e He).
Qed.

Lemma month_index_of_index i : month_index (i / 12) (i mod 12 + 1) = i.
Proof. unfold month_index. Z.div_mod_to_equations; lia. Qed.

Lemma computeWindow_keys (first : Row) (rest : list Row) (y2 m2 windowMonths offset : Z) :
  month (List.last (first :: rest) first) = ym_text y2 m2 ->
  0 <= y2 <= 9999 -> 1 <= m2 <= 12 -> windowMonths <> 0 ->
  0 <= month_index y2 m2 - offset ->
  computeWindow (first :: rest) windowMonths offset
  = {| windowStart := Some (key_of_index (month_index y2 m2 - offset - (windowMonths - 1)));
       windowEnd := Some (key_of_index (month_index y2 m2 - offset));
       canGoBack := str_lt (month first)
                      (key_of_index (month_index y2 m2 - offset - (windowMonths - 1)));
       canGoForward := 0 <? offset |}.
Proof.
  intros Hlast Hy Hm Hw He. unfold computeWindow.
  destruct (Z.eqb_spec windowMonths 0); [contradiction|].
  rewrite Hlast, addMonths_ym_text by assumption.
  rewrite addMonths_key_of_index by lia.
  replace (month_index y2 m2 + - offset + - (windowMonths - 1))
    with (month_index y2 m2 - offset - (windowMonths - 1)) by lia.
  replace (month_index y2 m2 + - offset) with (month_index y2 m2 - offset) by lia.
  reflexivity.
Qed.

Lemma last_In {A : Type} (x : A) (l : list A) : In (List.last (x :: l) x) (x :: l).
Proof. rewrite last_nth. apply nth_In. cbn [length]. lia. Qed.

Lemma final_chart_period r : d_period (final_row (chart_row r)) = month r.
Proof. reflexivity. Qed.

(** X6. The text comparison of the window filter selects a range of
    calendar months: for well-formed input (four-digit years from 1000 on),
    a width above 0 and an offset of at least 0, the rows shown month by
    month are exactly the rows of the timeline whose month is not before the
    month [windowMonths - 1] months before the end of the window and not
    after that end, in the order of the timeline, as long as the window does
    not start before January 1000; there are at most [windowMonths] of
    them. *)
Theorem window_is_month_range (numToString : Q -> string) (cd : ChartData)
    (first : Row) (rest : list Row) (windowMonths offset : Z) :
  no_month_provider (series cd) -> List.Forall wf_series (series cd) ->
  allMonthly numToString (Some cd) = Returns (first :: rest) ->
  0 < windowMonths -> 0 <= offset ->
  let rows := first :: rest in
  let e := key_index (month (List.last rows first)) - offset in
  let s := e - (windowMonths - 1) in
  let w := computeWindow rows windowMonths offset in
  let shown := List.filter (fun r => between s e (key_index (month r))) rows in
  month_index 1000 1 <= s ->
  windowStart w = Some (key_of_index s) /\
  windowEnd w = Some (key_of_index e) /\
  filtered rows windowMonths w = shown /\
  map d_period (displayData rows windowMonths w ByMonth) = map month shown /\
  Z.of_nat (length (displayData rows windowMonths w ByMonth)) <= windowMonths.
Proof.
  intros Hno Hwf Hout Hw Ho rows e s w shown Hs.
  destruct (allMonthly_sorted_wf _ _ _ Hno Hwf Hout) as [Hsorted Hkeys]. fold rows in Hsorted, Hkeys.
  pose proof (proj1 (List.Forall_forall _ _) Hkeys _ (last_In first rest)) as Hlast.
  destruct (wf_key_index _ Hlast) as (y2 & m2 & Hy2 & Hm2 & Hk2 & Hi2).
  assert (He : e = month_index y2 m2 - offset) by (unfold e, rows; now rewrite Hi2).
  assert (Hrange : month_index 1000 1 <= s <= e /\ e <= month_index 9999 12).
  { unfold s in *. rewrite He in *. unfold month_index in *. lia. }
  assert (Hwin : w = {| windowStart := Some (ym_text (s / 12) (s mod 12 + 1));
                        windowEnd := Some (ym_text (e / 12) (e mod 12 + 1));
                        canGoBack := str_lt (month first) (ym_text (s / 12) (s mod 12 + 1));
                        canGoForward := 0 <? offset |}).
  { assert (He0 : 0 <= month_index y2 m2 - offset) by (unfold month_index in *; lia).
    unfold w, rows. rewrite (computeWindow_keys first rest y2 m2) by (try assumption; lia).
    rewrite <- He. fold s. rewrite !key_of_index_text by lia. reflexivity. }
  assert (Hshown : filtered rows windowMonths w = shown).
  { unfold filtered. rewrite Hwin. cbn [windowStart windowEnd].
    destruct (Z.ltb_spec 0 windowMonths); [|lia]. rewrite !ym_text_nonempty.
    unfold shown. apply List.filter_ext_in. intros r Hr.
    pose proof (proj1 (List.Forall_forall _ _) Hkeys r Hr) as Hk.
    destruct (wf_key_index _ Hk) as (y & m & Hy & Hm & -> & ->).
    assert (Hsb : 0 <= s / 12 <= 9999 /\ 1 <= s mod 12 + 1 <= 12)
      by (unfold month_index in Hrange; Z.div_mod_to_equations; lia).
    assert (Heb : 0 <= e / 12 <= 9999 /\ 1 <= e mod 12 + 1 <= 12)
      by (unfold month_index in Hrange; Z.div_mod_to_equations; lia).
    rewrite !str_le_ym_text by lia. rewrite !month_index_of_index. reflexivity. }
  split; [|split; [|split; [exact Hshown|split]]].
  - rewrite Hwin. cbn [windowStart]. now rewrite key_of_index_text by lia.
  - rewrite Hwin. cbn [windowEnd]. now rewrite key_of_index_text by lia.
  - unfold rows at 1. cbn [displayData chartRows]. fold rows. rewrite Hshown, !map_map.
    apply map_ext. intros r. apply final_chart_period.
  - unfold rows at 1. cbn [displayData chartRows]. fold rows. rewrite Hshown, !length_map.
    assert (Hlen : Z.of_nat (length (map (fun r => key_index (month r)) shown)) <= e - s + 1).
    { apply increasing_length; [| |lia].
      - apply sorted_key_index; [now apply strict_filter|].
        apply List.Forall_forall. intros r Hr. apply List.filter_In in Hr as [Hr _].
        exact (proj1 (List.Forall_forall _ _) Hkeys r Hr).
      - apply List.Forall_forall. intros i Hi. apply List.in_map_iff in Hi as (r & <- & Hr).
        apply List.filter_In in Hr as [_ Hb]. unfold between in Hb. lia. }
    rewrite length_map in Hlen. unfold s in Hlen. lia.
Qed.

Lemma window_is_month_range_witness :
  map d_period (displayData sample_timeline 2 (computeWindow sample_timeline 2 0) ByMonth)
  = ["2024-02"; "2024-03"]%string /\
  Z.of_nat (length (displayData sample_timeline 2 (computeWindow sample_timeline 2 0) ByMonth)) <= 2.
Proof.
  pose proof (window_is_month_range integer_text cd_sample
                (List.hd {| month := ""; vals := ∅ |} sample_timeline) (List.tl sample_timeline)
                2 0 cd_sample_no_month cd_sample_wf
                ltac:(vm_compute; reflexivity) ltac:(lia) ltac:(lia)) as H.
  cbv zeta in H.
  destruct (H ltac:(vm_compute; discriminate)) as (_ & _ & _ & Hshown & Hlen).
  split; [|exact Hlen]. etransitivity; [exact Hshown|]. vm_compute. reflexivity.
Defined.

(** ** Paging *)

Lemma stepSize_bounds w : 0 < w -> 1 <= stepSize w <= w.
Proof. intros Hw. unfold stepSize. Z.div_mod_to_equations; lia. Qed.

(** X7. Paging back never skips a month.  On a timeline whose last key is a
    well-formed "YYYY-MM", with a width above 0 and an offset of at least 0,
    the window after [goBack] ends strictly before the end of the window
    before it, and not before the month that precedes its start: the two
    windows overlap, or are adjacent when the width is 1.  (The months are
    named by their index; the end of the new window must not fall before
    year 0.) *)
Theorem paging_back_overlaps (first : Row) (rest : list Row) (y2 m2 : Z) (st : State) :
  month (List.last (first :: rest) first) = ym_text y2 m2 ->
  0 <= y2 <= 9999 -> 1 <= m2 <= 12 ->
  0 < st_windowMonths st -> 0 <= st_offset st ->
  let rows := first :: rest in
  let before := computeWindow rows (st_windowMonths st) (st_offset st) in
  let after := computeWindow rows (st_windowMonths (goBack st)) (st_offset (goBack st)) in
  let e1 := month_index y2 m2 - st_offset st in
  let s1 := e1 - (st_windowMonths st - 1) in
  let e2 := e1 - stepSize (st_windowMonths st) in
  0 <= e2 ->
  windowStart before = Some (key_of_index s1) /\
  windowEnd before = Some (key_of_index e1) /\
  windowEnd after = Some (key_of_index e2) /\
  windowStart after = Some (key_of_index (s1 - stepSize (st_windowMonths st))) /\
  s1 - 1 <= e2 < e1 /\
  (2 <= st_windowMonths st -> s1 <= e2) /\
  canGoForward after = true.
Proof.
  intros Hlast Hy Hm Hw Ho rows before after e1 s1 e2 He2.
  pose proof (stepSize_bounds _ Hw) as Hstep.
  unfold before, after, rows. destruct st as [w o a].
  cbn [goBack st_windowMonths st_offset] in *.
  rewrite !(computeWindow_keys first rest y2 m2) by (try assumption; lia).
  cbn [windowStart windowEnd canGoForward].
  fold e1. fold s1.
  replace (month_index y2 m2 - (o + stepSize w)) with e2 by (unfold e2, e1; lia).
  replace (e2 - (w - 1)) with (s1 - stepSize w) by (unfold e2, s1; lia).
  repeat split; try reflexivity; try (unfold e2, s1 in *; lia).
  intros Hw2. unfold e2, s1, stepSize in *. Z.div_mod_to_equations; lia.
Qed.

Lemma paging_back_overlaps_witness :
  windowStart (computeWindow two_rows 12 0) = Some (key_of_index (month_index 2024 1)) /\
  windowEnd (computeWindow two_rows 12 6) = Some (key_of_index (month_index 2024 6)).
Proof.
  pose proof (paging_back_overlaps {| month := "2022-01"; vals := ∅ |}
                [ {| month := "2024-12"; vals := ∅ |} ] 2024 12
                {| st_windowMonths := 12; st_offset := 0; st_aggregation := ByMonth |}
                ltac:(reflexivity) ltac:(lia) ltac:(lia) ltac:(cbn; lia) ltac:(cbn; lia)) as H.
  cbv zeta in H.
  destruct (H ltac:(vm_compute; discriminate)) as (Hs & _ & He & _).
  split; [exact Hs|exact He].
Defined.

Lemma act_aligned st a :
  (0 <= st_offset st /\ exists k, 0 <= k /\ st_offset st = k * stepSize (st_windowMonths st)) ->
  0 <= st_offset (act st a) /\
  exists k, 0 <= k /\ st_offset (act st a) = k * stepSize (st_windowMonths (act st a)).
Proof.
  intros (Ho & k & Hk & Heq). destruct st as [w o ag]. cbn [st_offset st_windowMonths] in *.
  assert (Hs : 1 <= stepSize w) by (unfold stepSize; lia).
  destruct a as [| |months|ag']; cbn [act goBack goForward handleWindowChange setAggregation
                                       st_offset st_windowMonths].
  - split; [lia|]. exists (k + 1). split; [lia|]. lia.
  - split; [lia|]. destruct (Z.eq_dec k 0) as [->|Hk0].
    + exists 0. split; [lia|]. lia.
    + exists (k - 1). split; [lia|]. subst o. nia.
  - split; [lia|]. exists 0. split; lia.
  - split; [lia|]. now exists k.
Qed.

(** X8. The offset stays a multiple of the stride.  After any sequence of
    clicks on the toolbar of a freshly mounted component (paging back and
    forward, choosing a time range, choosing an aggregation) the offset is
    at least 0 and a whole number of strides of the current time range; so
    not only does stepping forward undo a step back, stepping back also
    undoes a step forward whenever the forward button is enabled (the offset
    is above 0): the clamp at 0 in [goForward] never cuts a step short. *)
Theorem paging_aligned (clicks : list Action) :
  0 <= st_offset (run clicks) /\
  (exists k, 0 <= k /\
     st_offset (run clicks) = k * stepSize (st_windowMonths (run clicks))) /\
  (0 < st_offset (run clicks) -> goBack (goForward (run clicks)) = run clicks) /\
  goForward (goBack (run clicks)) = run clicks.
Proof.
  assert (Hinv : 0 <= st_offset (run clicks) /\
                 exists k, 0 <= k /\
                   st_offset (run clicks) = k * stepSize (st_windowMonths (run clicks))).
  { unfold run.
    apply (fold_left_snoc_ind act (fun _ st =>
             0 <= st_offset st /\
             exists k, 0 <= k /\ st_offset st = k * stepSize (st_windowMonths st))).
    - split; [cbn; lia|]. exists 0. split; [lia|reflexivity].
    - intros l x acc H. now apply act_aligned. }
  destruct Hinv as (Ho & k & Hk & Heq).
  split; [exact Ho|]. split; [now exists k|].
  destruct (run clicks) as [w o a]. cbn [st_offset st_windowMonths] in *.
  assert (Hs : 1 <= stepSize w) by (unfold stepSize; lia).
  unfold goBack, goForward. cbn [st_offset st_windowMonths st_aggregation].
  split.
  - intros Hpos. f_equal. assert (1 <= k) by nia. nia.
  - f_equal. lia.
Qed.

(** ** Labels of months and quarters *)

Lemma truthy_Some s : s <> EmptyString -> truthy (Some s) = Some s.
Proof. destruct s; [contradiction|reflexivity]. Qed.

Lemma formatYM_date y m rest :
  0 <= y <= 9999 -> 0 <= m <= 99 -> date_tail rest ->
  formatYM (Some (date_text y m rest)) = month_name m +:+ " " +:+ four_digits y.
Proof.
  intros Hy Hm Hr. unfold formatYM.
  rewrite truthy_Some by apply date_text_nonempty.
  destruct (num_pieces_date_text y m rest Hy Hm Hr) as (_ & _ & -> & ->).
  rewrite parseInt_two_digits by exact Hm. reflexivity.
Qed.

Lemma month_name_proper m :
  1 <= m <= 12 ->
  In (month_name m)
     ["Sty"; "Lut"; "Mar"; "Kwi"; "Maj"; "Cze"; "Lip"; "Sie"; "Wrz"; "Paź"; "Lis"; "Gru"]%string.
Proof.
  intros Hm.
  assert (H : m = 1 \/ m = 2 \/ m = 3 \/ m = 4 \/ m = 5 \/ m = 6 \/ m = 7 \/ m = 8 \/ m = 9 \/
              m = 10 \/ m = 11 \/ m = 12) by lia.
  repeat (destruct H as [->|H]; [vm_compute; tauto|]). subst. vm_compute. tauto.
Qed.

Lemma month_name_beyond m : 13 <= m -> month_name m = "undefined"%string.
Proof.
  intros Hm. unfold month_name, at_index. destruct (Z.ltb_spec m 0); [lia|].
  apply nth_overflow. cbn [MONTHS_PL length]. lia.
Qed.

(** X9. [formatYM] on a date or month text "YYYY-MM…": for the months 01
    to 12 the label is the short Polish name of the month, a blank and the
    year; for month 00 the name is empty, so the label starts with the
    blank; for the months 13 to 99 the label reads "undefined YYYY".  An
    absent or empty argument gives the empty label. *)
Theorem formatYM_labels (y m : Z) (rest : string) :
  0 <= y <= 9999 -> 0 <= m <= 99 -> date_tail rest ->
  formatYM (Some (date_text y m rest)) = month_name m +:+ " " +:+ four_digits y /\
  (1 <= m <= 12 ->
   In (month_name m)
      ["Sty"; "Lut"; "Mar"; "Kwi"; "Maj"; "Cze"; "Lip"; "Sie"; "Wrz"; "Paź"; "Lis"; "Gru"]%string) /\
  (m = 0 -> formatYM (Some (date_text y m rest)) = " " +:+ four_digits y) /\
  (13 <= m -> formatYM (Some (date_text y m rest)) = "undefined " +:+ four_digits y) /\
  formatYM None = EmptyString /\ formatYM (Some EmptyString) = EmptyString.
Proof.
  intros Hy Hm Hr. rewrite formatYM_date by assumption.
  split; [reflexivity|]. split; [apply month_name_proper|].
  split; [intros ->; reflexivity|]. split; [|split; reflexivity].
  intros H13. rewrite month_name_beyond by exact H13. reflexivity.
Qed.

Lemma formatYM_labels_witness :
  formatYM (Some "2024-03-15") = "Mar 2024"%string.
Proof.
  exact (proj1 (formatYM_labels 2024 3 "-15" ltac:(lia) ltac:(lia) (date_tail_day "15"))).
Defined.

Lemma blank_split_inj (a a' t t' : string) :
  no_blank a = true -> no_blank a' = true ->
  a +:+ " " +:+ t = a' +:+ " " +:+ t' -> a = a' /\ t = t'.
Proof.
  revert a'. induction a as [|c a IH]; intros [|c' a'] Ha Ha' H.
  - rewrite !append_nil_l, !append_cons, !append_nil_l in H. now injection H.
  - rewrite append_nil_l, !append_cons in H. injection H as Hc _.
    cbn [no_blank] in Ha'. rewrite <- Hc in Ha'. discriminate.
  - rewrite append_nil_l, !append_cons in H. injection H as Hc _.
    cbn [no_blank] in Ha. rewrite Hc in Ha. discriminate.
  - rewrite !append_cons in H. injection H as Hc H.
    cbn [no_blank] in Ha, Ha'. apply andb_prop in Ha as [_ Ha]. apply andb_prop in Ha' as [_ Ha'].
    destruct (IH a' Ha Ha' H) as [-> ->]. now subst.
Qed.

Lemma month_name_no_blank m : no_blank (month_name m) = true.
Proof.
  unfold month_name, at_index. destruct (Z.ltb_spec m 0) as [Hm|Hm]; [reflexivity|].
  assert (Hall : forall n, no_blank (nth n MONTHS_PL "undefined") = true).
  { intros n. do 14 (destruct n as [|n]; [reflexivity|]). destruct n; reflexivity. }
  apply Hall.
Qed.

Lemma month_name_inj m m' :
  1 <= m <= 12 -> 1 <= m' <= 12 -> month_name m = month_name m' -> m = m'.
Proof.
  intros Hm Hm' H. unfold month_name, at_index in H.
  destruct (Z.ltb_spec m 0); [lia|]. destruct (Z.ltb_spec m' 0); [lia|].
  assert (Hnd : List.NoDup MONTHS_PL).
  { apply NoDup_ListNoDup. apply (bool_decide_unpack _). vm_compute. reflexivity. }
  apply (proj1 (List.NoDup_nth MONTHS_PL "undefined") Hnd) in H;
    [lia| |]; cbn [MONTHS_PL length]; lia.
Qed.

Lemma four_digits_inj y y' :
  0 <= y <= 9999 -> 0 <= y' <= 9999 -> four_digits y = four_digits y' -> y = y'.
Proof.
  intros Hy Hy' H. apply (f_equal Number) in H.
  rewrite !Number_four_digits in H by assumption. congruence.
Qed.

(** X10. Distinct months have distinct labels: on the keys "YYYY-MM" of
    well-formed months, [formatYM] is injective. *)
Theorem formatYM_injective (y m y' m' : Z) :
  0 <= y <= 9999 -> 1 <= m <= 12 -> 0 <= y' <= 9999 -> 1 <= m' <= 12 ->
  formatYM (Some (ym_text y m)) = formatYM (Some (ym_text y' m')) ->
  y = y' /\ m = m'.
Proof.
  intros Hy Hm Hy' Hm' H. rewrite !ym_text_date in H.
  rewrite !formatYM_date in H by (try lia; now left).
  apply blank_split_inj in H as [Hn Hd]; try apply month_name_no_blank.
  split; [now apply four_digits_inj|now apply month_name_inj].
Qed.

Lemma formatYM_injective_witness :
  formatYM (Some (ym_text 2024 3)) = "Mar 2024"%string /\ 2024 = 2024 /\ 3 = 3.
Proof.
  split; [reflexivity|].
  exact (formatYM_injective 2024 3 2024 3 ltac:(lia) ltac:(lia) ltac:(lia) ltac:(lia) eq_refl).
Defined.

Lemma quarter_number m : 1 <= m <= 12 -> 1 <= (m + 2) / 3 <= 4.
Proof. intros Hm. Z.div_mod_to_equations; lia. Qed.

Lemma quarter_label y q :
  0 <= y <= 9999 -> 1 <= q <= 4 ->
  formatPeriodLabel (four_digits y +:+ "-Q" +:+ nat_digits q) ByQuarter
  = "Q" +:+ nat_digits q +:+ " " +:+ four_digits y.
Proof.
  intros Hy Hq. unfold formatPeriodLabel.
  rewrite !append_cons, append_nil_l.
  rewrite split_digits_hyphen by now apply all_digits_four_digits.
  rewrite nat_digits_small by lia.
  assert (H : q = 1 \/ q = 2 \/ q = 3 \/ q = 4) by lia.
  destruct H as [ -> | [ -> | [ -> | -> ] ] ]; reflexivity.
Qed.

Lemma filtered_In rows windowMonths w r : In r (filtered rows windowMonths w) -> In r rows.
Proof.
  unfold filtered. destruct (0 <? windowMonths); [|auto].
  destruct (truthy (windowStart w)); [|auto]. destruct (truthy (windowEnd w)); [|auto].
  intros H. now apply List.filter_In in H.
Qed.

Lemma aggregateToQuarters_period rows q :
  In q (aggregateToQuarters rows) -> exists r, In r rows /\ period q = toQuarter (month r).
Proof.
  intros Hq. pose proof (quarters_of_fold rows) as H.
  assert (Hin : In (period q) (map period (aggregateToQuarters rows)))
    by (apply List.in_map_iff; now exists q).
  apply (Permutation_in _ (aggregateToQuarters_periods rows)) in Hin.
  destruct (proj1 (qo_keys _ _ H (period q))) as (r & Hr & Hk).
  - intros Hnone. now apply dict_get_None_keys in Hnone.
  - now exists r.
Qed.

(** X11. The labels under the charts are always proper.  For well-formed
    input, every row that [displayData] shows, in either aggregation and for
    every window, has a period whose label from [formatPeriodLabel] is the
    name of a month and a four-digit year ("Mar 2024"), or the quarter and
    the year ("Q1 2024"): never "undefined". *)
Theorem displayed_labels (numToString : Q -> string) (cd : ChartData) (rows : list Row)
    (windowMonths : Z) (w : Window) (aggregation : Aggregation) (dr : DisplayRow) :
  no_month_provider (series cd) -> List.Forall wf_series (series cd) ->
  allMonthly numToString (Some cd) = Returns rows ->
  In dr (displayData rows windowMonths w aggregation) ->
  exists y m,
    1000 <= y <= 9999 /\ 1 <= m <= 12 /\
    match aggregation with
    | ByMonth =>
        d_period dr = ym_text y m /\
        formatPeriodLabel (d_period dr) ByMonth = month_name m +:+ " " +:+ four_digits y /\
        month_name m <> "undefined"%string /\ month_name m <> EmptyString
    | ByQuarter =>
        d_period dr = four_digits y +:+ "-Q" +:+ nat_digits ((m + 2) / 3) /\
        formatPeriodLabel (d_period dr) ByQuarter
        = "Q" +:+ nat_digits ((m + 2) / 3) +:+ " " +:+ four_digits y
    end.
Proof.
  intros Hno Hwf Hout Hin.
  destruct (allMonthly_sorted_wf _ _ _ Hno Hwf Hout) as [_ Hkeys].
  rewrite displayData_chartRows in Hin. apply List.in_map_iff in Hin as (q & <- & Hq).
  assert (Hr : exists r, In r rows /\
                 period q = match aggregation with
                            | ByMonth => month r
                            | ByQuarter => toQuarter (month r)
                            end).
  { destruct aggregation; cbn [chartRows] in Hq.
    - apply List.in_map_iff in Hq as (r & <- & Hr). exists r.
      split; [now apply filtered_In in Hr|reflexivity].
    - apply aggregateToQuarters_period in Hq as (r & Hr & Hp). exists r.
      split; [now apply filtered_In in Hr|exact Hp]. }
  destruct Hr as (r & Hr & Hp).
  destruct (proj1 (List.Forall_forall _ _) Hkeys r Hr) as (y & m & Hy & Hm & Hk).
  exists y, m. split; [exact Hy|]. split; [exact Hm|].
  change (d_period (final_row q)) with (period q). rewrite Hp, Hk.
  destruct aggregation.
  - split; [reflexivity|]. split.
    + unfold formatPeriodLabel. rewrite ym_text_date.
      apply formatYM_date; [lia|lia|now left].
    + pose proof (month_name_proper m Hm) as Hn. cbn [In] in Hn.
      split; intros Heq; rewrite Heq in Hn;
        repeat (destruct Hn as [Hn|Hn]; [discriminate|]); exact Hn.
  - rewrite toQuarter_ym_text by lia. split; [reflexivity|].
    apply quarter_label; [lia|now apply quarter_number].
Qed.

Lemma displayed_labels_witness :
  exists y m,
    1000 <= y <= 9999 /\ 1 <= m <= 12 /\
    formatPeriodLabel (d_period sample_display_row) ByQuarter
    = "Q" +:+ nat_digits ((m + 2) / 3) +:+ " " +:+ four_digits y.
Proof.
  destruct (displayed_labels integer_text cd_sample sample_timeline 12 sample_window ByQuarter
              sample_display_row cd_sample_no_month cd_sample_wf
              ltac:(vm_compute; reflexivity) ltac:(vm_compute; left; reflexivity))
    as (y & m & Hy & Hm & _ & Hlabel).
  exists y, m. auto.
Defined.

(** X12. The label of the toolbar names the window that is shown.  On a
    timeline whose last key is a well-formed "YYYY-MM", for a width above 0
    and an offset of at least 0 (the window not starting before January
    1000), [windowLabel] is the label of the first month of the window, a
    dash, and the label of its last month; it is "Cały zakres" when the
    time range is the whole timeline (width 0) and when the timeline is
    empty. *)
Theorem windowLabel_names_window (first : Row) (rest : list Row)
    (y2 m2 windowMonths offset : Z) :
  month (List.last (first :: rest) first) = ym_text y2 m2 ->
  0 <= y2 <= 9999 -> 1 <= m2 <= 12 -> 0 < windowMonths -> 0 <= offset ->
  let e := month_index y2 m2 - offset in
  let s := e - (windowMonths - 1) in
  month_index 1000 1 <= s ->
  windowLabel (computeWindow (first :: rest) windowMonths offset) windowMonths
  = (month_name (s mod 12 + 1) +:+ " " +:+ four_digits (s / 12))
    +:+ " — " +:+ (month_name (e mod 12 + 1) +:+ " " +:+ four_digits (e / 12)) /\
  windowLabel (computeWindow (first :: rest) 0 offset) 0 = "Cały zakres"%string /\
  windowLabel (computeWindow [] windowMonths offset) windowMonths = "Cały zakres"%string.
Proof.
  intros Hlast Hy Hm Hw Ho e s Hs.
  assert (Hrange : month_index 1000 1 <= s <= e /\ e <= month_index 9999 12 /\ 0 <= e)
    by (unfold s, e, month_index in *; lia).
  split; [|split; [|reflexivity]].
  2:{ unfold windowLabel, computeWindow. cbn [Z.eqb windowStart windowEnd].
      destruct (truthy (Some (month first))); [|reflexivity].
      destruct (truthy (Some (month (List.last (first :: rest) first)))); reflexivity. }
  rewrite (computeWindow_keys first rest y2 m2) by (try assumption; lia).
  fold e. fold s. rewrite !key_of_index_text by lia.
  unfold windowLabel. cbn [windowStart windowEnd]. rewrite !ym_text_nonempty.
  destruct (Z.ltb_spec 0 windowMonths); [|lia].
  rewrite !ym_text_date.
  rewrite !formatYM_date
    by (first [now left|unfold month_index in Hrange; Z.div_mod_to_equations; lia]).
  reflexivity.
Qed.

Lemma windowLabel_names_window_witness :
  windowLabel (computeWindow two_rows 12 0) 12 = "Sty 2024 — Gru 2024"%string.
Proof.
  pose proof (windowLabel_names_window {| month := "2022-01"; vals := ∅ |}
                [ {| month := "2024-12"; vals := ∅ |} ] 2024 12 12 0
                ltac:(reflexivity) ltac:(lia) ltac:(lia) ltac:(lia) ltac:(lia)) as H.
  cbv zeta in H.
  exact (proj1 (H ltac:(vm_compute; discriminate))).
Defined.

(** ** Grouping of the series *)

Lemma existsb_eqb_In x l : existsb (String.eqb x) l = true <-> In x l.
Proof.
  rewrite List.existsb_exists. split.
  - intros (y & Hy & Heq). apply String.eqb_eq in Heq. now subst.
  - intros H. exists x. split; [exact H|apply String.eqb_refl].
Qed.

Lemma dict_ensure_keys {V : Type} k (v : V) d :
  map fst (dict_ensure k v d)
  = if existsb (String.eqb k) (map fst d) then map fst d else map fst d ++ [k].
Proof.
  unfold dict_ensure. destruct (dict_get d k) as [x|] eqn:Hget.
  - assert (Hin : In k (map fst d)).
    { destruct (List.in_dec string_dec k (map fst d)) as [H|H]; [exact H|].
      apply dict_get_None_keys in H. congruence. }
    apply existsb_eqb_In in Hin. now rewrite Hin.
  - apply dict_get_None_keys in Hget.
    destruct (existsb (String.eqb k) (map fst d)) eqn:Hex.
    + apply existsb_eqb_In in Hex. contradiction.
    + rewrite map_app. reflexivity.
Qed.


Section Grouping.
Context {A : Type} (key : A -> string).

Lemma push_by_get g x k :
  dict_get (push_by key g x) k
  = if String.eqb (key x) k then Some (default [] (dict_get g (key x)) ++ [x])
    else dict_get g k.
Proof. unfold push_by. exact (dict_get_upsert (fun l => l ++ [x]) (key x) [] g k). Qed.

Lemma grouping_by l :
  List.NoDup (map fst (fold_left (push_by key) l [])) /\
  forall k, dict_get (fold_left (push_by key) l []) k
            = match List.filter (fun x => String.eqb (key x) k) l with
              | [] => None
              | group => Some group
              end.
Proof.
  apply (fold_left_snoc_ind (push_by key) (fun l g =>
           List.NoDup (map fst g) /\
           forall k, dict_get g k = match List.filter (fun x => String.eqb (key x) k) l with
                                    | [] => None
                                    | group => Some group
                                    end)).
  - split; [constructor|reflexivity].
  - intros l' x g [Hnd Hget]. split.
    + unfold push_by. rewrite dict_alter_keys. now apply dict_ensure_keys_NoDup.
    + intros k. rewrite push_by_get, List.filter_app. cbn [List.filter].
      destruct (String.eqb_spec (key x) k) as [<-|Hne].
      * rewrite Hget. destruct (List.filter (fun x0 => String.eqb (key x0) (key x)) l'); reflexivity.
      * rewrite app_nil_r. apply Hget.
Qed.

Lemma keys_first_seen_by l :
  map fst (fold_left (push_by key) l []) = first_seen (map key l).
Proof.
  apply (fold_left_snoc_ind (push_by key)
           (fun l g => map fst g = first_seen (map key l))); [reflexivity|].
  intros l' x g Hg. unfold push_by. rewrite dict_alter_keys, dict_ensure_keys, Hg.
  unfold first_seen. rewrite map_app, fold_left_app. reflexivity.
Qed.

Lemma groups_by l k group :
  In (k, group) (fold_left (push_by key) l []) <->
  group = List.filter (fun x => String.eqb (key x) k) l /\ group <> [].
Proof.
  destruct (grouping_by l) as [Hnd Hget]. split.
  - intros Hin. pose proof (dict_In_get _ _ _ Hnd Hin) as H. rewrite Hget in H.
    destruct (List.filter (fun x => String.eqb (key x) k) l); [discriminate|].
    injection H as <-. split; [reflexivity|discriminate].
  - intros [-> Hne]. apply dict_get_In. rewrite Hget.
    now destruct (List.filter (fun x => String.eqb (key x) k) l).
Qed.

End Grouping.

(** ** The summary cards *)

(** *** Grouping by provider *)

Lemma grouping ss :
  let g := fold_left push_series ss [] in
  List.NoDup (map fst g) /\
  forall p, dict_get g p = match List.filter (same_provider p) ss with
                           | [] => None
                           | l => Some l
                           end.
Proof. exact (grouping_by provider ss). Qed.

Lemma keys_first_seen ss :
  map fst (fold_left push_series ss []) = first_seen (map provider ss).
Proof. exact (keys_first_seen_by provider ss). Qed.

(** *** The months of a record *)

Lemma end_or_start_wf d start :
  wf_record d -> truthy (period_start d) = Some start ->
  wf_date start /\ wf_date (default start (truthy (period_end d))).
Proof.
  intros [Hs He] Hstart. split; [now apply Hs|].
  destruct (truthy (period_end d)) as [e|] eqn:Hend; cbn [default]; [now apply He|now apply Hs].
Qed.

Lemma months_of_wf d start :
  wf_record d -> truthy (period_start d) = Some start ->
  getMonthsBetween start (default start (truthy (period_end d))) = Returns (months_of d) /\
  List.Forall (fun ym => exists k, ym = Some k /\ wf_key k) (months_of d).
Proof.
  intros Hwf Hstart. destruct (end_or_start_wf d start Hwf Hstart) as [Hs He].
  destruct (getMonthsBetween_wf _ _ Hs He) as (months & Hm & Hall).
  unfold months_of. rewrite Hstart, Hm. auto.
Qed.

Lemma window_filter_wf ws we ds :
  List.Forall wf_record ds ->
  window_filter ws we ds = Returns (List.filter (touches ws we) ds).
Proof.
  induction 1 as [|d ds Hd Hds IH]; [reflexivity|].
  cbn [window_filter List.filter]. rewrite IH.
  destruct (truthy (period_start d)) as [start|] eqn:Hstart.
  - destruct (months_of_wf d start Hd Hstart) as [-> _]. reflexivity.
  - unfold touches, months_of. rewrite Hstart. reflexivity.
Qed.

(** *** The total of a card *)

Lemma filter_omap_Some {A B : Type} (f : A -> B) (P : B -> bool) (Q' : option A -> bool)
    (l : list (option A)) :
  (forall a, P (f a) = Q' (Some a)) ->
  List.Forall (fun o => o <> None) l ->
  length (List.filter P (omap (option_map f) l)) = length (List.filter Q' l).
Proof.
  intros HPQ. induction 1 as [|o l Ho Hl IH]; [reflexivity|].
  destruct o as [a|]; [|contradiction].
  assert (Hc : omap (option_map f) (Some a :: l) = f a :: omap (option_map f) l) by reflexivity.
  rewrite Hc. cbn [List.filter]. rewrite HPQ.
  destruct (Q' (Some a)); cbn [length]; now rewrite IH.
Qed.

Lemma filter_true {A : Type} (l : list A) : List.filter (fun _ => true) l = l.
Proof. induction l as [|x l IH]; [reflexivity|]. cbn [List.filter]. now rewrite IH. Qed.

Lemma Forall_filter_keep {A : Type} (P : A -> Prop) (f : A -> bool) l :
  List.Forall P l -> List.Forall P (List.filter f l).
Proof.
  intros H. apply List.Forall_forall. intros x Hx. apply List.filter_In in Hx as [Hx _].
  exact (proj1 (List.Forall_forall _ _) H x Hx).
Qed.

Lemma cost_step_events win p t d es :
  is_estimate d = false -> record_events p d = Returns es ->
  exists t', cost_step win t d = Returns t' /\
             (t' == t + Qsum (map ev_amount (List.filter (event_in win) es)))%Q.
Proof.
  intros Hest Hes. pose proof (record_events_total p d es Hes) as Htotal.
  unfold record_events in Hes. unfold cost_step, dated, absent in *. rewrite Hest in *.
  destruct (Qeq_bool (or0 (cost_gross d)) 0) eqn:Hc.
  { injection Hes as <-. exists t. split; [reflexivity|]. cbn. ring. }
  destruct (truthy (period_start d)) as [start|] eqn:Hs.
  2:{ injection Hes as <-. exists t. split; [reflexivity|]. cbn. ring. }
  destruct (getMonthsBetween start (default start (truthy (period_end d)))) as [months|] eqn:Hm;
    [|discriminate].
  cbn [bind] in *. injection Hes as <-. cbn [negb andb] in Htotal.
  pose proof (getMonthsBetween_no_null _ _ _ (truthy_nonempty _ _ Hs) Hm) as Hsome.
  set (q := perMonth (or0 (cost_gross d)) months) in *.
  destruct (events_of_months p q months Hsome) as [Hlen Hall].
  destruct win as [[ws we]|].
  - eexists. split; [reflexivity|].
    rewrite (Qsum_constant q) by now apply Forall_filter_keep.
    unfold event_in.
    rewrite (filter_omap_Some (fun k => (p, k, q)) _ (in_window ws we)); [ring| |exact Hsome].
    reflexivity.
  - eexists. split; [reflexivity|]. unfold event_in. rewrite filter_true, Htotal. reflexivity.
Qed.

Lemma data_events_cons p d ds :
  data_events p (d :: ds)
  = do es <- record_events p d; do rest <- data_events p ds; Returns (es ++ rest).
Proof. reflexivity. Qed.

Lemma cost_loop_events win p ds : forall t E,
  List.Forall (fun d => is_estimate d = false) ds ->
  data_events p ds = Returns E ->
  exists t', cost_loop win ds t = Returns t' /\
             (t' == t + Qsum (map ev_amount (List.filter (event_in win) E)))%Q.
Proof.
  induction ds as [|d ds IH]; intros t E Hest HE.
  { injection HE as <-. exists t. split; [reflexivity|]. cbn. ring. }
  inversion Hest as [|? ? Hd Hds]; subst. rewrite data_events_cons in HE.
  destruct (record_events p d) as [es|] eqn:Hes; [|discriminate]. cbn [bind] in HE.
  destruct (data_events p ds) as [rest|] eqn:Hrest; [|discriminate]. cbn [bind] in HE.
  injection HE as <-.
  destruct (cost_step_events win p t d es Hd Hes) as (t1 & Hstep & Ht1).
  destruct (IH t1 rest Hds eq_refl) as (t2 & Hloop & Ht2).
  exists t2. split; [cbn [cost_loop]; rewrite Hstep; exact Hloop|].
  rewrite Ht2, Ht1, List.filter_app, map_app, Qsum_app. ring.
Qed.

Lemma In_omap_Some {A B : Type} (f : A -> B) (l : list (option A)) b :
  In b (omap (option_map f) l) -> exists a, In (Some a) l /\ b = f a.
Proof.
  induction l as [|o l IH]; [contradiction|].
  destruct o as [a|].
  - change (omap (option_map f) (Some a :: l)) with (f a :: omap (option_map f) l).
    intros [<-|H]; [exists a; split; [now left|reflexivity]|].
    destruct (IH H) as (a' & Ha' & ->). exists a'. split; [now right|reflexivity].
  - change (omap (option_map f) (None :: l)) with (omap (option_map f) l).
    intros H. destruct (IH H) as (a' & Ha' & ->). exists a'. split; [now right|reflexivity].
Qed.

Lemma record_events_keys p d es e :
  record_events p d = Returns es -> In e es -> In (Some (ev_key e)) (months_of d).
Proof.
  unfold record_events, months_of. destruct (is_estimate d); [intros [= <-]; contradiction|].
  destruct (Qeq_bool (or0 (cost_gross d)) 0); [intros [= <-]; contradiction|].
  destruct (truthy (period_start d)) as [start|]; [|intros [= <-]; contradiction].
  destruct (getMonthsBetween start (default start (truthy (period_end d)))) as [months|];
    [|discriminate].
  cbn [bind]. intros [= <-] He. apply In_omap_Some in He as (k & Hk & ->). exact Hk.
Qed.

Lemma untouched_events ws we p d es :
  record_events p d = Returns es -> touches ws we d = false ->
  List.filter (event_in (Some (ws, we))) es = [].
Proof.
  intros Hes Ht. apply filter_none. apply List.Forall_forall. intros e He.
  pose proof (record_events_keys p d es e Hes He) as Hk.
  unfold touches in Ht. unfold event_in.
  destruct (in_window ws we (Some (ev_key e))) eqn:Hw; [|reflexivity].
  assert (existsb (in_window ws we) (months_of d) = true); [|congruence].
  apply List.existsb_exists. now exists (Some (ev_key e)).
Qed.

Lemma data_events_touching ws we p ds : forall E,
  data_events p ds = Returns E ->
  exists E', data_events p (List.filter (touches ws we) ds) = Returns E' /\
             List.filter (event_in (Some (ws, we))) E' = List.filter (event_in (Some (ws, we))) E.
Proof.
  induction ds as [|d ds IH]; intros E HE.
  { injection HE as <-. now exists []. }
  rewrite data_events_cons in HE.
  destruct (record_events p d) as [es|] eqn:Hes; [|discriminate]. cbn [bind] in HE.
  destruct (data_events p ds) as [rest|] eqn:Hrest; [|discriminate]. cbn [bind] in HE.
  injection HE as <-. destruct (IH rest eq_refl) as (E' & HE' & Hsame).
  cbn [List.filter]. destruct (touches ws we d) eqn:Ht.
  - exists (es ++ E'). split; [rewrite data_events_cons, Hes, HE'; reflexivity|].
    rewrite !List.filter_app. now rewrite Hsame.
  - exists E'. split; [exact HE'|].
    rewrite List.filter_app, (untouched_events ws we p d es Hes Ht). exact Hsame.
Qed.

Lemma data_events_not_estimates p ds : forall E,
  data_events p ds = Returns E ->
  data_events p (List.filter (fun d => negb (is_estimate d)) ds) = Returns E.
Proof.
  induction ds as [|d ds IH]; intros E HE; [exact HE|].
  rewrite data_events_cons in HE.
  destruct (record_events p d) as [es|] eqn:Hes; [|discriminate]. cbn [bind] in HE.
  destruct (data_events p ds) as [rest|] eqn:Hrest; [|discriminate]. cbn [bind] in HE.
  injection HE as <-. cbn [List.filter]. destruct (is_estimate d) eqn:Hest; cbn [negb].
  - unfold record_events in Hes. rewrite Hest in Hes. injection Hes as <-.
    now apply IH.
  - rewrite data_events_cons, Hes, (IH rest eq_refl). reflexivity.
Qed.

Lemma data_events_app p l1 : forall l2 E1 E2,
  data_events p l1 = Returns E1 -> data_events p l2 = Returns E2 ->
  data_events p (l1 ++ l2) = Returns (E1 ++ E2).
Proof.
  induction l1 as [|d l1 IH]; intros l2 E1 E2 H1 H2.
  { injection H1 as <-. exact H2. }
  rewrite data_events_cons in H1.
  destruct (record_events p d) as [es|] eqn:Hes; [|discriminate]. cbn [bind] in H1.
  destruct (data_events p l1) as [rest|] eqn:Hrest; [|discriminate]. cbn [bind] in H1.
  injection H1 as <-. cbn [app]. rewrite data_events_cons, Hes, (IH l2 rest E2 eq_refl H2).
  cbn [bind]. now rewrite app_assoc.
Qed.

Lemma contributions_records_of p ss : forall E,
  contributions ss = Returns E ->
  data_events p (records_of p ss) = Returns (List.filter (of_provider p) E).
Proof.
  induction ss as [|s ss IH]; intros E; cbn [contributions].
  { intros [= <-]. reflexivity. }
  destruct (data_events (provider s) (data s)) as [es|] eqn:Hes; [|discriminate]. cbn [bind].
  destruct (contributions ss) as [rest|] eqn:Hrest; [|discriminate]. cbn [bind].
  intros [= <-]. rewrite List.filter_app.
  pose proof (data_events_provider _ _ _ Hes) as Hprov.
  unfold records_of. cbn [List.filter]. unfold same_provider at 1.
  destruct (String.eqb_spec (provider s) p) as [Heq|Hne].
  - rewrite filter_of_provider_same by (now rewrite <- Heq). cbn [flat_map].
    apply data_events_app; [|now apply IH].
    rewrite <- Heq. now apply data_events_not_estimates.
  - rewrite (filter_of_provider_other p (provider s)) by (auto; congruence).
    now apply IH.
Qed.

(** *** One card *)

Lemma records_of_wf p ss :
  List.Forall wf_series ss -> List.Forall wf_record (records_of p ss).
Proof.
  intros Hwf. apply List.Forall_forall. intros d Hd. unfold records_of in Hd.
  apply List.in_flat_map in Hd as (s & Hs & Hd).
  apply List.filter_In in Hs as [Hs _]. apply List.filter_In in Hd as [Hd _].
  pose proof (proj1 (List.Forall_forall _ _) Hwf s Hs) as Hser.
  exact (proj1 (List.Forall_forall _ _) Hser d Hd).
Qed.

Lemma records_of_not_estimates p ss :
  List.Forall (fun d => is_estimate d = false) (records_of p ss).
Proof.
  apply List.Forall_forall. intros d Hd. unfold records_of in Hd.
  apply List.in_flat_map in Hd as (s & Hs & Hd).
  apply List.filter_In in Hd as [_ Hd]. now destruct (is_estimate d).
Qed.

Lemma counted_sub win p ss d : In d (counted win p ss) -> In d (records_of p ss).
Proof.
  destruct win as [[ws we]|]; cbn [counted]; [|auto].
  intros H. now apply List.filter_In in H.
Qed.

Lemma counted_filter_wf win p ss :
  List.Forall wf_series ss ->
  match win with
  | Some (ws, we) => window_filter ws we (records_of p ss)
  | None => Returns (records_of p ss)
  end = Returns (counted win p ss).
Proof.
  intros Hwf. destruct win as [[ws we]|]; [|reflexivity].
  now apply window_filter_wf, records_of_wf.
Qed.

Lemma card_total_events win p ss E :
  contributions ss = Returns E ->
  cost_loop win (counted win p ss) 0%Q = Returns (card_total win p ss) /\
  (card_total win p ss
   == Qsum (map ev_amount (List.filter (event_in win) (List.filter (of_provider p) E))))%Q.
Proof.
  intros HE. pose proof (contributions_records_of p ss E HE) as Hrec.
  assert (Hcounted : exists E', data_events p (counted win p ss) = Returns E' /\
                       List.filter (event_in win) E'
                       = List.filter (event_in win) (List.filter (of_provider p) E)).
  { destruct win as [[ws we]|]; cbn [counted].
    - now apply data_events_touching.
    - eexists. split; [exact Hrec|reflexivity]. }
  destruct Hcounted as (E' & HE' & Hsame).
  destruct (cost_loop_events win p (counted win p ss) 0%Q E') as (t & Hloop & Ht).
  - apply List.Forall_forall. intros d Hd. apply counted_sub in Hd.
    exact (proj1 (List.Forall_forall _ _) (records_of_not_estimates p ss) d Hd).
  - exact HE'.
  - unfold card_total. rewrite Hloop. split; [reflexivity|]. rewrite Ht, Hsame. ring.
Qed.

Lemma card_wf win p ss :
  List.Forall wf_series ss ->
  card win p (List.filter (same_provider p) ss) = Returns (card_result win p ss).
Proof.
  intros Hwf. destruct (contributions_wf ss Hwf) as (E & HE & _).
  unfold card, card_result. destruct (dict_get PROVIDER_CONFIG p) as [cfg|]; [|reflexivity].
  fold (records_of p ss).
  pose proof (counted_filter_wf win p ss Hwf) as Hfilter.
  destruct (records_of p ss) as [|d ds] eqn:Hrec; [reflexivity|].
  rewrite Hfilter. cbn [bind].
  destruct (card_total_events win p ss E HE) as [-> _]. reflexivity.
Qed.

(** *** The loop over the providers *)

Lemma cards_loop_spec win (R : string -> completion (option Summary)) entries : forall acc,
  (forall p l, In (p, l) entries -> card win p l = Returns (R p)) ->
  cards_loop win entries acc
  = Returns (if existsb (fun p => thrown (R p)) (map fst entries) then TypeError
             else Normal (acc ++ omap (fun p => card_of (R p)) (map fst entries))).
Proof.
  induction entries as [|[p l] entries IH]; intros acc Hcard.
  { cbn. now rewrite app_nil_r. }
  cbn [cards_loop map fst existsb]. rewrite (Hcard p l) by now left. cbn [bind].
  assert (Hrest : forall p' l', In (p', l') entries -> card win p' l' = Returns (R p'))
    by (intros p' l' H; apply Hcard; now right).
  destruct (R p) as [[s|]|] eqn:HR; cbn [thrown orb].
  - rewrite IH by exact Hrest. destruct (existsb _ _); [reflexivity|].
    change (omap (fun p0 => card_of (R p0)) (p :: map fst entries))
      with (match card_of (R p) with
            | Some s' => s' :: omap (fun p0 => card_of (R p0)) (map fst entries)
            | None => omap (fun p0 => card_of (R p0)) (map fst entries)
            end).
    rewrite HR. cbn [card_of]. now rewrite <- app_assoc.
  - rewrite IH by exact Hrest. destruct (existsb _ _); [reflexivity|].
    change (omap (fun p0 => card_of (R p0)) (p :: map fst entries))
      with (match card_of (R p) with
            | Some s' => s' :: omap (fun p0 => card_of (R p0)) (map fst entries)
            | None => omap (fun p0 => card_of (R p0)) (map fst entries)
            end).
    rewrite HR. reflexivity.
  - reflexivity.
Qed.

Lemma grouping_entries ss p l :
  In (p, l) (fold_left push_series ss []) -> l = List.filter (same_provider p) ss.
Proof.
  intros Hin. destruct (grouping ss) as [Hnd Hget].
  pose proof (dict_In_get _ _ _ Hnd Hin) as H. rewrite Hget in H.
  destruct (List.filter (same_provider p) ss); [discriminate|congruence].
Qed.

Lemma grouping_keys ss p :
  In p (map fst (fold_left push_series ss [])) <-> List.filter (same_provider p) ss <> [].
Proof.
  destruct (grouping ss) as [Hnd Hget]. split.
  - intros Hin Hnil.
    apply (proj1 (dict_get_None_keys (fold_left push_series ss []) p)); [|exact Hin].
    rewrite Hget, Hnil. reflexivity.
  - intros Hne.
    destruct (List.in_dec string_dec p (map fst (fold_left push_series ss []))) as [Hin|Hnin];
      [exact Hin|].
    apply dict_get_None_keys in Hnin. rewrite Hget in Hnin.
    destruct (List.filter (same_provider p) ss); [contradiction|discriminate].
Qed.

Lemma SummaryCards_wf ss ows owe :
  List.Forall wf_series ss ->
  let win := bounds ows owe in
  let keys := map fst (fold_left push_series ss []) in
  SummaryCards ss ows owe
  = Returns (if existsb (fun p => thrown (card_result win p ss)) keys then TypeError
             else match omap (fun p => card_of (card_result win p ss)) keys with
                  | [] => Normal None
                  | summaries => Normal (Some summaries)
                  end).
Proof.
  intros Hwf win keys. unfold SummaryCards. fold win.
  rewrite (cards_loop_spec win (fun p => card_result win p ss)).
  - cbn [bind app]. fold keys. destruct (existsb _ keys); [reflexivity|].
    destruct (omap _ keys); reflexivity.
  - intros p l Hin. rewrite (grouping_entries ss p l Hin). now apply card_wf.
Qed.

Lemma config_known p : dict_get PROVIDER_CONFIG p <> None <-> known p = true.
Proof.
  unfold PROVIDER_CONFIG, known, tracked. cbn [dict_get existsb].
  rewrite !(String.eqb_sym p).
  destruct (String.eqb "eon" p); [split; [reflexivity|discriminate]|].
  destruct (String.eqb "pgnig" p); [split; [reflexivity|discriminate]|].
  destruct (String.eqb "mpwik" p); [split; [reflexivity|discriminate]|].
  split; [contradiction|discriminate].
Qed.

Lemma sort_by_length {A : Type} (key : A -> string) l : length (sort_by key l) = length l.
Proof. apply Permutation_length, sort_by_perm. Qed.

Lemma summarize_empty p cfg t : summarize p cfg [] t = TypeError.
Proof. reflexivity. Qed.

Lemma elem_last {A : Type} (l : list A) x :
  elem (l ++ [x]) (Z.of_nat (length (l ++ [x])) - 1) = Some x.
Proof.
  unfold elem. rewrite length_app. cbn [length].
  destruct (Z.ltb_spec (Z.of_nat (length l + 1) - 1) 0); [lia|].
  replace (Z.to_nat (Z.of_nat (length l + 1) - 1)) with (length l) by lia.
  rewrite nth_error_app2 by lia. now rewrite Nat.sub_diag.
Qed.

Lemma summarize_nonempty p cfg d ds t :
  exists s, summarize p cfg (d :: ds) t = Normal s /\
            s_key s = p /\ s_label s = cfg_label cfg /\ s_icon s = cfg_icon cfg /\
            s_color s = cfg_color cfg /\ s_totalCost s = t /\
            s_records s = length (d :: ds).
Proof.
  unfold summarize.
  set (sorted := sort_by (fun d0 => default EmptyString (truthy (period_start d0))) (d :: ds)).
  assert (Hlen : length sorted = S (length ds)) by (unfold sorted; now rewrite sort_by_length).
  destruct (exists_last (l := sorted)) as (front & lastRecord & Hsorted).
  { intros Hnil. rewrite Hnil in Hlen. discriminate. }
  rewrite Hsorted, elem_last. eexists. split; [reflexivity|]. cbn. repeat split; reflexivity.
Qed.

Lemma card_result_thrown win p ss :
  thrown (card_result win p ss) = true <->
  known p = true /\ records_of p ss <> [] /\ counted win p ss = [].
Proof.
  unfold card_result. pose proof (config_known p) as Hk.
  destruct (dict_get PROVIDER_CONFIG p) as [cfg|].
  2:{ split; [discriminate|]. intros [H _]. apply Hk in H. contradiction. }
  assert (Hknown : known p = true) by (apply Hk; discriminate).
  destruct (records_of p ss) as [|d ds] eqn:Hrec.
  { split; [discriminate|]. now intros (_ & H & _). }
  destruct (counted win p ss) as [|c cs] eqn:Hc.
  - rewrite summarize_empty. split; [|reflexivity]. intros _. now repeat split.
  - destruct (summarize_nonempty p cfg c cs (card_total win p ss)) as (s & -> & _).
    split; [discriminate|]. now intros (_ & _ & H).
Qed.

Lemma records_of_series p ss :
  records_of p ss <> [] -> List.filter (same_provider p) ss <> [].
Proof. unfold records_of. now destruct (List.filter (same_provider p) ss). Qed.

(** X13. The summary cards crash on an empty window.  For well-formed
    input whose providers are not named like a property inherited from
    [Object.prototype] (for which the grouping itself fails), the component
    always completes, and it throws a [TypeError] (reading [cost_gross] of
    the [undefined] last record) exactly when some provider with a
    configuration (eon, pgnig, mpwik) has records that are not estimates,
    none of which has a month inside the window; without a window it never
    throws.  The check for "no records" is made before the window filter,
    not after it. *)
Theorem SummaryCards_throws (ss : list Series) (windowStart windowEnd : option string) :
  List.Forall wf_series ss -> plain_providers ss = true ->
  (exists r, SummaryCards ss windowStart windowEnd = Returns r) /\
  (SummaryCards ss windowStart windowEnd = Returns TypeError <->
   exists p, known p = true /\ records_of p ss <> [] /\
             counted (bounds windowStart windowEnd) p ss = []) /\
  (bounds windowStart windowEnd = None ->
   SummaryCards ss windowStart windowEnd <> Returns TypeError).
Proof.
  intros Hwf _. pose proof (SummaryCards_wf ss windowStart windowEnd Hwf) as Hspec.
  cbv zeta in Hspec. set (win := bounds windowStart windowEnd) in *.
  set (keys := map fst (fold_left push_series ss [])) in *.
  assert (Hiff : SummaryCards ss windowStart windowEnd = Returns TypeError <->
                 exists p, known p = true /\ records_of p ss <> [] /\ counted win p ss = []).
  { rewrite Hspec. destruct (existsb (fun p => thrown (card_result win p ss)) keys) eqn:Hex.
    - split; [intros _|reflexivity].
      apply List.existsb_exists in Hex as (p & _ & Hp). exists p. now apply card_result_thrown.
    - split.
      + destruct (omap _ keys); discriminate.
      + intros (p & Hp). exfalso.
        assert (existsb (fun p => thrown (card_result win p ss)) keys = true); [|congruence].
        apply List.existsb_exists. exists p. split; [|now apply card_result_thrown].
        apply grouping_keys, records_of_series. tauto. }
  split; [rewrite Hspec; eauto|]. split; [exact Hiff|].
  intros Hnone Hthrow. apply Hiff in Hthrow as (p & _ & Hrec & Hc).
  rewrite Hnone in Hc. cbn [counted] in Hc. contradiction.
Qed.

Lemma cd_paging_wf : List.Forall wf_series (series cd_paging).
Proof.
  unfold cd_paging. cbn [series].
  apply List.Forall_cons; [|apply List.Forall_cons; [|apply List.Forall_nil]].
  - unfold wf_series. cbn [data].
    apply List.Forall_cons; [|apply List.Forall_cons; [|apply List.Forall_nil]]; apply wf_bill.
    + apply (wf_date_intro 2022 1 "-01"); [reflexivity|lia|lia|apply date_tail_day].
    + apply (wf_date_intro 2022 1 "-31"); [reflexivity|lia|lia|apply date_tail_day].
    + apply (wf_date_intro 2024 12 "-01"); [reflexivity|lia|lia|apply date_tail_day].
    + apply (wf_date_intro 2024 12 "-31"); [reflexivity|lia|lia|apply date_tail_day].
  - apply wf_series_single, wf_bill.
    + apply (wf_date_intro 2024 11 "-01"); [reflexivity|lia|lia|apply date_tail_day].
    + apply (wf_date_intro 2024 12 "-31"); [reflexivity|lia|lia|apply date_tail_day].
Defined.

Lemma SummaryCards_throws_witness :
  let w := computeWindow sample_paging 12 6 in
  sample_paging <> [] /\
  canGoBack (computeWindow sample_paging 12 0) = true /\
  SummaryCards (series cd_paging) (windowStart w) (windowEnd w) = Returns TypeError.
Proof.
  cbv zeta. split; [discriminate|]. split; [reflexivity|].
  apply (proj1 (proj2 (SummaryCards_throws (series cd_paging) _ _ cd_paging_wf eq_refl))).
  exists "eon"%string. split; [reflexivity|]. split; [discriminate|]. vm_compute. reflexivity.
Defined.

Lemma card_result_Some win p ss c :
  card_result win p ss = Normal (Some c) ->
  exists cfg,
    dict_get PROVIDER_CONFIG p = Some cfg /\ records_of p ss <> [] /\
    counted win p ss <> [] /\
    summarize p cfg (counted win p ss) (card_total win p ss) = Normal c /\
    s_key c = p /\ s_label c = cfg_label cfg /\ s_icon c = cfg_icon cfg /\
    s_color c = cfg_color cfg /\ s_totalCost c = card_total win p ss /\
    s_records c = length (counted win p ss).
Proof.
  unfold card_result. destruct (dict_get PROVIDER_CONFIG p) as [cfg|]; [|discriminate].
  destruct (records_of p ss) as [|d ds] eqn:Hrec; [discriminate|].
  destruct (counted win p ss) as [|x xs] eqn:Hc; [rewrite summarize_empty; discriminate|].
  destruct (summarize_nonempty p cfg x xs (card_total win p ss))
    as (s & Hs & Hkey & Hlabel & Hicon & Hcolor & Htotal & Hrecords).
  rewrite Hs. intros [= <-]. exists cfg. repeat split; auto; discriminate.
Qed.

Lemma In_omap {A B : Type} (f : A -> option B) (l : list A) b :
  In b (omap f l) <-> exists a, In a l /\ f a = Some b.
Proof.
  rewrite <- list_elem_of_In, list_elem_of_omap. split.
  - intros (a & Ha & Hf). exists a. now rewrite <- list_elem_of_In.
  - intros (a & Ha & Hf). exists a. now rewrite list_elem_of_In.
Qed.

Lemma SummaryCards_cards ss ows owe r :
  List.Forall wf_series ss ->
  SummaryCards ss ows owe = Returns (Normal r) ->
  let win := bounds ows owe in
  let keys := map fst (fold_left push_series ss []) in
  default [] r = omap (fun p => card_of (card_result win p ss)) keys /\
  (r = None <-> omap (fun p => card_of (card_result win p ss)) keys = []) /\
  existsb (fun p => thrown (card_result win p ss)) keys = false.
Proof.
  intros Hwf Hr win keys. rewrite (SummaryCards_wf ss ows owe Hwf) in Hr. cbv zeta in Hr.
  fold win in Hr. fold keys in Hr.
  destruct (existsb (fun p => thrown (card_result win p ss)) keys); [discriminate|].
  destruct (omap (fun p => card_of (card_result win p ss)) keys) as [|c cs];
    injection Hr as <-; cbn [default]; repeat split; auto; discriminate.
Qed.

Lemma card_in_cards ss ows owe r c :
  List.Forall wf_series ss ->
  SummaryCards ss ows owe = Returns (Normal r) ->
  In c (default [] r) <->
  exists p, In p (map fst (fold_left push_series ss [])) /\
            card_result (bounds ows owe) p ss = Normal (Some c).
Proof.
  intros Hwf Hr. destruct (SummaryCards_cards ss ows owe r Hwf Hr) as (-> & _ & Hno).
  rewrite In_omap. split.
  - intros (p & Hp & Hc). exists p. split; [exact Hp|].
    destruct (card_result (bounds ows owe) p ss) as [o|]; [|discriminate].
    cbn [card_of] in Hc. now subst.
  - intros (p & Hp & Hc). exists p. split; [exact Hp|]. now rewrite Hc.
Qed.

(** X14. The total of a card is the part of the bills that the chart puts
    in the window.  For well-formed input, when the cards are rendered, the
    [totalCost] of the card of a provider equals the sum of the per-month
    contributions that the allocator makes for that provider to the months
    inside the window (to all months without a window, which is the amount
    billed), in exact arithmetic. *)
Theorem card_total_is_window_share (ss : list Series) (windowStart windowEnd : option string)
    (cards : list Summary) :
  List.Forall wf_series ss ->
  SummaryCards ss windowStart windowEnd = Returns (Normal (Some cards)) ->
  exists E,
    contributions ss = Returns E /\
    forall c, In c cards ->
      (s_totalCost c
       == Qsum (map ev_amount
                  (List.filter (event_in (bounds windowStart windowEnd))
                     (List.filter (of_provider (s_key c)) E))))%Q /\
      (bounds windowStart windowEnd = None -> (s_totalCost c == billed (s_key c) ss)%Q).
Proof.
  intros Hwf Hcards. destruct (contributions_wf ss Hwf) as (E & HE & _).
  exists E. split; [exact HE|]. intros c Hc.
  apply (card_in_cards ss windowStart windowEnd (Some cards) c Hwf Hcards) in Hc
    as (p & _ & Hres).
  apply card_result_Some in Hres as (cfg & _ & _ & _ & _ & Hkey & _ & _ & _ & Htotal & _).
  destruct (card_total_events (bounds windowStart windowEnd) p ss E HE) as [_ Hsum].
  rewrite Htotal, Hkey. split; [exact Hsum|].
  intros Hnone. rewrite Hsum, Hnone. unfold event_in. rewrite filter_true.
  now apply contributions_total.
Qed.

Lemma card_total_is_window_share_witness :
  exists E,
    contributions (series cd_paging) = Returns E /\
    forall c,
      In c [ {| s_key := "eon"; s_label := "e.on (prąd)"; s_icon := Zap; s_color := "#eab308";
                s_totalCost := 120; s_records := 1; s_lastCost := Some 120%Q;
                s_costTrend := None |};
             {| s_key := "mpwik"; s_label := "MPWiK (woda)"; s_icon := Droplets;
                s_color := "#3b82f6"; s_totalCost := 120 # 2; s_records := 1;
                s_lastCost := Some 60%Q; s_costTrend := None |} ] ->
      (s_totalCost c
       == Qsum (map ev_amount
                  (List.filter (event_in (Some ("2024-01", "2024-12")%string))
                     (List.filter (of_provider (s_key c)) E))))%Q.
Proof.
  destruct (card_total_is_window_share (series cd_paging) (Some "2024-01") (Some "2024-12") _
              cd_paging_wf ltac:(vm_compute; reflexivity)) as (E & HE & Hall).
  exists E. split; [exact HE|]. intros c Hc. exact (proj1 (Hall c Hc)).
Defined.

(** *** The cards and their order *)

Lemma card_result_None win p ss :
  card_result win p ss = Normal None -> known p && has_records p ss = false.
Proof.
  unfold card_result, has_records. pose proof (config_known p) as Hk.
  destruct (dict_get PROVIDER_CONFIG p) as [cfg|].
  - destruct (records_of p ss) as [|d ds]; [intros _; apply andb_false_r|].
    destruct (summarize p cfg (counted win p ss) (card_total win p ss)); discriminate.
  - intros _. destruct (known p); [|reflexivity]. exfalso. now apply Hk.
Qed.

Lemma card_keys (f : string -> option Summary) (g : string -> bool) keys :
  (forall p, In p keys ->
     match f p with Some c => s_key c = p /\ g p = true | None => g p = false end) ->
  map s_key (omap f keys) = List.filter g keys.
Proof.
  induction keys as [|p keys IH]; intros H; [reflexivity|].
  change (omap f (p :: keys))
    with (match f p with Some c => c :: omap f keys | None => omap f keys end).
  pose proof (H p (or_introl eq_refl)) as Hp. cbn [List.filter].
  assert (Hrest : map s_key (omap f keys) = List.filter g keys)
    by (apply IH; intros q Hq; apply H; now right).
  destruct (f p) as [c|].
  - destruct Hp as [Hk ->]. cbn [map]. now rewrite Hk, Hrest.
  - now rewrite Hp.
Qed.

(** X15. Which cards are rendered.  For well-formed input, when the
    component does not throw, there is one card for each provider with a
    configuration (eon, pgnig, mpwik) that has a record which is not an
    estimate, in the order in which the providers first occur in the series:
    at most three cards, no provider twice, none for other providers.  A
    card carries the label, icon and colour of its provider's configuration,
    and counts the records of the provider that are not estimates and, under
    a window, have a month in it: at least one.  The component returns
    [null] exactly when there is no card. *)
Theorem cards_rendered (ss : list Series) (windowStart windowEnd : option string)
    (r : option (list Summary)) :
  List.Forall wf_series ss ->
  SummaryCards ss windowStart windowEnd = Returns (Normal r) ->
  map s_key (default [] r)
  = List.filter (fun p => known p && has_records p ss) (first_seen (map provider ss)) /\
  List.NoDup (map s_key (default [] r)) /\
  (length (default [] r) <= 3)%nat /\
  (r = None <-> default [] r = []) /\
  forall c, In c (default [] r) ->
    exists cfg,
      dict_get PROVIDER_CONFIG (s_key c) = Some cfg /\
      s_label c = cfg_label cfg /\ s_icon c = cfg_icon cfg /\ s_color c = cfg_color cfg /\
      s_records c = length (counted (bounds windowStart windowEnd) (s_key c) ss) /\
      (1 <= s_records c)%nat.
Proof.
  intros Hwf Hr.
  destruct (SummaryCards_cards ss windowStart windowEnd r Hwf Hr) as (Hcards & Hnull & Hno).
  set (win := bounds windowStart windowEnd) in *.
  set (keys := map fst (fold_left push_series ss [])) in *.
  assert (Hkeys : map s_key (default [] r)
                  = List.filter (fun p => known p && has_records p ss) keys).
  { rewrite Hcards. apply card_keys. intros p Hp.
    destruct (card_result win p ss) as [[c|]|] eqn:Hres; cbn [card_of].
    - destruct (card_result_Some win p ss c Hres) as (cfg & Hcfg & Hrec & _ & _ & Hkey & _).
      split; [exact Hkey|]. apply andb_true_intro. split.
      + apply config_known. congruence.
      + unfold has_records. now destruct (records_of p ss).
    - now apply (card_result_None win).
    - exfalso. assert (existsb (fun p => thrown (card_result win p ss)) keys = true);
        [|congruence].
      apply List.existsb_exists. exists p. split; [exact Hp|]. now rewrite Hres. }
  assert (Hnd : List.NoDup (map s_key (default [] r))).
  { rewrite Hkeys. apply List.NoDup_filter. exact (proj1 (grouping ss)). }
  split; [now rewrite Hkeys; unfold keys; rewrite keys_first_seen|].
  split; [exact Hnd|]. split; [|split].
  - rewrite <- (length_map s_key).
    change 3%nat with (length tracked). apply List.NoDup_incl_length; [exact Hnd|].
    intros p Hp. rewrite Hkeys in Hp. apply List.filter_In in Hp as [_ Hp].
    apply andb_prop in Hp as [Hp _]. unfold known in Hp. now apply existsb_eqb_In in Hp.
  - rewrite Hcards. exact Hnull.
  - intros c Hc.
    apply (card_in_cards ss windowStart windowEnd r c Hwf Hr) in Hc as (p & _ & Hres).
    destruct (card_result_Some _ p ss c Hres)
      as (cfg & Hcfg & _ & Hne & _ & Hkey & Hlabel & Hicon & Hcolor & _ & Hrecords).
    exists cfg. rewrite Hkey. subst win. repeat split; auto.
    rewrite Hrecords.
    destruct (counted (bounds windowStart windowEnd) p ss); [contradiction|cbn [length]; lia].
Qed.

Lemma cards_rendered_witness :
  exists r,
    SummaryCards (series cd_paging) (Some "2024-01") (Some "2024-12") = Returns (Normal r) /\
    map s_key (default [] r) = ["eon"; "mpwik"]%string.
Proof.
  eexists. split; [vm_compute; reflexivity|].
  etransitivity;
    [exact (proj1 (cards_rendered (series cd_paging) (Some "2024-01") (Some "2024-12") _
                     cd_paging_wf ltac:(vm_compute; reflexivity)))|].
  vm_compute. reflexivity.
Defined.

(** *** The latest bill and the trend *)







(** ** The detail charts *)

Lemma reading_step_plot windowMonths ws we s pm d :
  reading_step windowMonths ws we s pm d
  = match plot_of windowMonths ws we s d with
    | Some e => plot_step pm e
    | None => pm
    end.
Proof.
  unfold reading_step, plot_of. destruct (rd_is_estimate d); [reflexivity|].
  destruct (truthy (rd_period_start d)) as [key|]; [|reflexivity].
  destruct (in_view windowMonths ws we key); reflexivity.
Qed.

Lemma readings_fold windowMonths ws we s ds : forall pm,
  fold_left (reading_step windowMonths ws we s) ds pm
  = fold_left plot_step (omap (plot_of windowMonths ws we s) ds) pm.
Proof.
  induction ds as [|d ds IH]; intros pm; [reflexivity|].
  cbn [fold_left]. rewrite IH, reading_step_plot.
  change (omap (plot_of windowMonths ws we s) (d :: ds))
    with (match plot_of windowMonths ws we s d with
          | Some e => e :: omap (plot_of windowMonths ws we s) ds
          | None => omap (plot_of windowMonths ws we s) ds
          end).
  destruct (plot_of windowMonths ws we s d); reflexivity.
Qed.

Lemma periodMap_plotted windowMonths ws we seriesList :
  periodMap windowMonths ws we seriesList
  = fold_left plot_step (plotted windowMonths ws we seriesList) [].
Proof.
  unfold periodMap, plotted. generalize (@nil (string * ChartPoint)).
  induction seriesList as [|s ss IH]; intros pm; [reflexivity|].
  cbn [fold_left flat_map]. rewrite fold_left_app, IH, readings_fold. reflexivity.
Qed.

Lemma last_such_snoc {A : Type} (f : A -> bool) l x :
  last_such f (l ++ [x]) = if f x then Some x else last_such f l.
Proof. unfold last_such. now rewrite fold_left_app. Qed.

Lemma cost_kwh_names a b : "cost_" +:+ a <> "kwh_" +:+ b.
Proof. rewrite !append_cons. discriminate. Qed.

Lemma append_inj_l (p a b : string) : p +:+ a = p +:+ b -> a = b.
Proof.
  induction p as [|c p IH]; [now rewrite !append_nil_l|].
  rewrite !append_cons. intros [= H]. now apply IH.
Qed.

Lemma points_of_nil : points_of [] [].
Proof.
  split; [constructor| |discriminate].
  intros k. cbn. split; [now intros H|intros []].
Qed.

Lemma points_of_step P pm e :
  points_of P pm -> points_of (P ++ [e]) (plot_step pm e).
Proof.
  intros [Hnd Hkeys Hpts]. unfold plot_step. split.
  - rewrite dict_alter_keys. now apply dict_ensure_keys_NoDup.
  - intros k. rewrite dict_get_upsert, map_app, List.in_app_iff. cbn [map In].
    destruct (String.eqb_spec (pl_key e) k) as [->|Hne].
    + split; [intros _; right; now left|discriminate].
    + rewrite Hkeys. split; [tauto|]. intros [H|[H|[]]]; [exact H|contradiction].
  - intros k pt. rewrite dict_get_upsert.
    destruct (String.eqb_spec (pl_key e) k) as [Heq|Hne].
    + intros [= <-]. cbn [set_fields cp_period cp_fields].
      assert (Hold : cp_period (default {| cp_period := pl_key e; cp_fields := ∅ |}
                                        (dict_get pm (pl_key e))) = k /\
                     forall loc,
                       cp_fields (default {| cp_period := pl_key e; cp_fields := ∅ |}
                                          (dict_get pm (pl_key e))) !! ("cost_" +:+ loc)
                       = option_map (fun e => rd_cost_gross (pl_reading e))
                                    (last_such (plotted_at k loc) P) /\
                       cp_fields (default {| cp_period := pl_key e; cp_fields := ∅ |}
                                          (dict_get pm (pl_key e))) !! ("kwh_" +:+ loc)
                       = option_map (fun e => or_else (rd_consumption_kwh (pl_reading e))
                                                      (rd_consumption_value (pl_reading e)))
                                    (last_such (plotted_at k loc) P)).
      { destruct (dict_get pm (pl_key e)) as [old|] eqn:Hget; cbn [default].
        - rewrite <- Heq. exact (Hpts _ _ Hget).
        - cbn [cp_period cp_fields]. split; [exact Heq|]. intros loc.
          assert (Hnone : last_such (plotted_at k loc) P = None).
          { assert (Hnot : ~ In k (map pl_key P))
              by (intros Hin; apply Hkeys in Hin; rewrite <- Heq in Hin; contradiction).
            clear -Hnot. induction P as [|x P IH] using rev_ind; [reflexivity|].
            rewrite last_such_snoc. rewrite map_app, List.in_app_iff in Hnot. cbn in Hnot.
            unfold plotted_at at 1. destruct (String.eqb_spec (pl_key x) k); [tauto|]. cbn [andb].
            apply IH. tauto. }
          rewrite Hnone, !lookup_empty. now split. }
      destruct Hold as [Hper Hold]. split; [exact Hper|]. intros loc.
      destruct (Hold loc) as [Hc Hk]. rewrite last_such_snoc. unfold plotted_at at 1 3.
      rewrite <- Heq, String.eqb_refl. cbn [andb].
      destruct (String.eqb_spec (pl_loc e) loc) as [->|Hl].
      * split.
        -- rewrite lookup_insert_ne by (apply not_eq_sym, cost_kwh_names).
           now rewrite lookup_insert_eq.
        -- now rewrite lookup_insert_eq.
      * split.
        -- rewrite lookup_insert_ne by (apply not_eq_sym, cost_kwh_names).
           rewrite lookup_insert_ne by (intros H; apply append_inj_l in H; contradiction).
           rewrite Hc, Heq. reflexivity.
        -- rewrite lookup_insert_ne by (intros H; apply append_inj_l in H; contradiction).
           rewrite lookup_insert_ne by apply cost_kwh_names.
           rewrite Hk, Heq. reflexivity.
    + intros Hget. destruct (Hpts _ _ Hget) as [Hper Hold]. split; [exact Hper|].
      intros loc. rewrite last_such_snoc. unfold plotted_at at 1 3.
      destruct (String.eqb_spec (pl_key e) k); [contradiction|]. cbn [andb]. apply Hold.
Qed.

Lemma points_of_fold P : points_of P (fold_left plot_step P []).
Proof.
  apply (fold_left_snoc_ind plot_step points_of); [exact points_of_nil|].
  intros l x acc H. now apply points_of_step.
Qed.


Lemma points_periods P pm : points_of P pm -> map cp_period (dict_values pm) = map fst pm.
Proof.
  intros H. unfold dict_values. rewrite map_map. apply map_ext_in.
  intros [k pt] Hin. cbn [fst snd].
  pose proof (dict_In_get _ _ _ (po_nodup _ _ H) Hin) as Hget.
  now destruct (po_points _ _ H k pt Hget).
Qed.

Lemma In_plotted windowMonths ws we seriesList e :
  In e (plotted windowMonths ws we seriesList) <->
  exists s d, In s seriesList /\ In d (us_data s) /\ plot_of windowMonths ws we s d = Some e.
Proof.
  unfold plotted. rewrite List.in_flat_map. split.
  - intros (s & Hs & He). apply In_omap in He as (d & Hd & Hp). now exists s, d.
  - intros (s & d & Hs & Hd & Hp). exists s. split; [exact Hs|]. apply In_omap. now exists d.
Qed.

Lemma in_view_months windowMonths ys ms ye me y m rest :
  0 < windowMonths ->
  0 <= ys <= 9999 -> 1 <= ms <= 12 -> 0 <= ye <= 9999 -> 1 <= me <= 12 ->
  0 <= y <= 9999 -> 1 <= m <= 12 -> date_tail rest ->
  in_view windowMonths (Some (ym_text ys ms)) (Some (ym_text ye me)) (date_text y m rest)
  = between (month_index ys ms) (month_index ye me) (month_index y m).
Proof.
  intros Hw Hys Hms Hye Hme Hy Hm Hr. unfold in_view, between.
  destruct (Z.ltb_spec 0 windowMonths); [|lia]. rewrite !ym_text_nonempty.
  rewrite toYearMonth_date_text by (try assumption; lia).
  rewrite !str_lt_ym_text by assumption.
  destruct (Z.ltb_spec (month_index y m) (month_index ys ms));
    destruct (Z.ltb_spec (month_index ye me) (month_index y m));
    destruct (Z.leb_spec (month_index ys ms) (month_index y m));
    destruct (Z.leb_spec (month_index y m) (month_index ye me)); try reflexivity; lia.
Qed.

(** X18. The points of a detail chart.  When the start dates of the
    records are made of digits and hyphens ("YYYY-MM-DD"), [chartPoints]
    holds one point per distinct start date among the records that are
    plotted (not an estimate, with a start date, and in view), in strictly
    ascending order of the start dates as text.  While a window is in force,
    a record with a well-formed start date is in view exactly when the month
    in which its period starts lies in the window, whatever its end: a bill
    that only reaches into the window is not plotted. *)
Theorem detail_points (windowMonths : Z) (windowStart windowEnd : option string)
    (seriesList : list UtilitySeries) :
  plain_readings seriesList = true ->
  StronglySorted (key_lt cp_period) (chartPoints windowMonths windowStart windowEnd seriesList) /\
  List.NoDup (map cp_period (chartPoints windowMonths windowStart windowEnd seriesList)) /\
  (forall k,
     In k (map cp_period (chartPoints windowMonths windowStart windowEnd seriesList)) <->
     exists s d,
       In s seriesList /\ In d (us_data s) /\ rd_is_estimate d = false /\
       truthy (rd_period_start d) = Some k /\
       in_view windowMonths windowStart windowEnd k = true) /\
  (forall ys ms ye me y m rest,
     0 < windowMonths ->
     0 <= ys <= 9999 -> 1 <= ms <= 12 -> 0 <= ye <= 9999 -> 1 <= me <= 12 ->
     0 <= y <= 9999 -> 1 <= m <= 12 -> date_tail rest ->
     in_view windowMonths (Some (ym_text ys ms)) (Some (ym_text ye me)) (date_text y m rest)
     = between (month_index ys ms) (month_index ye me) (month_index y m)) /\
  (forall k, in_view 0 windowStart windowEnd k = true).
Proof.
  intros _.
  pose proof (points_of_fold (plotted windowMonths windowStart windowEnd seriesList)) as H.
  rewrite <- periodMap_plotted in H.
  set (pm := periodMap windowMonths windowStart windowEnd seriesList) in *.
  assert (Hnd : List.NoDup (map cp_period (dict_values pm))).
  { rewrite (points_periods _ _ H). exact (po_nodup _ _ H). }
  assert (Hsorted : StronglySorted (key_lt cp_period)
                      (chartPoints windowMonths windowStart windowEnd seriesList))
    by (unfold chartPoints; now apply sort_by_strict).
  split; [exact Hsorted|]. split; [now apply strict_keys_NoDup|].
  split; [|split; [apply in_view_months|reflexivity]].
  intros k.
  assert (Hk : In k (map cp_period (chartPoints windowMonths windowStart windowEnd seriesList))
               <-> In k (map pl_key (plotted windowMonths windowStart windowEnd seriesList))).
  { rewrite <- (po_keys _ _ H k). unfold chartPoints. fold pm.
    assert (Hsort : In k (map cp_period (sort_by cp_period (dict_values pm)))
                    <-> In k (map cp_period (dict_values pm))).
    { rewrite !List.in_map_iff. split; intros (x & Hx & Hin); exists x;
        (split; [exact Hx|]); now apply (sort_by_In cp_period x (dict_values pm)). }
    rewrite Hsort, (points_periods _ _ H). split.
    - intros Hin Hnone. now apply dict_get_None_keys in Hnone.
    - intros Hsome.
      destruct (List.in_dec string_dec k (map fst pm)) as [Hin|Hnin]; [exact Hin|].
      now apply dict_get_None_keys in Hnin. }
  rewrite Hk, List.in_map_iff. split.
  - intros (e & <- & He). apply In_plotted in He as (s & d & Hs & Hd & Hp).
    exists s, d. unfold plot_of in Hp.
    destruct (rd_is_estimate d); [discriminate|].
    destruct (truthy (rd_period_start d)) as [key|]; [|discriminate].
    destruct (in_view windowMonths windowStart windowEnd key) eqn:Hv; [|discriminate].
    injection Hp as <-. cbn [pl_key]. now repeat split.
  - intros (s & d & Hs & Hd & Hest & Hstart & Hv).
    exists {| pl_key := k; pl_loc := locKey s; pl_reading := d |}. split; [reflexivity|].
    apply In_plotted. exists s, d. split; [exact Hs|]. split; [exact Hd|].
    unfold plot_of. now rewrite Hest, Hstart, Hv.
Qed.

Lemma detail_points_witness :
  map cp_period (chartPoints 12 (Some "2024-01") (Some "2024-12") detail_sample)
  = ["2024-03-01"]%string /\
  List.NoDup (map cp_period (chartPoints 12 (Some "2024-01") (Some "2024-12") detail_sample)) /\
  chartPoints 12 (Some "2024-04") (Some "2025-03") detail_sample = [].
Proof.
  split; [vm_compute; reflexivity|]. split; [|vm_compute; reflexivity].
  exact (proj1 (proj2 (detail_points 12 (Some "2024-01"%string) (Some "2024-12"%string)
                         detail_sample eq_refl))).
Defined.



Lemma slice2_four_digits y : 0 <= y <= 9999 -> slice2 (four_digits y) = two_digits (y mod 100).
Proof.
  intros Hy. unfold four_digits, two_digits, slice2.
  replace (y mod 100 / 10) with (y / 10 mod 10) by (Z.div_mod_to_equations; lia).
  replace (y mod 100 mod 10) with (y mod 10) by (Z.div_mod_to_equations; lia).
  reflexivity.
Qed.

(** X20. The labels of the detail charts keep two digits of the year.  On
    a date text "YYYY-MM…" with a month from 01 to 12, [formatPeriod] gives
    the short name of the month, a blank and the last two digits of the
    year; dates a century apart get the same label. *)
Theorem formatPeriod_labels (y m : Z) (rest : string) :
  0 <= y <= 9999 -> 0 <= m <= 99 -> date_tail rest ->
  formatPeriod (Some (date_text y m rest)) = month_name m +:+ " " +:+ two_digits (y mod 100) /\
  (y + 100 <= 9999 ->
   formatPeriod (Some (date_text (y + 100) m rest)) = formatPeriod (Some (date_text y m rest))) /\
  formatPeriod None = EmptyString /\ formatPeriod (Some EmptyString) = EmptyString.
Proof.
  intros Hy Hm Hr.
  assert (Hlabel : forall y', 0 <= y' <= 9999 ->
            formatPeriod (Some (date_text y' m rest))
            = month_name m +:+ " " +:+ two_digits (y' mod 100)).
  { intros y' Hy'. unfold formatPeriod. rewrite truthy_Some by apply date_text_nonempty.
    destruct (num_pieces_date_text y' m rest Hy' Hm Hr) as (_ & _ & -> & ->).
    rewrite parseInt_two_digits by exact Hm. now rewrite slice2_four_digits. }
  split; [now apply Hlabel|]. split; [|split; reflexivity].
  intros Hy100. rewrite !Hlabel by lia. do 2 f_equal. f_equal.
  Z.div_mod_to_equations; lia.
Qed.

Lemma formatPeriod_labels_witness :
  formatPeriod (Some "2024-03-01") = "Mar 24"%string /\
  formatPeriod (Some "2024-03-01") = formatPeriod (Some "1924-03-01").
Proof.
  destruct (formatPeriod_labels 1924 3 "-01" ltac:(lia) ltac:(lia) (date_tail_day "01"))
    as (_ & Hsame & _).
  split; [reflexivity|]. exact (Hsame ltac:(lia)).
Defined.

(** ** The grouping loops *)

(** X21. The two grouping loops partition the series.  When no provider
    and no utility type is a name inherited from [Object.prototype] (for
    which the loops fail) or a run of digits (which JavaScript lists
    first), [byProvider] of the summary cards and [seriesByUtility] of the
    dashboard hold one entry per distinct provider (utility type), in the
    order of first occurrence; the entry of a key lists exactly the series
    with that key, in their order: every series is in one group and no
    group is empty. *)
Theorem grouping_partitions (ss : list Series) (us : list UtilitySeries) :
  plain_provider_keys ss = true -> plain_utility_keys us = true ->
  (map fst (fold_left push_series ss []) = first_seen (map provider ss) /\
   List.NoDup (map fst (fold_left push_series ss [])) /\
   (forall p group, In (p, group) (fold_left push_series ss []) <->
      group = List.filter (same_provider p) ss /\ group <> []) /\
   (forall s, In s ss ->
      exists group, In (provider s, group) (fold_left push_series ss []) /\ In s group)) /\
  (map fst (seriesByUtility us) = first_seen (map us_utility_type us) /\
   List.NoDup (map fst (seriesByUtility us)) /\
   (forall k group, In (k, group) (seriesByUtility us) <->
      group = List.filter (same_utility k) us /\ group <> []) /\
   (forall s, In s us ->
      exists group, In (us_utility_type s, group) (seriesByUtility us) /\ In s group)).
Proof.
  intros _ _. split.
  - split; [exact (keys_first_seen_by provider ss)|].
    split; [exact (proj1 (grouping_by provider ss))|].
    split; [exact (groups_by provider ss)|].
    intros s Hs. exists (List.filter (same_provider (provider s)) ss).
    assert (Hin : In s (List.filter (same_provider (provider s)) ss)).
    { apply List.filter_In. split; [exact Hs|apply String.eqb_refl]. }
    split; [|exact Hin]. apply (groups_by provider ss). split; [reflexivity|].
    intros Hnil. rewrite Hnil in Hin. contradiction.
  - split; [exact (keys_first_seen_by us_utility_type us)|].
    split; [exact (proj1 (grouping_by us_utility_type us))|].
    split; [exact (groups_by us_utility_type us)|].
    intros s Hs. exists (List.filter (same_utility (us_utility_type s)) us).
    assert (Hin : In s (List.filter (same_utility (us_utility_type s)) us)).
    { apply List.filter_In. split; [exact Hs|apply String.eqb_refl]. }
    split; [|exact Hin]. apply (groups_by us_utility_type us). split; [reflexivity|].
    intros Hnil. rewrite Hnil in Hin. contradiction.
Qed.

Lemma grouping_partitions_witness :
  map fst (fold_left push_series (series cd_sample) []) = ["pgnig"; "tauron"; "eon"]%string /\
  map fst (seriesByUtility detail_sample) = ["electricity"]%string.
Proof.
  destruct (grouping_partitions (series cd_sample) detail_sample eq_refl eq_refl)
    as [[Hp _] [Hu _]].
  split; [rewrite Hp|rewrite Hu]; reflexivity.
Defined.

(** * The file manager *)

(** ** File sizes *)

Lemma Qfloor_ratio (a : Z) (p : positive) : Qfloor (a # p) = a / Z.pos p.
Proof. reflexivity. Qed.

Lemma Math_round_tenths (b : Z) (u : positive) :
  Math_round (inject_Z b / inject_Z (Z.pos u) * 10) = tenths b (Z.pos u).
Proof.
  unfold Math_round, tenths.
  rewrite (Qfloor_comp _ ((20 * b + Z.pos u) # (2 * u))); [apply Qfloor_ratio|].
  unfold Qeq, Qplus, Qmult, Qdiv, Qinv, inject_Z. cbn. lia.
Qed.

Lemma tenths_near (b : Z) (u : positive) :
  (Qabs (inject_Z (tenths b (Z.pos u)) / 10 - inject_Z b / inject_Z (Z.pos u)) <= 1 # 20)%Q.
Proof.
  unfold tenths.
  assert (Hdiv : 2 * Z.pos u * ((20 * b + Z.pos u) / (2 * Z.pos u)) <= 20 * b + Z.pos u
                 < 2 * Z.pos u * ((20 * b + Z.pos u) / (2 * Z.pos u)) + 2 * Z.pos u).
  { pose proof (Z.div_mod (20 * b + Z.pos u) (2 * Z.pos u) ltac:(lia)).
    pose proof (Z.mod_pos_bound (20 * b + Z.pos u) (2 * Z.pos u) ltac:(lia)). lia. }
  set (n := (20 * b + Z.pos u) / (2 * Z.pos u)) in *.
  apply Qabs_Qle_condition.
  unfold Qle, Qminus, Qplus, Qopp, Qdiv, Qmult, Qinv, inject_Z. cbn.
  rewrite ?Pos2Z.inj_mul. split; nia.
Qed.

Lemma toFixed1_ratio (b : Z) (u : positive) :
  0 <= b ->
  toFixed1 (inject_Z b / inject_Z (Z.pos u))
  = nat_digits (tenths b (Z.pos u) / 10) +:+ "." +:+ nat_digits (tenths b (Z.pos u) mod 10).
Proof.
  intros Hb. unfold toFixed1.
  assert (Hpos : Qle_bool 0 (inject_Z b / inject_Z (Z.pos u)) = true).
  { apply Qle_bool_iff. unfold Qle, Qdiv, Qmult, Qinv, inject_Z. cbn. lia. }
  rewrite Hpos, Math_round_tenths. reflexivity.
Qed.

(** X22. What [formatSize] shows.  A size below 1024 bytes is shown in
    bytes; a size below 1024 * 1024 bytes in KB, and a larger one in MB,
    with one decimal: the tenths shown are the integer nearest to ten times
    the size in that unit, so the number shown is within 0.05 of the size.
    The unit is chosen before the rounding: the sizes from 1048525 to
    1048575 bytes are shown as "1024.0 KB", not as "1.0 MB".  A missing size
    is shown as "NaN MB". *)
Theorem formatSize_shows (b : Z) :
  0 <= b < 2 ^ 53 ->
  (b < 1024 -> formatSize (Some b) = nat_digits b +:+ " B") /\
  (1024 <= b < 1024 * 1024 ->
   formatSize (Some b)
   = (nat_digits (tenths b 1024 / 10) +:+ "." +:+ nat_digits (tenths b 1024 mod 10)) +:+ " KB" /\
   10 <= tenths b 1024 <= 10240 /\
   (Qabs (inject_Z (tenths b 1024) / 10 - inject_Z b / 1024) <= 1 # 20)%Q) /\
  (1024 * 1024 <= b ->
   formatSize (Some b)
   = (nat_digits (tenths b (1024 * 1024) / 10) +:+ "."
      +:+ nat_digits (tenths b (1024 * 1024) mod 10)) +:+ " MB" /\
   10 <= tenths b (1024 * 1024) /\
   (Qabs (inject_Z (tenths b (1024 * 1024)) / 10 - inject_Z b / (1024 * 1024)) <= 1 # 20)%Q) /\
  (1048525 <= b < 1024 * 1024 -> formatSize (Some b) = "1024.0 KB"%string) /\
  formatSize None = "NaN MB"%string.
Proof.
  intros Hb.
  assert (Hkb : 1024 <= b < 1024 * 1024 ->
            formatSize (Some b)
            = (nat_digits (tenths b 1024 / 10) +:+ "." +:+ nat_digits (tenths b 1024 mod 10))
              +:+ " KB").
  { intros Hr. unfold formatSize.
    destruct (Z.ltb_spec b 1024); [lia|]. destruct (Z.ltb_spec b (1024 * 1024)); [|lia].
    change 1024%Q with (inject_Z (Z.pos 1024)). now rewrite toFixed1_ratio by lia. }
  split; [|split; [|split; [|split]]].
  - intros Hlt. unfold formatSize. destruct (Z.ltb_spec b 1024); [|lia].
    unfold numToStr. destruct (Z.ltb_spec b 0); [lia|reflexivity].
  - intros Hr. split; [now apply Hkb|]. split.
    + unfold tenths. split.
      * apply Z.div_le_lower_bound; lia.
      * assert ((20 * b + 1024) / (2 * 1024) < 10241); [|lia].
        apply Z.div_lt_upper_bound; lia.
    + change 1024%Q with (inject_Z (Z.pos 1024)). apply tenths_near.
  - intros Hr. split; [|split].
    + unfold formatSize.
      destruct (Z.ltb_spec b 1024); [lia|]. destruct (Z.ltb_spec b (1024 * 1024)); [lia|].
      change (1024 * 1024)%Q with (inject_Z (Z.pos 1048576)).
      now rewrite toFixed1_ratio by lia.
    + unfold tenths. apply Z.div_le_lower_bound; lia.
    + change (1024 * 1024)%Q with (inject_Z (Z.pos 1048576)). apply tenths_near.
  - intros Hr. rewrite Hkb by lia.
    assert (Ht : tenths b 1024 = 10240).
    { unfold tenths. symmetry. apply Z.div_unique with (r := 20 * b + 1024 - 2048 * 10240); lia. }
    rewrite Ht. reflexivity.
  - reflexivity.
Qed.

Lemma formatSize_shows_witness :
  formatSize (Some 1280) = "1.3 KB"%string /\ formatSize (Some 1048575) = "1024.0 KB"%string.
Proof.
  split.
  - etransitivity;
      [exact (proj1 (proj1 (proj2 (formatSize_shows 1280 ltac:(lia))) ltac:(lia)))|].
    reflexivity.
  - exact (proj1 (proj2 (proj2 (proj2 (formatSize_shows 1048575 ltac:(lia))))) ltac:(lia)).
Defined.

(** ** File names *)

Lemma split_at_no_slash s : no_slash s = true -> split_at "/" s = (s, []).
Proof.
  induction s as [|c s IH]; [reflexivity|]. cbn [no_slash split_at].
  intros H. apply andb_prop in H as [Hc Hs]. rewrite (IH Hs).
  destruct (Ascii.eqb c "/"); [discriminate|reflexivity].
Qed.

Lemma last_cons2 {A : Type} (a b : A) l d : List.last (a :: b :: l) d = List.last (b :: l) d.
Proof. reflexivity. Qed.

Lemma fileName_cons_slash s : fileName (String "/" s) = fileName s.
Proof.
  unfold fileName, split_on. cbn [split_at]. destruct (split_at "/" s) as [hd tl].
  cbn [Ascii.eqb Bool.eqb]. reflexivity.
Qed.

Lemma fileName_cons_other c s :
  Ascii.eqb c "/" = false ->
  fileName (String c s) = if no_slash s then String c s else fileName s.
Proof.
  intros Hc. unfold fileName, split_on. cbn [split_at].
  destruct (no_slash s) eqn:Hs.
  - rewrite (split_at_no_slash s Hs), Hc. reflexivity.
  - destruct (split_at "/" s) as [hd tl] eqn:Hsplit. rewrite Hc.
    destruct tl as [|x tl]; [|reflexivity].
    exfalso. assert (Hno : no_slash s = true); [|congruence].
    clear Hs. revert hd Hsplit. induction s as [|c' s IH]; intros hd Hsplit; [reflexivity|].
    cbn [split_at] in Hsplit. destruct (split_at "/" s) as [hd' tl'].
    cbn [no_slash]. destruct (Ascii.eqb c' "/"); [discriminate|].
    injection Hsplit as <- ->. cbn [negb andb]. now apply (IH hd').
Qed.

(** X23. The name shown for a processed file is the last segment of its
    path.  [path.split('/').pop()] is the text after the last slash of the
    path: the path is a directory part, empty or ending in a slash,
    followed by the name, and the name holds no slash.  It is the whole
    path exactly when the path holds no slash, and empty when the path ends
    in a slash or is empty. *)
Theorem fileName_is_last_segment (path : string) :
  (exists dir,
     path = dir +:+ fileName path /\
     (dir = EmptyString \/ exists d, dir = d +:+ "/")) /\
  no_slash (fileName path) = true /\
  (fileName path = path <-> no_slash path = true) /\
  (forall d, fileName (d +:+ "/") = EmptyString) /\
  fileName EmptyString = EmptyString.
Proof.
  assert (Hseg : forall s,
            (exists dir, s = dir +:+ fileName s /\
                         (dir = EmptyString \/ exists d, dir = d +:+ "/")) /\
            no_slash (fileName s) = true).
  { induction s as [|c s [(dir & Hs & Hdir) Hno]].
    - split; [exists EmptyString; split; [reflexivity|now left]|reflexivity].
    - destruct (Ascii.eqb_spec c "/") as [->|Hne].
      + rewrite fileName_cons_slash. split; [|exact Hno].
        exists (String "/" dir). split; [rewrite append_cons; now rewrite <- Hs|].
        right. destruct Hdir as [->|(d & ->)].
        * now exists EmptyString.
        * exists (String "/" d). now rewrite append_cons.
      + assert (Hc : Ascii.eqb c "/" = false) by now apply Ascii.eqb_neq.
        rewrite (fileName_cons_other c s Hc). destruct (no_slash s) eqn:Hslash.
        * split; [exists EmptyString; split; [reflexivity|now left]|].
          cbn [no_slash]. now rewrite Hc, Hslash.
        * split; [|exact Hno]. exists (String c dir).
          split; [rewrite append_cons; now rewrite <- Hs|].
          right. destruct Hdir as [->|(d & ->)].
          -- rewrite append_nil_l in Hs. rewrite <- Hs in Hno. congruence.
          -- exists (String c d). now rewrite append_cons. }
  split; [exact (proj1 (Hseg path))|]. split; [exact (proj2 (Hseg path))|].
  split; [|split; [|reflexivity]].
  - split.
    + intros Heq. rewrite <- Heq. exact (proj2 (Hseg path)).
    + intros Hno. unfold fileName, split_on. now rewrite (split_at_no_slash path Hno).
  - induction d as [|c d IH]; [reflexivity|].
    rewrite append_cons. destruct (Ascii.eqb_spec c "/") as [->|Hne].
    + rewrite fileName_cons_slash. exact IH.
    + rewrite fileName_cons_other by now apply Ascii.eqb_neq.
      assert (Hs : no_slash (d +:+ "/") = false).
      { clear. induction d as [|c d IH]; [reflexivity|].
        rewrite append_cons. cbn [no_slash]. rewrite IH. apply andb_false_r. }
      rewrite Hs. exact IH.
Qed.

(** ** Processing the files *)

Section Processing.
Context {R : Type}.

Lemma handleProcess_other (path p : string) (answer : Answer R) (st : Files R) :
  p <> path ->
  processing (handleProcess path answer st) !! p = processing st !! p /\
  results (handleProcess path answer st) !! p = results st !! p.
Proof.
  intros Hne. unfold handleProcess.
  destruct answer; cbn [processing results]; rewrite !lookup_insert_ne by congruence; now split.
Qed.

Lemma handleProcess_settled (path : string) (answer : Answer R) (st : Files R) :
  settled (handleProcess path answer st) path.
Proof.
  unfold settled, handleProcess. destruct answer as [r|m]; cbn [processing results].
  - left. rewrite !lookup_insert_eq. split; [reflexivity|now exists r].
  - right. rewrite !lookup_insert_eq. split; [reflexivity|now exists m].
Qed.

Lemma handleProcess_keeps_settled (path p : string) (answer : Answer R) (st : Files R) :
  settled st p -> settled (handleProcess path answer st) p.
Proof.
  intros H. destruct (string_dec p path) as [->|Hne]; [apply handleProcess_settled|].
  unfold settled. destruct (handleProcess_other path p answer st Hne) as [-> ->]. exact H.
Qed.

Lemma handleProcess_changed (path : string) (answer : Answer R) (st : Files R) :
  dataChanged st <= dataChanged (handleProcess path answer st) <= dataChanged st + 1 /\
  (dataChanged (handleProcess path answer st) = dataChanged st + 1 <->
   exists r, answer = Result r).
Proof.
  unfold handleProcess. destruct answer as [r|m]; cbn [dataChanged].
  - split; [lia|]. split; [now exists r|reflexivity].
  - split; [lia|]. split; [lia|]. intros [r H]. discriminate.
Qed.

Lemma processAll_spec (processFile : nat -> string -> Answer R) (seen : gmap string Status)
    (files : list string) : forall n st,
  let out := processAll processFile seen files n st in
  fst out = (n + length (pending seen files))%nat /\
  (forall p, seen !! p = Some Done ->
     processing (snd out) !! p = processing st !! p /\
     results (snd out) !! p = results st !! p) /\
  (forall p, ~ In p files ->
     processing (snd out) !! p = processing st !! p /\
     results (snd out) !! p = results st !! p) /\
  (forall p, settled st p -> settled (snd out) p) /\
  (forall p, In p (pending seen files) -> settled (snd out) p) /\
  dataChanged st <= dataChanged (snd out)
  <= dataChanged st + Z.of_nat (length (pending seen files)).
Proof.
  induction files as [|path files IH]; intros n st; cbv zeta.
  { cbn [processAll pending List.filter fst snd length]. repeat split; auto; try lia.
    intros p []. }
  cbn [processAll pending List.filter]. fold (pending seen files).
  destruct (seen !! path) as [[| |]|] eqn:Hseen.
  1,3,4:
    specialize (IH (S n) (handleProcess path (processFile n path) st)); cbv zeta in IH;
    destruct IH as (Hn & Hdone & Hout & Hkeep & Hpend & Hchg);
    pose proof (handleProcess_changed path (processFile n path) st) as [Hstep _];
    cbn [length]; split; [rewrite Hn; lia|];
    (split; [|split; [|split; [|split]]]);
    [ intros p Hp; assert (Hne : p <> path) by congruence;
      destruct (Hdone p Hp) as [-> ->]; now apply handleProcess_other
    | intros p Hp; assert (Hne : p <> path) by (intros ->; apply Hp; now left);
      destruct (Hout p) as [-> ->]; [intros Hin; apply Hp; now right|];
      now apply handleProcess_other
    | intros p Hp; apply Hkeep; now apply handleProcess_keeps_settled
    | intros p [<-|Hp]; [apply Hkeep, handleProcess_settled|now apply Hpend]
    | lia ].
  specialize (IH n st). cbv zeta in IH.
  destruct IH as (Hn & Hdone & Hout & Hkeep & Hpend & Hchg).
  split; [exact Hn|]. split; [exact Hdone|]. split; [|split; [exact Hkeep|split; [exact Hpend|exact Hchg]]].
  intros p Hp. apply Hout. intros Hin. apply Hp. now right.
Qed.

End Processing.

(** X24. "Przetwórz wszystkie" leaves every file done or failed.  Whatever
    the server answers, [handleProcessAll] sends one request for each file
    of the list that was not done when the handler was created, in the
    order of the list, and none for a file that was done: the status and
    the result of a done file, and of a file that is not in the list, are
    left as they were.  When it ends, every file of the list is done or has
    failed; a file that was processed is done with its result, or failed
    with the error message as its result.  [onDataChanged] is called at most
    once per request. *)
Theorem processAll_settles (R : Type) (processFile : nat -> string -> Answer R)
    (files : list string) (st : Files R) :
  let out := handleProcessAll processFile files st in
  fst out = length (pending (processing st) files) /\
  (forall p, In p files ->
     processing (snd out) !! p = Some Done \/ processing (snd out) !! p = Some Failed) /\
  (forall p, In p (pending (processing st) files) -> settled (snd out) p) /\
  (forall p, processing st !! p = Some Done \/ ~ In p files ->
     processing (snd out) !! p = processing st !! p /\
     results (snd out) !! p = results st !! p) /\
  dataChanged st <= dataChanged (snd out) <= dataChanged st + Z.of_nat (fst out).
Proof.
  cbv zeta. unfold handleProcessAll.
  destruct (processAll_spec processFile (processing st) files 0%nat st)
    as (Hn & Hdone & Hout & _ & Hpend & Hchg).
  split; [exact Hn|]. split; [|split; [exact Hpend|split]].
  - intros p Hp. destruct (processing st !! p) as [[| |]|] eqn:Hst.
    2:{ left. rewrite <- Hst. exact (proj1 (Hdone p Hst)). }
    all: assert (Hin : In p (pending (processing st) files))
           by (apply List.filter_In; split; [exact Hp|now rewrite Hst]);
         destruct (Hpend p Hin) as [[H _]|[H _]]; [now left|now right].
  - intros p [Hp|Hp]; [now apply Hdone|now apply Hout].
  - rewrite Hn. exact Hchg.
Qed.

Lemma first_seen_spec l :
  List.NoDup (first_seen l) /\ forall x, In x (first_seen l) <-> In x l.
Proof.
  unfold first_seen.
  apply (fold_left_snoc_ind
           (fun acc x => if existsb (String.eqb x) acc then acc else acc ++ [x])
           (fun l acc => List.NoDup acc /\ forall x, In x acc <-> In x l)).
  - split; [constructor|reflexivity].
  - intros l' y acc [Hnd Hin]. destruct (existsb (String.eqb y) acc) eqn:Hex.
    + apply existsb_eqb_In in Hex. split; [exact Hnd|]. intros x.
      rewrite List.in_app_iff, Hin. cbn [In]. split; [tauto|].
      intros [H|[<-|[]]]; [exact H|now apply Hin].
    + assert (Hy : ~ In y acc).
      { intros H. apply existsb_eqb_In in H. congruence. }
      split.
      * apply NoDup_ListNoDup. apply NoDup_app. split; [now apply NoDup_ListNoDup|].
        split; [|apply NoDup_singleton].
        intros x Hx Hx'. apply list_elem_of_In in Hx. apply list_elem_of_In in Hx'.
        destruct Hx' as [<-|[]]. contradiction.
      * intros x. rewrite !List.in_app_iff, Hin. reflexivity.
Qed.

(** X25. The locations and colours of a detail chart.  [allLocations]
    lists each location that a series of the chart names, once, in the
    order of first occurrence (a series without a location names none).
    The chart has the colour of its provider and, when it has more than one
    location, a second shade of it: the bars and lines of the locations
    take these in turn, so from the third location on the colours repeat. *)
Theorem detail_colours (seriesList : list UtilitySeries) :
  List.NoDup (allLocations seriesList) /\
  (forall l, In l (allLocations seriesList) <->
     exists s, In s seriesList /\ truthy (us_location s) = Some l) /\
  (forall i,
     loc_color seriesList i = cfg_color (chart_cfg seriesList) \/
     loc_color seriesList i = cfg_color (chart_cfg seriesList) +:+ "99") /\
  (forall i, loc_color seriesList (i + 2) = loc_color seriesList i) /\
  loc_color seriesList 0 = cfg_color (chart_cfg seriesList) /\
  ((1 < length (allLocations seriesList))%nat ->
   loc_color seriesList 1 = cfg_color (chart_cfg seriesList) +:+ "99") /\
  ((length (allLocations seriesList) <= 1)%nat ->
   forall i, loc_color seriesList i = cfg_color (chart_cfg seriesList)).
Proof.
  destruct (first_seen_spec (omap (fun s => truthy (us_location s)) seriesList)) as [Hnd Hin].
  split; [exact Hnd|]. split.
  { intros l. unfold allLocations. rewrite Hin. apply In_omap. }
  unfold loc_color, locColors.
  destruct (Nat.ltb_spec 1 (length (allLocations seriesList))) as [Hmany|Hfew].
  - cbn [length]. split; [|split; [|split; [reflexivity|split; [reflexivity|lia]]]].
    + intros i. pose proof (Nat.mod_upper_bound i 2 ltac:(lia)) as Hi.
      destruct (i mod 2)%nat as [|[|k]]; [now left|now right|lia].
    + intros i. replace (i + 2)%nat with (i + 1 * 2)%nat by lia.
      now rewrite Nat.Div0.mod_add.
  - cbn [length]. split; [|split; [|split; [reflexivity|split; [lia|]]]].
    + intros i. rewrite Nat.mod_1_r. now left.
    + intros i. now rewrite !Nat.mod_1_r.
    + intros _ i. now rewrite Nat.mod_1_r.
Qed.

(** * More on the helpers of the dashboard *)

(** ** Month arithmetic for every offset *)

(** X26. [addMonths] is exact for every offset between -2^31 and 2^31: on
    a key whose year and month are runs of digits that read as numbers [y]
    and [m] below 2^31, the result is the key that the program writes for
    the month [n] months after month [m] of year [y] (before it, for a
    negative [n]), with the year carried or borrowed as often as needed and
    a month between 01 and 12. *)
Theorem addMonths_shifts (ym : string) (y m n : Z) :
  num_piece (split ym) 0 = Some y -> num_piece (split ym) 1 = Some m ->
  y < 2 ^ 31 -> m < 2 ^ 31 -> - 2 ^ 31 < n < 2 ^ 31 ->
  exists y' m',
    addMonths ym n = numToStr (Some y') +:+ "-" +:+ two_digits m' /\
    1 <= m' <= 12 /\
    month_index y' m' = month_index y m + n.
Proof.
  intros Hy Hm _ _ _. rewrite (addMonths_spec ym y m n Hy Hm).
  set (i := month_index y m + n).
  exists (i / 12), (i mod 12 + 1).
  assert (Hr : 1 <= i mod 12 + 1 <= 12) by (Z.div_mod_to_equations; lia).
  split; [|split; [exact Hr|apply month_index_of_index]].
  unfold key_of_index, ymKey. do 2 f_equal.
  unfold numToStr. destruct (Z.ltb_spec (i mod 12 + 1) 0); [lia|].
  now apply pad_month.
Qed.

Lemma addMonths_shifts_witness :
  exists y' m',
    addMonths "2024-01" (-14) = numToStr (Some y') +:+ "-" +:+ two_digits m' /\
    1 <= m' <= 12 /\ month_index y' m' = month_index 2024 1 + -14.
Proof.
  exact (addMonths_shifts "2024-01" 2024 1 (-14) eq_refl eq_refl
           ltac:(lia) ltac:(lia) ltac:(lia)).
Defined.

(** ** The order of the quarters *)

Lemma compare_quarter_text y q y' q' :
  0 <= y <= 9999 -> 1 <= q <= 4 -> 0 <= y' <= 9999 -> 1 <= q' <= 4 ->
  String.compare (quarter_text y q) (quarter_text y' q') = (4 * y + q ?= 4 * y' + q').
Proof.
  intros Hy Hq Hy' Hq'. unfold quarter_text, four_digits.
  rewrite !nat_digits_small by lia.
  rewrite !append_cons, !append_nil_l.
  rewrite !compare_cons_digit by (Z.div_mod_to_equations; lia).
  change (String.compare (String "-" (String "Q" ?s)) (String "-" (String "Q" ?t)))
    with (String.compare s t).
  rewrite !compare_cons_digit by lia.
  change (String.compare EmptyString EmptyString) with Eq.
  assert (Ey : y = 1000 * (y / 1000) + 100 * (y / 100 mod 10) + 10 * (y / 10 mod 10) + y mod 10)
    by (Z.div_mod_to_equations; lia).
  assert (Ey' : y' = 1000 * (y' / 1000) + 100 * (y' / 100 mod 10) + 10 * (y' / 10 mod 10)
                     + y' mod 10)
    by (Z.div_mod_to_equations; lia).
  assert (B : 0 <= y / 100 mod 10 <= 9 /\ 0 <= y / 10 mod 10 <= 9 /\ 0 <= y mod 10 <= 9 /\
              0 <= y' / 100 mod 10 <= 9 /\ 0 <= y' / 10 mod 10 <= 9 /\ 0 <= y' mod 10 <= 9)
    by (Z.div_mod_to_equations; lia).
  generalize dependent (y / 1000). generalize dependent (y / 100 mod 10).
  generalize dependent (y / 10 mod 10). generalize dependent (y mod 10).
  generalize dependent (y' / 1000). generalize dependent (y' / 100 mod 10).
  generalize dependent (y' / 10 mod 10). generalize dependent (y' mod 10).
  intros.
  repeat match goal with
  | |- context [match ?a ?= ?b with _ => _ end] =>
      destruct (Z.compare_spec a b);
      [subst
      |symmetry; apply Z.compare_lt_iff; lia
      |symmetry; apply Z.compare_gt_iff; lia]
  end.
  symmetry. apply Z.compare_eq_iff. lia.
Qed.

(** X27. The quarter rows come out in chronological order.  For month
    rows with zero-padded keys "YYYY-MM" (year 1000 to 9999, month 01 to
    12), the rows of [aggregateToQuarters] have keys "YYYY-Qn" with n from
    1 to 4 and are strictly ascending in their keys as text; on such keys
    the order of the text is the order of the quarters in time, the key of
    a month being the key of its quarter. *)
Theorem quarters_in_order (rows : list Row) :
  List.Forall (fun r => wf_key (month r)) rows ->
  StronglySorted (key_lt period) (aggregateToQuarters rows) /\
  (forall q, In q (aggregateToQuarters rows) ->
     exists y n, 1000 <= y <= 9999 /\ 1 <= n <= 4 /\ period q = quarter_text y n) /\
  (forall y q y' q',
     0 <= y <= 9999 -> 1 <= q <= 4 -> 0 <= y' <= 9999 -> 1 <= q' <= 4 ->
     str_lt (quarter_text y q) (quarter_text y' q') = (4 * y + q <? 4 * y' + q')) /\
  (forall y m, 0 <= y <= 9999 -> 1 <= m <= 12 ->
     toQuarter (ym_text y m) = quarter_text y ((m + 2) / 3) /\ 1 <= (m + 2) / 3 <= 4).
Proof.
  intros Hwf. split; [|split; [|split]].
  - unfold aggregateToQuarters. apply sort_by_strict.
    pose proof (quarters_of_fold rows) as H.
    rewrite (quarters_periods _ _ H). exact (qo_nodup _ _ H).
  - intros q Hq. apply aggregateToQuarters_period in Hq as (r & Hr & ->).
    destruct (proj1 (List.Forall_forall _ _) Hwf r Hr) as (y & m & Hy & Hm & ->).
    exists y, ((m + 2) / 3). split; [exact Hy|]. split; [now apply quarter_number|].
    rewrite toQuarter_ym_text by lia. reflexivity.
  - intros y q y' q' Hy Hq Hy' Hq'. unfold str_lt, String.ltb.
    rewrite compare_quarter_text by assumption. unfold Z.ltb.
    destruct (4 * y + q ?= 4 * y' + q'); reflexivity.
  - intros y m Hy Hm. split; [now apply toQuarter_ym_text|now apply quarter_number].
Qed.

Lemma quarters_in_order_witness :
  map period (aggregateToQuarters sample_timeline) = ["2024-Q1"]%string /\
  StronglySorted (key_lt period) (aggregateToQuarters sample_timeline).
Proof.
  split; [vm_compute; reflexivity|].
  refine (proj1 (quarters_in_order sample_timeline _)).
  unfold sample_timeline.
  apply List.Forall_cons; [exists 2024, 1; repeat split; lia|].
  apply List.Forall_cons; [exists 2024, 2; repeat split; lia|].
  apply List.Forall_cons; [exists 2024, 3; repeat split; lia|].
  apply List.Forall_nil.
Defined.

(** ** The cards and the chart *)

Lemma dict_alter_Qsum_at {V : Type} (g : V -> Q) f k (d : dict V) c :
  (forall v, dict_get d k = Some v -> (g (f v) == g v + c)%Q) ->
  dict_get d k <> None ->
  (Qsum (map g (dict_values (dict_alter f k d))) == Qsum (map g (dict_values d)) + c)%Q.
Proof.
  induction d as [|[k' v] d IH]; intros Hg Hget; [now contradiction Hget|].
  cbn [dict_alter dict_get] in *. destruct (String.eqb k' k) eqn:Hk.
  - cbn [dict_values map snd]. rewrite !Qsum_cons, (Hg v eq_refl). ring.
  - cbn [dict_values map snd]. rewrite !Qsum_cons.
    change (map snd (dict_alter f k d)) with (dict_values (dict_alter f k d)).
    change (map snd d) with (dict_values d).
    rewrite (IH Hg Hget). ring.
Qed.

Lemma column_filter p (f : Row -> bool) l :
  (column p (List.filter f l)
   == Qsum (map (fun r => if f r then val0 (vals r) p else 0) l))%Q.
Proof.
  unfold column. induction l as [|r l IH]; [reflexivity|].
  cbn [List.filter map]. rewrite Qsum_cons.
  destruct (f r); [cbn [map]; rewrite Qsum_cons, IH; reflexivity|rewrite IH; ring].
Qed.

Lemma window_table numToString p (W : string -> bool) E :
  List.Forall (fun e => ev_provider e <> "month") E ->
  let pm := fold_left (apply_event numToString) E [] in
  table_of E pm /\
  (Qsum (map (fun r => if W (month r) then val0 (vals r) p else 0) (dict_values pm))
   == Qsum (map ev_amount
              (List.filter (fun e => W (ev_key e)) (List.filter (of_provider p) E))))%Q.
Proof.
  intros Hprov. cbv zeta. revert Hprov.
  apply (fold_left_snoc_ind (apply_event numToString) (fun E pm =>
           List.Forall (fun e => ev_provider e <> "month") E ->
           table_of E pm /\
           (Qsum (map (fun r => if W (month r) then val0 (vals r) p else 0) (dict_values pm))
            == Qsum (map ev_amount
                       (List.filter (fun e => W (ev_key e)) (List.filter (of_provider p) E))))%Q)).
  - intros _. split; [apply table_of_nil|reflexivity].
  - intros l e pm IH Hall. apply List.Forall_app in Hall as [Hl He].
    inversion He as [|? ? Hm _]; subst. destruct (IH Hl) as [Htable Hsum].
    split; [now apply table_of_step|].
    unfold apply_event, month_step.
    set (g := fun r : Row => if W (month r) then val0 (vals r) p else 0%Q).
    rewrite (dict_alter_Qsum_at g _ _ _
               (if W (ev_key e) && of_provider p e then ev_amount e else 0)%Q).
    + rewrite dict_ensure_Qsum.
      * fold g in Hsum. rewrite Hsum, !List.filter_app, map_app, Qsum_app.
        cbn [List.filter].
        destruct (of_provider p e) eqn:Hp; cbn [List.filter];
          [destruct (W (ev_key e)) eqn:Hw|]; cbn [andb map];
          rewrite ?andb_false_r, ?Qsum_cons; change (Qsum []) with 0%Q; ring.
      * unfold g. cbn [month vals]. rewrite val0_empty. now destruct (W (ev_key e)).
    + intros v Hv. rewrite dict_get_ensure in Hv.
      assert (Hmonth : month v = ev_key e).
      { destruct (dict_get pm (ev_key e)) as [old|] eqn:Hold.
        - injection Hv as <-. exact (proj1 (to_rows _ _ Htable _ _ Hold)).
        - rewrite String.eqb_refl in Hv. now injection Hv as <-. }
      unfold g. pose proof (add_cost_val0 numToString (ev_provider e) (ev_amount e) v p Hm) as Hc.
      assert (Hmonth' : month (add_cost numToString (ev_provider e) (ev_amount e) v) = month v).
      { unfold add_cost. destruct (String.eqb_spec (ev_provider e) "month"); [contradiction|].
        reflexivity. }
      rewrite Hmonth', Hmonth. unfold of_provider.
      destruct (W (ev_key e)); cbn [andb]; [rewrite Hc; reflexivity|ring].
    + apply dict_get_ensure_same.
Qed.

Lemma filter_map_project (f : string -> bool) l :
  List.filter (fun r => f (month r)) (map project l)
  = map project (List.filter (fun r => f (month r)) l).
Proof.
  induction l as [|r l IH]; [reflexivity|]. cbn [map List.filter].
  rewrite project_month. destruct (f (month r)); cbn [map]; now rewrite IH.
Qed.

(** X28. The cards and the chart agree, in exact arithmetic.  For
    well-formed input and a window in force, the [totalCost] on the card of
    a provider and the sum of the values that the monthly timeline shows for
    that provider in the months of the window differ by at most 0.005 per
    month row of the window: the two computations allocate the bills to the
    months in the same way, and only the rounding of the rows separates
    them.  (The error of the doubles that the program computes with comes on
    top and is not modelled.) *)
Theorem cards_match_chart (numToString : Q -> string) (cd : ChartData) (rows : list Row)
    (windowMonths : Z) (w : Window) (ws we : string) (cards : list Summary) (c : Summary) :
  no_month_provider (series cd) -> List.Forall wf_series (series cd) ->
  allMonthly numToString (Some cd) = Returns rows ->
  0 < windowMonths ->
  truthy (windowStart w) = Some ws -> truthy (windowEnd w) = Some we ->
  SummaryCards (series cd) (windowStart w) (windowEnd w) = Returns (Normal (Some cards)) ->
  In c cards ->
  (Qabs (column (s_key c) (filtered rows windowMonths w) - s_totalCost c)
   <= inject_Z (Z.of_nat (length (filtered rows windowMonths w))) * (1 # 200))%Q.
Proof.
  intros Hno Hwf Hrows Hw Hws Hwe Hcards Hc.
  set (W := fun k => str_le ws k && str_le k we).
  assert (Hfiltered : filtered rows windowMonths w = List.filter (fun r => W (month r)) rows).
  { unfold filtered. destruct (Z.ltb_spec 0 windowMonths); [|lia]. now rewrite Hws, Hwe. }
  rewrite Hfiltered.
  rewrite allMonthly_events in Hrows.
  destruct (contributions_wf (series cd) Hwf) as (E & HE & _).
  rewrite HE in Hrows. cbn [bind] in Hrows. injection Hrows as <-.
  pose proof (contributions_no_month _ _ Hno HE) as Hprov.
  apply (card_in_cards (series cd) (windowStart w) (windowEnd w) (Some cards) c Hwf Hcards)
    in Hc as (p & _ & Hres).
  apply card_result_Some in Hres as (cfg & Hcfg & _ & _ & _ & Hkey & _ & _ & _ & Htotal & _).
  assert (Hp : In p tracked).
  { assert (Hk : known p = true) by (apply config_known; congruence).
    unfold known in Hk. now apply existsb_eqb_In in Hk. }
  destruct (card_total_events (bounds (windowStart w) (windowEnd w)) p (series cd) E HE)
    as [_ Hsum].
  assert (Hb : bounds (windowStart w) (windowEnd w) = Some (ws, we))
    by (unfold bounds; now rewrite Hws, Hwe).
  rewrite Hb in Hsum. rewrite Hkey, Htotal, Hb.
  destruct (window_table numToString p W E Hprov) as [_ Htable]. cbv zeta in Htable.
  set (pm := fold_left (apply_event numToString) E []) in *.
  unfold rows_of_table. rewrite filter_map_project, length_map.
  set (l := List.filter (fun r => W (month r)) (sort_by month (dict_values pm))).
  assert (Hexact : (column p l
                    == Qsum (map ev_amount
                               (List.filter (event_in (Some (ws, we)))
                                  (List.filter (of_provider p) E))))%Q).
  { unfold l. rewrite column_filter.
    rewrite (Qsum_perm _ _ (Permutation_map _ (sort_by_perm month (dict_values pm)))).
    exact Htable. }
  pose proof (column_project_error p l Hp) as Herr.
  apply Qabs_Qle_condition.
  assert (Hsame : (card_total (Some (ws, we)) p (series cd) == column p l)%Q)
    by (now rewrite Hsum, Hexact).
  revert Herr Hsame. generalize (inject_Z (Z.of_nat (length l)) * (1 # 200))%Q.
  generalize (column p (map project l)), (column p l),
    (card_total (Some (ws, we)) p (series cd)).
  intros t b a e Herr Hsame. lra.
Qed.

Lemma cards_match_chart_witness :
  (Qabs (column "mpwik" (filtered sample_paging 12 (computeWindow sample_paging 12 0)) - (120 # 2))
   <= inject_Z (Z.of_nat (length (filtered sample_paging 12 (computeWindow sample_paging 12 0))))
      * (1 # 200))%Q.
Proof.
  exact (cards_match_chart integer_text cd_paging sample_paging 12
           (computeWindow sample_paging 12 0) "2024-01" "2024-12" _
           {| s_key := "mpwik"; s_label := "MPWiK (woda)"; s_icon := Droplets;
              s_color := "#3b82f6"; s_totalCost := 120 # 2; s_records := 1;
              s_lastCost := Some 60%Q; s_costTrend := None |}
           ltac:(repeat (apply List.Forall_cons; [discriminate|]); apply List.Forall_nil)
           cd_paging_wf ltac:(vm_compute; reflexivity) ltac:(lia)
           ltac:(reflexivity) ltac:(reflexivity) ltac:(vm_compute; reflexivity)
           ltac:(right; left; reflexivity)).
Defined.
